(** * fastAttention: online softmax and tiled (flash) attention

    A shallow embedding of [flash_attention.ipynb] over exact arithmetic.
    Python floats and NumPy [float64] entries are modelled as extended
    reals: a finite real number, the two infinities, or NaN.  Finite
    arithmetic is exact (no rounding); the special values follow IEEE 754,
    the zero being unsigned.  The naive softmax is the one routine whose
    intermediate values leave the range of a float64, and it is modelled
    with that range: [math.exp] raises OverflowError above it and returns
    zero below it, and a sum beyond it is an infinity.  Everywhere else the
    argument of an exponential is never positive.  Tile sizes are Python
    integers, of either sign. *)

From Stdlib Require Import String Reals Lra Lia ZArith Bool List.
From Stdlib Require Import Permutation.
Import ListNotations.

Local Open Scope R_scope.

(** ** Exceptions and the error monad *)

Inductive exn : Type :=
| AssertionError (msg : string)
| ZeroDivisionError
| ValueError
| IndexError
| OverflowError.

Inductive result (A : Type) : Type :=
| Ok (a : A)
| Err (e : exn).

Arguments Ok {A} a.
Arguments Err {A} e.

Definition bind {A B : Type} (x : result A) (f : A -> result B) : result B :=
  match x with
  | Ok a => f a
  | Err e => Err e
  end.

Notation "x <- c1 ;; c2" := (bind c1 (fun x => c2))
  (at level 61, c1 at next level, right associativity).

Notation "' pat <- c1 ;; c2" := (bind c1 (fun x => match x with pat => c2 end))
  (at level 61, pat pattern, c1 at next level, right associativity).

Fixpoint mapM {A B : Type} (f : A -> result B) (l : list A) : result (list B) :=
  match l with
  | [] => Ok []
  | a :: l' => b <- f a ;; bs <- mapM f l' ;; Ok (b :: bs)
  end.

Fixpoint foldM {A S : Type} (f : S -> A -> result S) (l : list A) (s : S)
  : result S :=
  match l with
  | [] => Ok s
  | a :: l' => s' <- f s a ;; foldM f l' s'
  end.

(** ** Float values over exact arithmetic *)

Inductive xreal : Type :=
| Fin (r : R)
| PInf
| NInf
| NaN.

Definition xopp (a : xreal) : xreal :=
  match a with
  | Fin x => Fin (- x)
  | PInf => NInf
  | NInf => PInf
  | NaN => NaN
  end.

Definition xadd (a b : xreal) : xreal :=
  match a, b with
  | NaN, _ | _, NaN => NaN
  | Fin x, Fin y => Fin (x + y)
  | PInf, NInf | NInf, PInf => NaN
  | PInf, _ | _, PInf => PInf
  | NInf, _ | _, NInf => NInf
  end.

Definition xsub (a b : xreal) : xreal := xadd a (xopp b).

Definition inf_times (pos : bool) (x : R) : xreal :=
  if Rlt_dec 0 x then (if pos then PInf else NInf)
  else if Rlt_dec x 0 then (if pos then NInf else PInf)
  else NaN.

Definition xmul (a b : xreal) : xreal :=
  match a, b with
  | NaN, _ | _, NaN => NaN
  | Fin x, Fin y => Fin (x * y)
  | Fin x, PInf | PInf, Fin x => inf_times true x
  | Fin x, NInf | NInf, Fin x => inf_times false x
  | PInf, PInf | NInf, NInf => PInf
  | PInf, NInf | NInf, PInf => NInf
  end.

(** IEEE division, as NumPy performs it on arrays: dividing by zero gives
    an infinity or NaN, never an exception. *)
Definition xdiv (a b : xreal) : xreal :=
  match a, b with
  | NaN, _ | _, NaN => NaN
  | Fin x, Fin y =>
      if Req_dec_T y 0
      then (if Rlt_dec 0 x then PInf else if Rlt_dec x 0 then NInf else NaN)
      else Fin (x / y)
  | Fin _, PInf | Fin _, NInf => Fin 0
  | PInf, Fin y => if Rlt_dec y 0 then NInf else PInf
  | NInf, Fin y => if Rlt_dec y 0 then PInf else NInf
  | PInf, PInf | PInf, NInf | NInf, PInf | NInf, NInf => NaN
  end.

(** [a > b] on floats: false as soon as one side is NaN. *)
Definition xgt (a b : xreal) : bool :=
  match a, b with
  | NaN, _ | _, NaN => false
  | Fin x, Fin y => if Rlt_dec y x then true else false
  | PInf, PInf => false
  | PInf, _ => true
  | _, PInf => false
  | NInf, _ => false
  | Fin _, NInf => true
  end.

(** [np.maximum] on two entries: NaN propagates. *)
Definition xmax (a b : xreal) : xreal :=
  match a, b with
  | NaN, _ | _, NaN => NaN
  | _, _ => if xgt b a then b else a
  end.

(** The exponential on one entry, over exact arithmetic: [np.exp], and
    [math.exp] in [safe_softmax] and [online_softmax], where its argument
    is an entry minus a maximum that the entry does not exceed, so that it
    cannot raise. *)
Definition xexp (a : xreal) : xreal :=
  match a with
  | Fin x => Fin (exp x)
  | PInf => PInf
  | NInf => Fin 0
  | NaN => NaN
  end.

(** Python's [/] on two floats raises when the divisor is zero. *)
Definition py_div (a b : xreal) : result xreal :=
  match b with
  | Fin y => if Req_dec_T y 0 then Err ZeroDivisionError else Ok (xdiv a b)
  | _ => Ok (xdiv a b)
  end.

(** ** The range of a float64 *)

(** Rounding to nearest gives an infinity from [2^1024 - 2^970] on, the
    midpoint above the largest float, and zero up to [2^-1075], half the
    smallest positive float.  Below [2^-1022], the smallest normal float, a
    float has lost part of its precision. *)
Definition float_top : R := 2 ^ 1024 - 2 ^ 970.
Definition float_tiny : R := / 2 ^ 1075.
Definition float_min : R := / 2 ^ 1022.

(** [math.exp] with its range: Python raises OverflowError when the result
    is beyond the largest float (an argument above 709.78) and returns 0.0
    when it underflows (an argument below -745.13). *)
Definition math_exp (a : xreal) : result xreal :=
  match a with
  | Fin x =>
      if Rle_dec float_top (exp x) then Err OverflowError
      else if Rle_dec (exp x) float_tiny then Ok (Fin 0)
      else Ok (Fin (exp x))
  | PInf => Ok PInf
  | NInf => Ok (Fin 0)
  | NaN => Ok NaN
  end.

(** Float addition with its range: a sum beyond the largest float is an
    infinity, and raises nothing. *)
Definition float_add (a b : xreal) : xreal :=
  match xadd a b with
  | Fin s =>
      if Rle_dec float_top s then PInf
      else if Rle_dec s (- float_top) then NInf
      else Fin s
  | s => s
  end.

(** ** The three softmax routines *)

Definition standard_softmax (x : list xreal) : result (list xreal) :=
  total <- foldM (fun total v => e <- math_exp v ;; Ok (float_add total e)) x (Fin 0) ;;
  mapM (fun v => e <- math_exp v ;; py_div e total) x.

Definition safe_softmax (x : list xreal) : result (list xreal) :=
  let max_value :=
    fold_left (fun max_value v => if xgt v max_value then v else max_value) x NInf in
  let total :=
    fold_left (fun total v => xadd total (xexp (xsub v max_value))) x (Fin 0) in
  mapM (fun v => py_div (xexp (xsub v max_value)) total) x.

(** One iteration of the single loop of [online_softmax], on the pair
    (total, max_value). *)
Definition online_step (st : xreal * xreal) (v : xreal) : xreal * xreal :=
  let '(total, max_value) := st in
  let old_max := max_value in
  let max_value := if xgt v max_value then v else max_value in
  (xadd (xmul total (xexp (xsub old_max max_value))) (xexp (xsub v max_value)),
   max_value).

Definition online_softmax (x : list xreal) : result (list xreal) :=
  let '(total, max_value) := fold_left online_step x (Fin 0, NInf) in
  mapM (fun v => py_div (xexp (xsub v max_value)) total) x.

(** ** NumPy arrays of rank two *)

(** An array of shape [(length rows, ncols)]; the column count is kept
    apart from the rows because an array may have no row at all. *)
Record ndarray : Type := mkarr { ncols : nat; rows : list (list xreal) }.

Definition shape0 (a : ndarray) : nat := length (rows a).
Definition shape1 (a : ndarray) : nat := ncols a.

(** Every row has as many entries as the shape announces. *)
Definition wf (a : ndarray) : Prop :=
  Forall (fun r => length r = ncols a) (rows a).

Fixpoint zip_with {A B C : Type} (f : A -> B -> C) (l1 : list A) (l2 : list B)
  : list C :=
  match l1, l2 with
  | a :: l1', b :: l2' => f a b :: zip_with f l1' l2'
  | _, _ => []
  end.

(** [np.full((n, m), x)], [np.zeros((n, m))] and [np.zeros_like]. *)
Definition np_full (n m : nat) (x : xreal) : ndarray :=
  {| ncols := m; rows := repeat (repeat x m) n |}.

Definition np_zeros (n m : nat) : ndarray := np_full n m (Fin 0).

Definition np_zeros_like (a : ndarray) : ndarray :=
  np_zeros (shape0 a) (shape1 a).

(** [a[start:stop, :]] for indices that are not negative. *)
Definition slice_rows (a : ndarray) (start stop : nat) : ndarray :=
  {| ncols := ncols a; rows := firstn (stop - start) (skipn start (rows a)) |}.

Definition col (a : ndarray) (j : nat) : list xreal :=
  map (fun r => nth j r NaN) (rows a).

(** [a.T] *)
Definition np_T (a : ndarray) : ndarray :=
  {| ncols := shape0 a; rows := map (col a) (seq 0 (ncols a)) |}.

Definition xdot (u v : list xreal) : xreal :=
  fold_left xadd (zip_with xmul u v) (Fin 0).

(** [np.matmul(a, b)], also written [a @ b]. *)
Definition np_matmul (a b : ndarray) : result ndarray :=
  if (ncols a =? shape0 b)%nat
  then Ok {| ncols := ncols b;
             rows := map (fun ar => map (fun j => xdot ar (col b j))
                                        (seq 0 (ncols b)))
                         (rows a) |}
  else Err ValueError.

Definition row_max (r : list xreal) : xreal :=
  match r with
  | [] => NaN
  | x :: r' => fold_left xmax r' x
  end.

(** [np.max(a, axis=1, keepdims=True)]: an empty axis has no maximum. *)
Definition np_max_axis1 (a : ndarray) : result ndarray :=
  if (ncols a =? 0)%nat then Err ValueError
  else Ok {| ncols := 1; rows := map (fun r => [row_max r]) (rows a) |}.

Definition row_sum (r : list xreal) : xreal := fold_left xadd r (Fin 0).

(** [np.sum(a, axis=1, keepdims=True)] *)
Definition np_sum_axis1 (a : ndarray) : ndarray :=
  {| ncols := 1; rows := map (fun r => [row_sum r]) (rows a) |}.

(** [np.exp(a)] *)
Definition np_exp (a : ndarray) : ndarray :=
  {| ncols := ncols a; rows := map (map xexp) (rows a) |}.

(** Broadcasting of one axis: equal lengths, or one of them is 1. *)
Definition bdim (n m : nat) : result nat :=
  if (n =? m)%nat then Ok n
  else if (n =? 1)%nat then Ok m
  else if (m =? 1)%nat then Ok n
  else Err ValueError.

(** An axis of length one is repeated to the broadcast length. *)
Definition stretch {A : Type} (n : nat) (l : list A) : list A :=
  match l with
  | [x] => repeat x n
  | _ => l
  end.

(** An element-wise binary operation with broadcasting. *)
Definition np_binop (f : xreal -> xreal -> xreal) (a b : ndarray)
  : result ndarray :=
  r <- bdim (shape0 a) (shape0 b) ;;
  c <- bdim (ncols a) (ncols b) ;;
  Ok {| ncols := c;
        rows := zip_with (fun ra rb => zip_with f (stretch c ra) (stretch c rb))
                         (stretch r (rows a)) (stretch r (rows b)) |}.

Definition np_add := np_binop xadd.
Definition np_sub := np_binop xsub.
Definition np_mul := np_binop xmul.
Definition np_div := np_binop xdiv.
Definition np_maximum := np_binop xmax.

(** [np.concatenate(blocks, axis=0)] *)
Definition np_concatenate (blocks : list ndarray) : result ndarray :=
  match blocks with
  | [] => Err ValueError
  | b0 :: _ =>
      if forallb (fun b => (ncols b =? ncols b0)%nat) blocks
      then Ok {| ncols := ncols b0; rows := concat (map rows blocks) |}
      else Err ValueError
  end.

(** ** Python integers, ranges, assertions and list indexing *)

Definition py_mod (a b : Z) : result Z :=
  if (b =? 0)%Z then Err ZeroDivisionError else Ok (a mod b)%Z.

Definition py_assert (c : bool) (msg : string) : result unit :=
  if c then Ok tt else Err (AssertionError msg).

(** [range(0, stop, step)] *)
Definition py_range (stop : nat) (step : Z) : result (list nat) :=
  if (step =? 0)%Z then Err ValueError
  else if (step <? 0)%Z then Ok []
  else let b := Z.to_nat step in
       Ok (map (fun t => (t * b)%nat) (seq 0 ((stop + b - 1) / b))).

Definition py_index {A : Type} (l : list A) (i : nat) : result A :=
  match nth_error l i with
  | Some x => Ok x
  | None => Err IndexError
  end.

Fixpoint py_setitem {A : Type} (l : list A) (i : nat) (x : A) : result (list A) :=
  match l, i with
  | [], _ => Err IndexError
  | _ :: l', O => Ok (x :: l')
  | a :: l', S i' => l'' <- py_setitem l' i' x ;; Ok (a :: l'')
  end.

(** ** Tiled attention *)

Definition msg_q : string :=
  "the number of rows of q must be divisible by b_r".
Definition msg_k : string :=
  "the number of rows of k must be divisible by b_c".
Definition msg_v : string :=
  "the number of rows of v must be divisible by b_c".
Definition msg_cols : string :=
  "the number of columns of q, k, v must be the same".

(** The four assertions that open [flash_attention]. *)
Definition check_preconditions (q k v : ndarray) (b_r b_c : Z) : result unit :=
  rq <- py_mod (Z.of_nat (shape0 q)) b_r ;;
  _ <- py_assert (rq =? 0)%Z msg_q ;;
  rk <- py_mod (Z.of_nat (shape0 k)) b_c ;;
  _ <- py_assert (rk =? 0)%Z msg_k ;;
  rv <- py_mod (Z.of_nat (shape0 v)) b_c ;;
  _ <- py_assert (rv =? 0)%Z msg_v ;;
  py_assert ((shape1 q =? shape1 k)%nat && (shape1 k =? shape1 v)%nat) msg_cols.

(** [[a[i:i+b, :] for i in range(0, N, b)]] *)
Definition split_blocks (a : ndarray) (N : nat) (b : Z) : result (list ndarray) :=
  idx <- py_range N b ;;
  Ok (map (fun i => slice_rows a i (i + Z.to_nat b)) idx).

(** What one visit of a (row tile, column tile) pair computes: the merged
    running max and normalizer, the new output tile, and the arguments it
    handed to [np.exp], in the order of evaluation. *)
Record tile_result : Type := mktile {
  m_i_new : ndarray;
  l_i_new : ndarray;
  o_i_new : ndarray;
  exp_args : list ndarray
}.

(** The body of the inner loop, lines 9 to 12 of the algorithm.  The
    update of the old output reads [o_blocks[i]] once more, which is still
    the tile [o_block] loaded at the top of the iteration. *)
Definition tile_step (q_block k_block v_block m_block l_block o_block : ndarray)
  : result tile_result :=
  s_i_j <- np_matmul q_block (np_T k_block) ;;
  m_i_j <- np_max_axis1 s_i_j ;;
  a1 <- np_sub s_i_j m_i_j ;;
  let p_i_j := np_exp a1 in
  let l_i_j := np_sum_axis1 p_i_j in
  m_new <- np_maximum m_block m_i_j ;;
  a2 <- np_sub m_block m_new ;;
  t1 <- np_mul l_block (np_exp a2) ;;
  a3 <- np_sub m_i_j m_new ;;
  t2 <- np_mul l_i_j (np_exp a3) ;;
  l_new <- np_add t1 t2 ;;
  a4 <- np_sub m_i_j m_new ;;
  t3 <- np_mul (np_exp a4) p_i_j ;;
  current_o_block <- np_matmul t3 v_block ;;
  a5 <- np_sub m_block m_new ;;
  t4 <- np_mul l_block (np_exp a5) ;;
  updated_old_o_block <- np_mul t4 o_block ;;
  t5 <- np_add current_o_block updated_old_o_block ;;
  o_new <- np_div t5 l_new ;;
  Ok {| m_i_new := m_new; l_i_new := l_new; o_i_new := o_new;
        exp_args := [a1; a2; a3; a4; a5] |}.

(** The per-tile lists the loops read and write, with the log of every
    argument passed to [np.exp] so far. *)
Record blocks_state : Type := mkstate {
  o_blocks : list ndarray;
  l_blocks : list ndarray;
  m_blocks : list ndarray;
  exp_log : list ndarray
}.

(** One iteration of the inner loop, at row tile [i]. *)
Definition visit_tile (q_blocks : list ndarray) (k_block v_block : ndarray)
  (st : blocks_state) (i : nat) : result blocks_state :=
  q_block <- py_index q_blocks i ;;
  m_block <- py_index (m_blocks st) i ;;
  l_block <- py_index (l_blocks st) i ;;
  o_block <- py_index (o_blocks st) i ;;
  t <- tile_step q_block k_block v_block m_block l_block o_block ;;
  o_blocks' <- py_setitem (o_blocks st) i (o_i_new t) ;;
  m_blocks' <- py_setitem (m_blocks st) i (m_i_new t) ;;
  l_blocks' <- py_setitem (l_blocks st) i (l_i_new t) ;;
  Ok {| o_blocks := o_blocks'; l_blocks := l_blocks'; m_blocks := m_blocks';
        exp_log := exp_log st ++ exp_args t |}.

(** One iteration of the outer loop, at column tile [j]. *)
Definition visit_column (q_blocks k_blocks v_blocks : list ndarray)
  (st : blocks_state) (j : nat) : result blocks_state :=
  k_block <- py_index k_blocks j ;;
  v_block <- py_index v_blocks j ;;
  foldM (visit_tile q_blocks k_block v_block) (seq 0 (length q_blocks)) st.

(** Everything after the assertions, up to the end of the loops. *)
Definition tile_work (q k v : ndarray) (b_r b_c : Z) : result blocks_state :=
  let o := np_zeros_like q in
  let N := shape0 q in
  let l := np_zeros N 1 in
  let m := np_full N 1 NInf in
  q_blocks <- split_blocks q N b_r ;;
  k_blocks <- split_blocks k N b_c ;;
  v_blocks <- split_blocks v N b_c ;;
  o_blocks0 <- split_blocks o N b_r ;;
  l_blocks0 <- split_blocks l N b_r ;;
  m_blocks0 <- split_blocks m N b_r ;;
  foldM (visit_column q_blocks k_blocks v_blocks) (seq 0 (length k_blocks))
        {| o_blocks := o_blocks0; l_blocks := l_blocks0; m_blocks := m_blocks0;
           exp_log := [] |}.

Definition flash_attention_run (q k v : ndarray) (b_r b_c : Z)
  : result blocks_state :=
  _ <- check_preconditions q k v b_r b_c ;;
  tile_work q k v b_r b_c.

Definition flash_attention (q k v : ndarray) (b_r b_c : Z) : result ndarray :=
  st <- flash_attention_run q k v b_r b_c ;;
  np_concatenate (o_blocks st).

(** ** Full-matrix attention *)

Definition standard_attention (Q K V : ndarray) : result ndarray :=
  scores <- np_matmul Q (np_T K) ;;
  mx <- np_max_axis1 scores ;;
  shifted <- np_sub scores mx ;;
  let attention_weights := np_exp shifted in
  attention_weights' <- np_div attention_weights (np_sum_axis1 attention_weights) ;;
  np_matmul attention_weights' V.

(** ** Reference quantities over the reals *)

Definition Rsum (l : list R) : R := fold_right Rplus 0 l.

(** The largest element of [x :: l]. *)
Definition Rmaxl (x : R) (l : list R) : R := fold_left Rmax l x.

(** The softmax of a real vector, as mathematics defines it. *)
Definition softmaxR (x : list R) : list R :=
  map (fun v => exp v / Rsum (map exp x)) x.

(** The naive softmax stays within the range of a float on [x]: the sum of
    the exponentials does not reach the overflow threshold, and no
    exponential is below the smallest normal float. *)
Definition within_float_range (x : list R) : Prop :=
  Rsum (map exp x) < float_top /\ Forall (fun v => float_min <= exp v) x.

(** ** One row of a tile visit

    Every operation of [tile_step] acts on the rows of its arguments
    independently.  These are the values it computes for one query row [q]
    with running state [(m, l, o)], against the key rows [ks] and the value
    tile [v_block]. *)

Definition kernel_s (ks : list (list xreal)) (q : list xreal) : list xreal :=
  map (xdot q) ks.

Definition kernel_m (ks : list (list xreal)) (q : list xreal) : xreal :=
  row_max (kernel_s ks q).

Definition kernel_a (ks : list (list xreal)) (q : list xreal) : list xreal :=
  map (fun e => xsub e (kernel_m ks q)) (kernel_s ks q).

Definition kernel_p (ks : list (list xreal)) (q : list xreal) : list xreal :=
  map xexp (kernel_a ks q).

Definition kernel_l (ks : list (list xreal)) (q : list xreal) : xreal :=
  row_sum (kernel_p ks q).

Definition merge_m (m m_loc : xreal) : xreal := xmax m m_loc.

Definition merge_l (m l m_loc l_loc : xreal) : xreal :=
  xadd (xmul l (xexp (xsub m (merge_m m m_loc))))
       (xmul l_loc (xexp (xsub m_loc (merge_m m m_loc)))).

Definition merge_o (v_block : ndarray) (m l : xreal) (o : list xreal)
  (m_loc l_loc : xreal) (p : list xreal) : list xreal :=
  let current :=
    map (fun j => xdot (map (fun e => xmul (xexp (xsub m_loc (merge_m m m_loc))) e) p)
                       (col v_block j))
        (seq 0 (ncols v_block)) in
  let updated_old :=
    map (fun e => xmul (xmul l (xexp (xsub m (merge_m m m_loc)))) e) o in
  map (fun e => xdiv e (merge_l m l m_loc l_loc)) (zip_with xadd current updated_old).

(** ** Attention over the reals *)

(** A real matrix with [d] columns, as an array. *)
Definition real_matrix (d : nat) (M : list (list R)) : ndarray :=
  {| ncols := d; rows := map (map Fin) M |}.

Definition has_shape (n d : nat) (M : list (list R)) : Prop :=
  length M = n /\ Forall (fun r => length r = d) M.

Definition Rdot (u v : list R) : R := Rsum (zip_with Rmult u v).

(** The largest element of a list that is not empty. *)
Definition Rlist_max (l : list R) : R :=
  match l with
  | [] => 0
  | x :: l' => Rmaxl x l'
  end.

(** The scores of one query row [q] against the key rows [K]. *)
Definition scoresR (K : list (list R)) (q : list R) : list R := map (Rdot q) K.

(** exp(score - row max), for every key. *)
Definition weightsR (K : list (list R)) (q : list R) : list R :=
  map (fun s => exp (s - Rlist_max (scoresR K q))) (scoresR K q).

(** The normalizer of the row: the sum of its weights. *)
Definition normR (K : list (list R)) (q : list R) : R := Rsum (weightsR K q).

Definition colR (V : list (list R)) (j : nat) : list R :=
  map (fun r => nth j r 0) V.

(** The attention output of one query row: the weighted sum of the value
    rows, divided by the normalizer. *)
Definition outR (K V : list (list R)) (d : nat) (q : list R) : list R :=
  map (fun j => Rdot (weightsR K q) (colR V j) / normR K q) (seq 0 d).

Definition attentionR (Q K V : list (list R)) (d : nat) : list (list R) :=
  map (outR K V d) Q.

(** The running max of a row once the key rows [K] have been seen: the
    identity when none has. *)
Definition run_m (K : list (list R)) (q : list R) : xreal :=
  match K with
  | [] => NInf
  | _ :: _ => Fin (Rlist_max (scoresR K q))
  end.

(** The factor that brings the weights of the keys seen so far to the new
    baseline [M]; before the first key it is [exp(-inf) = 0]. *)
Definition rescale_old (K : list (list R)) (q : list R) (M : R) : R :=
  match K with
  | [] => 0
  | _ :: _ => exp (Rlist_max (scoresR K q) - M)
  end.

(** ** The state of the tiles during a run on real matrices *)

(** The running max, normalizer and output of the rows [Qb] of a row tile
    once the key rows [Kp] and value rows [Vp] have been merged. *)
Definition m_state (Kp Qb : list (list R)) : ndarray :=
  mkarr 1 (map (fun q => [run_m Kp q]) Qb).

Definition l_state (Kp Qb : list (list R)) : ndarray :=
  mkarr 1 (map (fun q => [Fin (normR Kp q)]) Qb).

Definition o_state (Kp Vp : list (list R)) (d : nat) (Qb : list (list R)) : ndarray :=
  mkarr d (map (fun q => map Fin (outR Kp Vp d q)) Qb).

(** The arguments handed to [np.exp] while the key tile [Kt] is merged
    into the rows [Qb], which have already seen [Kp]. *)
Definition tile_log (Kp Kt Qb : list (list R)) : list ndarray :=
  let a1 :=
    mkarr (length Kt)
          (map (fun q => map Fin (map (fun s => s - Rlist_max (scoresR Kt q))
                                     (scoresR Kt q))) Qb) in
  let a2 :=
    mkarr 1 (map (fun q => [xsub (run_m Kp q) (run_m (Kp ++ Kt) q)]) Qb) in
  let a3 :=
    mkarr 1 (map (fun q => [Fin (Rlist_max (scoresR Kt q)
                                 - Rlist_max (scoresR (Kp ++ Kt) q))]) Qb) in
  [a1; a2; a3; a3; a2].

(** The [t]-th tile of [b] rows. *)
Definition chunk {A : Type} (b t : nat) (l : list A) : list A :=
  firstn b (skipn (t * b) l).

(** The lists of tiles when row tile [t] has merged the keys [Kof t] and
    the values [Vof t]. *)
Definition tiles_state (Q : list (list R)) (d b n : nat)
  (Kof Vof : nat -> list (list R)) (log : list ndarray) : blocks_state :=
  {| o_blocks := map (fun t => o_state (Kof t) (Vof t) d (chunk b t Q)) (seq 0 n);
     l_blocks := map (fun t => l_state (Kof t) (chunk b t Q)) (seq 0 n);
     m_blocks := map (fun t => m_state (Kof t) (chunk b t Q)) (seq 0 n);
     exp_log := log |}.

(** An entry that [exp] maps into [0, 1]. *)
Definition nonpos (x : xreal) : Prop :=
  match x with
  | Fin r => r <= 0
  | NInf => True
  | PInf | NaN => False
  end.

Definition nonpos_array (a : ndarray) : Prop := Forall (Forall nonpos) (rows a).

(** The log of a whole column visit, and of the first [j] column visits. *)
Definition column_log (Q Kp Kt : list (list R)) (b n : nat) : list ndarray :=
  concat (map (fun t => tile_log Kp Kt (chunk b t Q)) (seq 0 n)).

Definition run_log (Q K : list (list R)) (b_r n_q b_c j : nat) : list ndarray :=
  concat (map (fun j' => column_log Q (firstn (j' * b_c) K) (chunk b_c j' K) b_r n_q)
              (seq 0 j)).

(** ** The components of the design, as the specification words them *)

(** Block score kernel (4.2): the raw scores S = Q_tile . K_tile^T, the
    local row max, P = exp(S - m_local) and the local row sum. *)
Definition block_score_kernel (q_tile k_tile : ndarray)
  : result (ndarray * ndarray * ndarray * ndarray) :=
  S <- np_matmul q_tile (np_T k_tile) ;;
  m_local <- np_max_axis1 S ;;
  shifted <- np_sub S m_local ;;
  let P := np_exp shifted in
  Ok (S, m_local, P, np_sum_axis1 P).

(** Online-softmax accumulator (4.1):
    m_merged = max(m_old, m_new_local);
    l_merged = l_old . exp(m_old - m_merged)
               + l_new_local . exp(m_new_local - m_merged). *)
Definition online_softmax_accumulator (m_old l_old m_new_local l_new_local : ndarray)
  : result (ndarray * ndarray) :=
  m_merged <- np_maximum m_old m_new_local ;;
  d_old <- np_sub m_old m_merged ;;
  t_old <- np_mul l_old (np_exp d_old) ;;
  d_new <- np_sub m_new_local m_merged ;;
  t_new <- np_mul l_new_local (np_exp d_new) ;;
  l_merged <- np_add t_old t_new ;;
  Ok (m_merged, l_merged).

(** Output accumulator (4.3):
    O_new = [ O_old . l_old . exp(m_old - m_merged)
              + (P . V_tile) . exp(m_local - m_merged) ] / l_merged. *)
Definition output_accumulator
  (O_old m_old l_old m_merged l_merged P m_local V_tile : ndarray) : result ndarray :=
  t1 <- np_mul O_old l_old ;;
  d_old <- np_sub m_old m_merged ;;
  t2 <- np_mul t1 (np_exp d_old) ;;
  PV <- np_matmul P V_tile ;;
  d_loc <- np_sub m_local m_merged ;;
  t3 <- np_mul PV (np_exp d_loc) ;;
  s <- np_add t2 t3 ;;
  np_div s l_merged.

(** One row of a row tile with its running state: the query row, the
    running max (a real number, or minus infinity before the first merge),
    the running normalizer and the output row. *)
Record tile_row : Type := mkrow {
  q_row : list R;
  m_row : xreal;
  l_row : R;
  o_row : list R
}.

Definition q_tile (d : nat) (X : list tile_row) : ndarray :=
  real_matrix d (map q_row X).

Definition m_tile (X : list tile_row) : ndarray :=
  mkarr 1 (map (fun x => [m_row x]) X).

Definition l_tile (X : list tile_row) : ndarray :=
  real_matrix 1 (map (fun x => [l_row x]) X).

Definition o_tile (d : nat) (X : list tile_row) : ndarray :=
  real_matrix d (map o_row X).

Definition tile_row_ok (d : nat) (x : tile_row) : Prop :=
  length (o_row x) = d /\ (m_row x = NInf \/ exists r : R, m_row x = Fin r).

(** ** Vectors with masked entries *)

(** A vector whose entries are real numbers or masked out: a masked entry
    is passed to the softmax routines as minus infinity. *)
Definition masked (l : list (option R)) : list xreal :=
  map (fun o => match o with Some r => Fin r | None => NInf end) l.

(** The entries that are not masked. *)
Definition unmasked (l : list (option R)) : list R :=
  flat_map (fun o => match o with Some r => [r] | None => [] end) l.

(** The softmax over the unmasked entries, with weight zero at the masked
    ones. *)
Definition masked_softmax (l : list (option R)) : list R :=
  map (fun o => match o with
                | Some r => exp r / Rsum (map exp (unmasked l))
                | None => 0
                end) l.

(** A float that a sum of exponentials can be: not negative, and never
    minus infinity.  NaN and plus infinity count, being no zero divisor. *)
Definition nonneg_float (t : xreal) : Prop :=
  match t with
  | Fin r => 0 <= r
  | PInf | NaN => True
  | NInf => False
  end.

(** A float of that kind by which Python divides without raising. *)
Definition nonzero_float (t : xreal) : Prop :=
  match t with
  | Fin r => 0 < r
  | PInf | NaN => True
  | NInf => False
  end.

(** * Properties *)

(** ** The error monad and float arithmetic on finite values *)

Lemma xgt_Fin (a b : R) : xgt (Fin a) (Fin b) = if Rlt_dec b a then true else false.
Proof. reflexivity. Qed.

Lemma pick_max_Fin (m v : R) :
  (if xgt (Fin v) (Fin m) then Fin v else Fin m) = Fin (Rmax m v).
Proof.
  rewrite xgt_Fin. unfold Rmax.
  destruct (Rlt_dec m v), (Rle_dec m v); try reflexivity; f_equal; lra.
Qed.

Lemma xmax_Fin (a b : R) : xmax (Fin a) (Fin b) = Fin (Rmax a b).
Proof. unfold xmax. apply pick_max_Fin. Qed.

Lemma xdiv_Fin (a b : R) : b <> 0 -> xdiv (Fin a) (Fin b) = Fin (a / b).
Proof.
  intro Hb. unfold xdiv. destruct (Req_dec_T b 0); [contradiction | reflexivity].
Qed.

Lemma py_div_Fin (a b : R) : b <> 0 -> py_div (Fin a) (Fin b) = Ok (Fin (a / b)).
Proof.
  intro Hb. unfold py_div. destruct (Req_dec_T b 0); [contradiction |].
  now rewrite xdiv_Fin.
Qed.

(** ** Sums and maxima of real lists *)

Lemma Rsum_app (l1 l2 : list R) : Rsum (l1 ++ l2) = Rsum l1 + Rsum l2.
Proof.
  induction l1 as [| a l1 IH]; simpl; [lra | rewrite IH; lra].
Qed.

Lemma Rsum_scal (c : R) (f : R -> R) (l : list R) :
  Rsum (map (fun x => f x * c) l) = Rsum (map f l) * c.
Proof.
  induction l as [| a l IH]; simpl; [lra | rewrite IH; lra].
Qed.

Lemma Rsum_map_ext {A : Type} (f g : A -> R) (l : list A) :
  (forall x, In x l -> f x = g x) -> Rsum (map f l) = Rsum (map g l).
Proof.
  intro H. f_equal. apply map_ext_in. exact H.
Qed.

Lemma Rsum_pos {A : Type} (f : A -> R) (l : list A) :
  l <> [] -> (forall x, 0 < f x) -> 0 < Rsum (map f l).
Proof.
  intros Hne Hpos. destruct l as [| a l]; [contradiction |]. clear Hne.
  revert a. induction l as [| b l IH]; intro a; simpl.
  - specialize (Hpos a). lra.
  - specialize (IH b). simpl in IH. specialize (Hpos a). lra.
Qed.

Lemma Rsum_nonneg {A : Type} (f : A -> R) (l : list A) :
  (forall x, 0 <= f x) -> 0 <= Rsum (map f l).
Proof.
  intro H. induction l as [| a l IH]; simpl; [lra | specialize (H a); lra].
Qed.

Lemma exp_shift (x m m' : R) : exp (x - m) * exp (m - m') = exp (x - m').
Proof. rewrite <- exp_plus. f_equal. lra. Qed.

Lemma Rmaxl_ge_head (l : list R) (x : R) : x <= Rmaxl x l.
Proof.
  unfold Rmaxl. revert x. induction l as [| a l IH]; intro x; simpl; [lra |].
  eapply Rle_trans; [apply Rmax_l | apply IH].
Qed.

Lemma Rmaxl_ge_in (l : list R) (x y : R) : In y l -> y <= Rmaxl x l.
Proof.
  unfold Rmaxl. revert x. induction l as [| a l IH]; intros x Hin; simpl in *.
  - contradiction.
  - destruct Hin as [-> | Hin].
    + eapply Rle_trans; [apply Rmax_r | apply (Rmaxl_ge_head l)].
    + now apply IH.
Qed.

Lemma Rmaxl_app (l1 l2 : list R) (x : R) :
  Rmaxl x (l1 ++ l2) = Rmaxl (Rmaxl x l1) l2.
Proof. unfold Rmaxl. apply fold_left_app. Qed.

(** ** The softmax routines on real vectors *)

Lemma fold_pick_max (xs : list R) (m : R) :
  fold_left (fun max_value v => if xgt v max_value then v else max_value)
            (map Fin xs) (Fin m) = Fin (Rmaxl m xs).
Proof.
  unfold Rmaxl. revert m. induction xs as [| a xs IH]; intro m; cbn [map fold_left].
  - reflexivity.
  - rewrite pick_max_Fin. apply IH.
Qed.

Lemma fold_total_exp (xs : list R) (f : R -> R) (g : xreal -> xreal) (t : R) :
  (forall x, g (Fin x) = Fin (f x)) ->
  fold_left (fun total v => xadd total (g v)) (map Fin xs) (Fin t)
  = Fin (t + Rsum (map f xs)).
Proof.
  intro Hg. revert t. induction xs as [| a xs IH]; intro t; cbn [map fold_left].
  - simpl. f_equal. lra.
  - rewrite Hg. cbn [xadd]. rewrite IH. simpl. f_equal. lra.
Qed.

Lemma mapM_py_div (xs : list R) (f : R -> R) (g : xreal -> xreal) (t : R) :
  (forall x, g (Fin x) = Fin (f x)) -> t <> 0 ->
  mapM (fun v => py_div (g v) (Fin t)) (map Fin xs)
  = Ok (map Fin (map (fun x => f x / t) xs)).
Proof.
  intros Hg Ht. induction xs as [| a xs IH]; cbn [map mapM].
  - reflexivity.
  - rewrite Hg, py_div_Fin by assumption. cbn [bind]. rewrite IH. reflexivity.
Qed.

Lemma online_step_Fin (t m v : R) :
  online_step (Fin t, Fin m) (Fin v)
  = (Fin (t * exp (m - Rmax m v) + exp (v - Rmax m v)), Fin (Rmax m v)).
Proof.
  unfold online_step. cbv zeta. rewrite pick_max_Fin. reflexivity.
Qed.

Lemma online_loop_Fin (xs : list R) (t m : R) :
  fold_left online_step (map Fin xs) (Fin t, Fin m)
  = (Fin (t * exp (m - Rmaxl m xs)
          + Rsum (map (fun x => exp (x - Rmaxl m xs)) xs)),
     Fin (Rmaxl m xs)).
Proof.
  revert t m. induction xs as [| a xs IH]; intros t m.
  - simpl. unfold Rmaxl. simpl. f_equal. f_equal.
    replace (m - m) with 0 by lra. rewrite exp_0. lra.
  - cbn [map fold_left]. rewrite online_step_Fin, IH.
    unfold Rmaxl. cbn [fold_left map Rsum fold_right].
    fold (Rmaxl (Rmax m a) xs). set (M := Rmaxl (Rmax m a) xs).
    f_equal. f_equal.
    rewrite Rmult_plus_distr_r, Rmult_assoc.
    rewrite <- exp_plus, exp_shift.
    replace (m - Rmax m a + (Rmax m a - M)) with (m - M) by lra.
    change (fold_right Rplus 0 (map (fun x => exp (x - M)) xs))
      with (Rsum (map (fun x => exp (x - M)) xs)).
    lra.
Qed.

Lemma online_first_step (v : R) :
  online_step (Fin 0, NInf) (Fin v) = (Fin (0 * 0 + exp (v - v)), Fin v).
Proof. reflexivity. Qed.

(** The state of the single loop of [online_softmax] once a non-empty
    vector has been read: the maximum and the sum of the shifted
    exponentials. *)
Lemma online_loop_from_start (v : R) (xs : list R) :
  fold_left online_step (map Fin (v :: xs)) (Fin 0, NInf)
  = (Fin (Rsum (map (fun x => exp (x - Rmaxl v xs)) (v :: xs))),
     Fin (Rmaxl v xs)).
Proof.
  cbn [map fold_left]. rewrite online_first_step, online_loop_Fin.
  f_equal. f_equal. cbn [map Rsum fold_right].
  replace (v - v) with 0 by lra. rewrite exp_0.
  change (fold_right Rplus 0 (map (fun x => exp (x - Rmaxl v xs)) xs))
    with (Rsum (map (fun x => exp (x - Rmaxl v xs)) xs)).
  lra.
Qed.

Lemma shifted_ratio (x : list R) (M v : R) :
  x <> [] ->
  exp (v - M) / Rsum (map (fun u => exp (u - M)) x) = exp v / Rsum (map exp x).
Proof.
  intro Hne.
  assert (Hs : Rsum (map (fun u => exp (u - M)) x) = Rsum (map exp x) * exp (- M)).
  { rewrite <- Rsum_scal. apply Rsum_map_ext. intros u _.
    rewrite <- exp_plus. f_equal. }
  rewrite Hs.
  assert (Hp : 0 < Rsum (map exp x)) by (apply Rsum_pos; [assumption | apply exp_pos]).
  assert (He : 0 < exp (- M)) by apply exp_pos.
  replace (v - M) with (v + - M) by lra. rewrite exp_plus.
  field. split; lra.
Qed.

Lemma safe_softmax_real (x : list R) :
  safe_softmax (map Fin x) = Ok (map Fin (softmaxR x)).
Proof.
  unfold safe_softmax.
  destruct x as [| v xs]; [reflexivity |].
  change (fold_left (fun max_value v0 => if xgt v0 max_value then v0 else max_value)
            (map Fin (v :: xs)) NInf)
    with (fold_left (fun max_value v0 => if xgt v0 max_value then v0 else max_value)
            (map Fin xs) (Fin v)).
  rewrite fold_pick_max. set (M := Rmaxl v xs).
  rewrite (fold_total_exp (v :: xs) (fun u => exp (u - M)) (fun u => xexp (xsub u (Fin M))))
    by reflexivity.
  rewrite Rplus_0_l.
  assert (Hp : 0 < Rsum (map (fun u => exp (u - M)) (v :: xs)))
    by (apply Rsum_pos; [discriminate | intro; apply exp_pos]).
  rewrite (mapM_py_div (v :: xs) (fun u => exp (u - M))
             (fun u => xexp (xsub u (Fin M)))) by (try reflexivity; lra).
  f_equal. f_equal. unfold softmaxR. apply map_ext. intro u.
  apply shifted_ratio. discriminate.
Qed.

Lemma online_softmax_real (x : list R) :
  online_softmax (map Fin x) = Ok (map Fin (softmaxR x)).
Proof.
  unfold online_softmax.
  destruct x as [| v xs]; [reflexivity |].
  rewrite online_loop_from_start. set (M := Rmaxl v xs).
  assert (Hp : 0 < Rsum (map (fun u => exp (u - M)) (v :: xs)))
    by (apply Rsum_pos; [discriminate | intro; apply exp_pos]).
  rewrite (mapM_py_div (v :: xs) (fun u => exp (u - M))
             (fun u => xexp (xsub u (Fin M)))) by (try reflexivity; lra).
  f_equal. f_equal. unfold softmaxR. apply map_ext. intro u.
  apply shifted_ratio. discriminate.
Qed.

Lemma Rsum_ge_term {A : Type} (f : A -> R) (l : list A) (a : A) :
  (forall x, 0 <= f x) -> In a l -> f a <= Rsum (map f l).
Proof.
  intros Hf. induction l as [| b l IH]; intro Hin; simpl in *.
  - contradiction.
  - pose proof (Rsum_nonneg f l Hf) as Hl. pose proof (Hf b) as Hb.
    destruct Hin as [-> | Hin]; [lra | specialize (IH Hin); lra].
Qed.



(** ** The naive softmax and the range of a float *)

Lemma float_top_large : 2 ^ 1023 <= float_top.
Proof.
  unfold float_top.
  change 1024%nat with (1 + 1023)%nat. rewrite pow_add, pow_1.
  assert (2 ^ 970 <= 2 ^ 1023) by (apply Rle_pow; [lra | repeat constructor]).
  lra.
Qed.


Lemma float_top_gt_64 : 64 < float_top.
Proof.
  pose proof float_top_large as H.
  assert (2 ^ 7 <= 2 ^ 1023) by (apply Rle_pow; [lra | repeat constructor]).
  simpl in H0. lra.
Qed.

Lemma float_tiny_pos : 0 < float_tiny.
Proof. unfold float_tiny. apply Rinv_0_lt_compat, pow_lt. lra. Qed.


Lemma float_tiny_lt_min : float_tiny < float_min.
Proof.
  unfold float_tiny, float_min.
  assert (H : 0 < 2 ^ 1022) by (apply pow_lt; lra).
  apply Rinv_lt_contravar.
  - apply Rmult_lt_0_compat; [exact H | apply pow_lt; lra].
  - change 1075%nat with (53 + 1022)%nat. rewrite pow_add.
    assert (2 <= 2 ^ 53) by (change 53%nat with (1 + 52)%nat; rewrite pow_add, pow_1;
                             pose proof (pow_R1_Rle 2 52); lra).
    nra.
Qed.

Lemma float_min_lt_1 : float_min < 1.
Proof.
  unfold float_min. rewrite <- Rinv_1.
  apply Rinv_lt_contravar.
  - rewrite Rmult_1_l. apply pow_lt. lra.
  - change 1022%nat with (1 + 1021)%nat. rewrite pow_add, pow_1.
    pose proof (pow_R1_Rle 2 1021). lra.
Qed.

Lemma within_float_range_tiny (x : list R) :
  Forall (fun v => float_min <= exp v) x -> Forall (fun v => float_tiny < exp v) x.
Proof.
  apply Forall_impl. intros v H. pose proof float_tiny_lt_min. lra.
Qed.






Lemma math_exp_within (v : R) :
  exp v < float_top -> float_tiny < exp v -> math_exp (Fin v) = Ok (Fin (exp v)).
Proof.
  intros Hu Hl. unfold math_exp.
  destruct (Rle_dec float_top (exp v)); [lra |].
  destruct (Rle_dec (exp v) float_tiny); [lra | reflexivity].
Qed.




(** Where [safe_softmax] and [online_softmax] call [math.exp], on an entry
    minus a maximum that the entry does not exceed, it cannot raise: it
    returns the exponential, or zero where that underflows. *)
Lemma math_exp_nonpositive (v m : xreal) :
  xgt v m = false ->
  math_exp (xsub v m) = Ok (xexp (xsub v m)) \/ math_exp (xsub v m) = Ok (Fin 0).
Proof.
  pose proof float_top_gt_64 as Htop.
  destruct v as [a | | |], m as [b | | |]; cbn [xsub xopp xadd math_exp xexp];
    try (intros _; now left); try discriminate.
  rewrite xgt_Fin. destruct (Rlt_dec b a) as [| Hle]; [discriminate |]. intros _.
  assert (He : exp (a + - b) <= 1).
  { rewrite <- exp_0. destruct (Req_dec (a + - b) 0) as [-> | Hne]; [lra |].
    left. apply exp_increasing. lra. }
  destruct (Rle_dec float_top (exp (a + - b))); [lra |].
  destruct (Rle_dec (exp (a + - b)) float_tiny); [now right | now left].
Qed.

Lemma float_add_within (a b : R) :
  - float_top < a + b < float_top -> float_add (Fin a) (Fin b) = Fin (a + b).
Proof.
  intros [Hl Hu]. unfold float_add. cbn [xadd].
  destruct (Rle_dec float_top (a + b)); [lra |].
  destruct (Rle_dec (a + b) (- float_top)); [lra | reflexivity].
Qed.






(** When every exponential is zero, so is the total, and the first
    division raises. *)
Lemma naive_total_zero (x : list xreal) (t : R) :
  Forall (fun v => math_exp v = Ok (Fin 0)) x -> t = 0 ->
  exists t' : R,
    t' = 0
    /\ foldM (fun total v => e <- math_exp v ;; Ok (float_add total e)) x (Fin t)
       = Ok (Fin t').
Proof.
  pose proof float_top_gt_64 as Htop.
  intro H. revert t. induction H as [| a x Ha _ IH]; intros t Ht; cbn [foldM].
  - now exists t.
  - rewrite Ha. cbn [bind]. rewrite float_add_within by lra.
    apply IH. lra.
Qed.

Lemma standard_softmax_zero_total (x : list xreal) :
  x <> [] -> Forall (fun v => math_exp v = Ok (Fin 0)) x ->
  standard_softmax x = Err ZeroDivisionError.
Proof.
  intros Hne Hall. unfold standard_softmax.
  destruct (naive_total_zero x 0 Hall eq_refl) as [t [Ht ->]]. cbn [bind].
  destruct x as [| a x]; [contradiction |].
  inversion Hall as [| ? ? Ha _]; subst. cbn [mapM]. rewrite Ha. cbn [bind].
  unfold py_div. destruct (Req_dec_T 0 0); [reflexivity | contradiction].
Qed.


Lemma one_two_three_within_range : within_float_range [1; 2; 3].
Proof.
  pose proof float_top_gt_64 as Htop. pose proof float_min_lt_1 as Hmin.
  pose proof exp_le_3 as H3. pose proof (exp_pos 1) as H0.
  assert (E2 : exp 2 = exp 1 * exp 1)
    by (rewrite <- exp_plus; f_equal; lra).
  assert (E3 : exp 3 = exp 1 * exp 1 * exp 1)
    by (rewrite <- !exp_plus; f_equal; lra).
  split.
  - cbn [map Rsum fold_right]. rewrite E2, E3. nra.
  - repeat constructor.
    + pose proof (exp_ineq1_le 1). lra.
    + pose proof (exp_ineq1_le 2). lra.
    + pose proof (exp_ineq1_le 3). lra.
Qed.







(** ** Lists: zipping, stretching, indexing *)

Lemma zip_with_length {A B C : Type} (f : A -> B -> C) (l1 : list A) (l2 : list B) :
  length (zip_with f l1 l2) = Nat.min (length l1) (length l2).
Proof.
  revert l2. induction l1 as [| a l1 IH]; intros [| b l2]; simpl; auto.
Qed.

Lemma zip_with_map {A B C A' B' : Type} (f : A -> B -> C) (g : A' -> A) (h : B' -> B)
  (l1 : list A') (l2 : list B') :
  zip_with f (map g l1) (map h l2) = zip_with (fun a b => f (g a) (h b)) l1 l2.
Proof.
  revert l2. induction l1 as [| a l1 IH]; intros [| b l2]; simpl; auto.
  now rewrite IH.
Qed.

Lemma zip_with_diag {A C : Type} (f : A -> A -> C) (l : list A) :
  zip_with f l l = map (fun a => f a a) l.
Proof.
  induction l as [| a l IH]; simpl; [reflexivity | now rewrite IH].
Qed.

Lemma zip_with_map_same {T A B C : Type} (f : A -> B -> C) (g : T -> A) (h : T -> B)
  (l : list T) :
  zip_with f (map g l) (map h l) = map (fun x => f (g x) (h x)) l.
Proof. now rewrite zip_with_map, zip_with_diag. Qed.

Lemma zip_with_repeat_r {A B C : Type} (f : A -> B -> C) (l : list A) (y : B) :
  zip_with f l (repeat y (length l)) = map (fun a => f a y) l.
Proof.
  induction l as [| a l IH]; simpl; [reflexivity | now rewrite IH].
Qed.

Lemma zip_with_repeat_l {A B C : Type} (f : A -> B -> C) (x : A) (l : list B) :
  zip_with f (repeat x (length l)) l = map (fun b => f x b) l.
Proof.
  induction l as [| b l IH]; simpl; [reflexivity | now rewrite IH].
Qed.

Lemma zip_with_app {A B C : Type} (f : A -> B -> C) (l1 l1' : list A) (l2 l2' : list B) :
  length l1 = length l2 ->
  zip_with f (l1 ++ l1') (l2 ++ l2') = zip_with f l1 l2 ++ zip_with f l1' l2'.
Proof.
  revert l2. induction l1 as [| a l1 IH]; intros [| b l2] H; simpl in *;
    try discriminate; [reflexivity |].
  rewrite IH by lia. reflexivity.
Qed.

Lemma stretch_id {A : Type} (n : nat) (l : list A) :
  length l = n -> stretch n l = l.
Proof.
  intros <-. destruct l as [| x [| y l]]; reflexivity.
Qed.

Lemma stretch_single {A : Type} (n : nat) (x : A) : stretch n [x] = repeat x n.
Proof. reflexivity. Qed.

Lemma bdim_same (n : nat) : bdim n n = Ok n.
Proof. unfold bdim. now rewrite Nat.eqb_refl. Qed.

Lemma bdim_1_r (n : nat) : bdim n 1 = Ok n.
Proof.
  unfold bdim. destruct (Nat.eqb_spec n 1) as [-> | H]; [reflexivity |].
  reflexivity.
Qed.

Lemma bdim_1_l (n : nat) : bdim 1 n = Ok n.
Proof.
  unfold bdim. destruct (Nat.eqb_spec 1 n) as [<- | H]; reflexivity.
Qed.

(** ** Array operations, row by row

    In what follows the rows of every array of a tile are produced from
    one list [X] of row descriptions, so that an operation on arrays
    becomes an operation on the description of a row. *)

Section Rowwise.
Context {T : Type}.
Variable X : list T.

Lemma np_binop_rowwise (f : xreal -> xreal -> xreal) (fa fb : T -> list xreal)
  (ca cb c : nat) :
  bdim ca cb = Ok c ->
  np_binop f (mkarr ca (map fa X)) (mkarr cb (map fb X))
  = Ok (mkarr c (map (fun x => zip_with f (stretch c (fa x)) (stretch c (fb x))) X)).
Proof.
  intro Hc. unfold np_binop, shape0. cbn [rows ncols].
  rewrite !length_map, bdim_same. cbn [bind]. rewrite Hc. cbn [bind].
  rewrite !stretch_id by apply length_map.
  now rewrite zip_with_map_same.
Qed.

(** Same shape on both sides. *)
Lemma np_binop_same (f : xreal -> xreal -> xreal) (fa fb : T -> list xreal) (c : nat) :
  Forall (fun x => length (fa x) = c) X ->
  Forall (fun x => length (fb x) = c) X ->
  np_binop f (mkarr c (map fa X)) (mkarr c (map fb X))
  = Ok (mkarr c (map (fun x => zip_with f (fa x) (fb x)) X)).
Proof.
  intros Ha Hb. rewrite (np_binop_rowwise f fa fb c c c) by apply bdim_same.
  do 2 f_equal. apply map_ext_in. intros x Hx.
  rewrite Forall_forall in Ha, Hb.
  now rewrite !stretch_id by auto.
Qed.

(** A column vector on the right is broadcast along each row. *)
Lemma np_binop_col_r (f : xreal -> xreal -> xreal) (fa : T -> list xreal)
  (gb : T -> xreal) (c : nat) :
  Forall (fun x => length (fa x) = c) X ->
  np_binop f (mkarr c (map fa X)) (mkarr 1 (map (fun x => [gb x]) X))
  = Ok (mkarr c (map (fun x => map (fun e => f e (gb x)) (fa x)) X)).
Proof.
  intros Ha. rewrite (np_binop_rowwise f fa _ c 1 c) by apply bdim_1_r.
  do 2 f_equal. apply map_ext_in. intros x Hx.
  rewrite Forall_forall in Ha.
  rewrite stretch_id, stretch_single by auto.
  rewrite <- (Ha x Hx). apply zip_with_repeat_r.
Qed.

(** A column vector on the left is broadcast along each row. *)
Lemma np_binop_col_l (f : xreal -> xreal -> xreal) (ga : T -> xreal)
  (fb : T -> list xreal) (c : nat) :
  Forall (fun x => length (fb x) = c) X ->
  np_binop f (mkarr 1 (map (fun x => [ga x]) X)) (mkarr c (map fb X))
  = Ok (mkarr c (map (fun x => map (fun e => f (ga x) e) (fb x)) X)).
Proof.
  intros Hb. rewrite (np_binop_rowwise f _ fb 1 c c) by apply bdim_1_l.
  do 2 f_equal. apply map_ext_in. intros x Hx.
  rewrite Forall_forall in Hb.
  rewrite (stretch_id c (fb x)), stretch_single by auto.
  rewrite <- (Hb x Hx). apply zip_with_repeat_l.
Qed.

(** Two column vectors. *)
Lemma np_binop_cols (f : xreal -> xreal -> xreal) (ga gb : T -> xreal) :
  np_binop f (mkarr 1 (map (fun x => [ga x]) X)) (mkarr 1 (map (fun x => [gb x]) X))
  = Ok (mkarr 1 (map (fun x => [f (ga x) (gb x)]) X)).
Proof.
  rewrite (np_binop_rowwise f _ _ 1 1 1) by apply bdim_same. reflexivity.
Qed.

Lemma np_exp_rowwise (fa : T -> list xreal) (c : nat) :
  np_exp (mkarr c (map fa X)) = mkarr c (map (fun x => map xexp (fa x)) X).
Proof. unfold np_exp. cbn [rows ncols]. now rewrite map_map. Qed.

Lemma np_exp_cols (ga : T -> xreal) :
  np_exp (mkarr 1 (map (fun x => [ga x]) X)) = mkarr 1 (map (fun x => [xexp (ga x)]) X).
Proof. apply np_exp_rowwise. Qed.

Lemma np_sum_rowwise (fa : T -> list xreal) (c : nat) :
  np_sum_axis1 (mkarr c (map fa X)) = mkarr 1 (map (fun x => [row_sum (fa x)]) X).
Proof. unfold np_sum_axis1. cbn [rows]. now rewrite map_map. Qed.

Lemma np_max_rowwise (fa : T -> list xreal) (c : nat) :
  c <> 0%nat ->
  np_max_axis1 (mkarr c (map fa X)) = Ok (mkarr 1 (map (fun x => [row_max (fa x)]) X)).
Proof.
  intro Hc. unfold np_max_axis1. cbn [rows ncols].
  destruct (Nat.eqb_spec c 0); [contradiction |]. now rewrite map_map.
Qed.

Lemma np_matmul_rowwise (fa : T -> list xreal) (b : ndarray) :
  np_matmul (mkarr (shape0 b) (map fa X)) b
  = Ok (mkarr (ncols b)
          (map (fun x => map (fun j => xdot (fa x) (col b j)) (seq 0 (ncols b))) X)).
Proof.
  unfold np_matmul. cbn [rows ncols]. rewrite Nat.eqb_refl. now rewrite map_map.
Qed.
End Rowwise.

Lemma map_nth_seq_id {A : Type} (l : list A) (d : A) :
  map (fun t => nth t l d) (seq 0 (length l)) = l.
Proof.
  induction l as [| a l IH]; [reflexivity |].
  cbn [length seq map nth]. f_equal.
  rewrite <- seq_shift, map_map. exact IH.
Qed.

Lemma map_nth_seq {A B : Type} (g : A -> B) (l : list A) (d : A) :
  map (fun j => g (nth j l d)) (seq 0 (length l)) = map g l.
Proof.
  rewrite <- (map_map (fun j => nth j l d) g). now rewrite map_nth_seq_id.
Qed.

Lemma col_T (k : ndarray) (j : nat) :
  wf k -> (j < shape0 k)%nat -> col (np_T k) j = nth j (rows k) [].
Proof.
  intros Hwf Hj. unfold col, np_T. cbn [rows]. rewrite map_map.
  assert (Hlen : length (nth j (rows k) []) = ncols k).
  { unfold wf in Hwf. rewrite Forall_forall in Hwf. apply Hwf. now apply nth_In. }
  rewrite <- Hlen at 1.
  rewrite <- (map_nth_seq_id (nth j (rows k) []) NaN) at 2.
  apply map_ext. intro t.
  set (f := fun r : list xreal => nth t r NaN).
  rewrite (nth_indep (map f (rows k)) NaN (f [])) by (now rewrite length_map).
  apply (map_nth f).
Qed.

Lemma shape0_T (k : ndarray) : shape0 (np_T k) = ncols k.
Proof. unfold shape0, np_T. cbn [rows]. now rewrite length_map, length_seq. Qed.

Lemma np_matmul_T_rowwise {T : Type} (X : list T) (fa : T -> list xreal) (k : ndarray) :
  wf k ->
  np_matmul (mkarr (ncols k) (map fa X)) (np_T k)
  = Ok (mkarr (shape0 k) (map (fun x => kernel_s (rows k) (fa x)) X)).
Proof.
  intro Hwf. rewrite <- (shape0_T k) at 1. rewrite np_matmul_rowwise.
  cbn [ncols np_T]. do 2 f_equal. apply map_ext. intro x.
  unfold kernel_s, shape0. rewrite <- (map_nth_seq (xdot (fa x)) (rows k) []).
  apply map_ext_in. intros j Hj. apply in_seq in Hj.
  rewrite col_T; [reflexivity | assumption | unfold shape0; lia].
Qed.

(** ** A tile visit, row by row *)

Section TileRows.
Context {T : Type}.
Variable X : list T.
Variables (fq : T -> list xreal) (fm fl : T -> xreal) (fo : T -> list xreal).
Variables (k_block v_block : ndarray) (d : nat).
Hypothesis k_wf : wf k_block.
Hypothesis k_cols : ncols k_block = d.
Hypothesis k_rows : shape0 k_block <> 0%nat.
Hypothesis v_cols : ncols v_block = d.
Hypothesis v_rows : shape0 v_block = shape0 k_block.
Hypothesis o_cols : Forall (fun x => length (fo x) = d) X.

Let ks := rows k_block.
Let m_loc x := kernel_m ks (fq x).
Let l_loc x := kernel_l ks (fq x).

Lemma kernel_s_length (q : list xreal) : length (kernel_s ks q) = shape0 k_block.
Proof. unfold kernel_s, ks, shape0. apply length_map. Qed.

Lemma tile_step_rowwise :
  tile_step (mkarr d (map fq X)) k_block v_block
            (mkarr 1 (map (fun x => [fm x]) X))
            (mkarr 1 (map (fun x => [fl x]) X))
            (mkarr d (map fo X))
  = Ok {| m_i_new := mkarr 1 (map (fun x => [merge_m (fm x) (m_loc x)]) X);
          l_i_new := mkarr 1 (map (fun x => [merge_l (fm x) (fl x) (m_loc x) (l_loc x)]) X);
          o_i_new := mkarr d (map (fun x => merge_o v_block (fm x) (fl x) (fo x)
                                              (m_loc x) (l_loc x) (kernel_p ks (fq x))) X);
          exp_args :=
            [ mkarr (shape0 k_block) (map (fun x => kernel_a ks (fq x)) X);
              mkarr 1 (map (fun x => [xsub (fm x) (merge_m (fm x) (m_loc x))]) X);
              mkarr 1 (map (fun x => [xsub (m_loc x) (merge_m (fm x) (m_loc x))]) X);
              mkarr 1 (map (fun x => [xsub (m_loc x) (merge_m (fm x) (m_loc x))]) X);
              mkarr 1 (map (fun x => [xsub (fm x) (merge_m (fm x) (m_loc x))]) X) ] |}.
Proof.
  unfold tile_step.
  rewrite <- k_cols at 1. rewrite np_matmul_T_rowwise by exact k_wf. cbn [bind].
  rewrite np_max_rowwise by exact k_rows. cbn [bind].
  unfold np_sub, np_mul, np_add, np_div, np_maximum.
  rewrite np_binop_col_r
    by (apply Forall_forall; intros; apply kernel_s_length).
  cbn [bind].
  rewrite np_binop_cols. cbn [bind].
  rewrite np_binop_cols. cbn [bind].
  rewrite np_exp_cols, np_binop_cols. cbn [bind].
  rewrite np_binop_cols. cbn [bind].
  rewrite np_exp_rowwise, np_sum_rowwise, np_exp_cols, np_binop_cols. cbn [bind].
  rewrite np_binop_cols. cbn [bind].
  rewrite np_binop_col_l
    by (apply Forall_forall; intros; rewrite !length_map;
        apply kernel_s_length).
  cbn [bind].
  rewrite <- v_rows at 1. rewrite np_matmul_rowwise. cbn [bind].
  rewrite np_binop_col_l by exact o_cols. cbn [bind].
  rewrite v_cols.
  rewrite np_binop_same.
  2: { apply Forall_forall; intros. now rewrite length_map, length_seq. }
  2: { apply Forall_forall; intros x Hx. rewrite length_map.
       rewrite Forall_forall in o_cols. now apply o_cols. }
  cbn [bind].
  rewrite np_binop_col_r.
  2: { apply Forall_forall; intros x Hx. rewrite zip_with_length, !length_map, length_seq.
       rewrite Forall_forall in o_cols. rewrite (o_cols x Hx). apply Nat.min_id. }
  cbn [bind].
  unfold merge_o, merge_l, merge_m, m_loc, l_loc, kernel_m, kernel_l, kernel_p, kernel_a.
  rewrite v_cols. reflexivity.
Qed.
End TileRows.

(** ** Float operations on finite rows *)

Lemma fold_left_xadd_Fin (l : list R) (a : R) :
  fold_left xadd (map Fin l) (Fin a) = Fin (a + Rsum l).
Proof.
  revert a. induction l as [| b l IH]; intro a; cbn [map fold_left].
  - simpl. f_equal. lra.
  - cbn [xadd]. rewrite IH. simpl. f_equal. lra.
Qed.

Lemma row_sum_Fin (l : list R) : row_sum (map Fin l) = Fin (Rsum l).
Proof. unfold row_sum. rewrite fold_left_xadd_Fin. f_equal. lra. Qed.

Lemma xdot_Fin (u v : list R) : xdot (map Fin u) (map Fin v) = Fin (Rdot u v).
Proof.
  unfold xdot, Rdot. rewrite zip_with_map.
  replace (zip_with (fun a b => xmul (Fin a) (Fin b)) u v)
    with (map Fin (zip_with Rmult u v)).
  - rewrite fold_left_xadd_Fin. f_equal. lra.
  - revert v. induction u as [| a u IH]; intros [| b v]; simpl; auto.
    now rewrite IH.
Qed.

Lemma fold_left_xmax_Fin (l : list R) (a : R) :
  fold_left xmax (map Fin l) (Fin a) = Fin (Rmaxl a l).
Proof.
  unfold Rmaxl. revert a. induction l as [| b l IH]; intro a; cbn [map fold_left].
  - reflexivity.
  - rewrite xmax_Fin. apply IH.
Qed.

Lemma row_max_Fin (l : list R) : l <> [] -> row_max (map Fin l) = Fin (Rlist_max l).
Proof.
  destruct l as [| a l]; [contradiction | intros _].
  cbn [map row_max Rlist_max]. apply fold_left_xmax_Fin.
Qed.

(** ** Maxima, weights and normalizers of concatenated key lists *)

Lemma Rmaxl_Rmax (l : list R) (a y : R) : Rmaxl (Rmax a y) l = Rmax a (Rmaxl y l).
Proof.
  unfold Rmaxl. revert y. induction l as [| b l IH]; intro y; cbn [fold_left].
  - reflexivity.
  - rewrite <- IH. f_equal. symmetry. apply Rmax_assoc.
Qed.

Lemma Rlist_max_app (l1 l2 : list R) :
  l1 <> [] -> l2 <> [] ->
  Rlist_max (l1 ++ l2) = Rmax (Rlist_max l1) (Rlist_max l2).
Proof.
  destruct l1 as [| a l1]; [contradiction |].
  destruct l2 as [| b l2]; [contradiction |]. intros _ _.
  cbn [Rlist_max app]. rewrite Rmaxl_app. unfold Rmaxl at 1. cbn [fold_left].
  apply Rmaxl_Rmax.
Qed.

Lemma Rlist_max_ge (l : list R) (y : R) : In y l -> y <= Rlist_max l.
Proof.
  destruct l as [| a l]; [contradiction |]. cbn [Rlist_max].
  intros [<- | Hin]; [apply Rmaxl_ge_head | now apply Rmaxl_ge_in].
Qed.

Lemma scoresR_app (K1 K2 : list (list R)) (q : list R) :
  scoresR (K1 ++ K2) q = scoresR K1 q ++ scoresR K2 q.
Proof. unfold scoresR. apply map_app. Qed.

Lemma scoresR_nonempty (K : list (list R)) (q : list R) :
  K <> [] -> scoresR K q <> [].
Proof. destruct K; [contradiction | discriminate]. Qed.

Lemma weightsR_length (K : list (list R)) (q : list R) :
  length (weightsR K q) = length K.
Proof. unfold weightsR, scoresR. now rewrite !length_map. Qed.

Lemma colR_length (V : list (list R)) (j : nat) : length (colR V j) = length V.
Proof. unfold colR. apply length_map. Qed.

Lemma colR_app (V1 V2 : list (list R)) (j : nat) :
  colR (V1 ++ V2) j = colR V1 j ++ colR V2 j.
Proof. unfold colR. apply map_app. Qed.

Lemma Rdot_app (u1 u2 v1 v2 : list R) :
  length u1 = length v1 ->
  Rdot (u1 ++ u2) (v1 ++ v2) = Rdot u1 v1 + Rdot u2 v2.
Proof.
  intro H. unfold Rdot. rewrite zip_with_app by assumption. apply Rsum_app.
Qed.

Lemma Rdot_scal_l (c : R) (u v : list R) :
  Rdot (map (fun w => w * c) u) v = Rdot u v * c.
Proof.
  unfold Rdot. revert v. induction u as [| a u IH]; intros [| b v]; simpl; try lra.
  rewrite IH. lra.
Qed.

Lemma Rdot_scal_l' (c : R) (u v : list R) :
  Rdot (map (fun w => c * w) u) v = c * Rdot u v.
Proof.
  unfold Rdot. revert v. induction u as [| a u IH]; intros [| b v]; simpl; try lra.
  rewrite IH. lra.
Qed.

Section Merge.
Variables (Kp Kt : list (list R)) (q : list R).
Hypothesis Kt_nonempty : Kt <> [].

Let Mt := Rlist_max (scoresR Kt q).
Let M' := Rlist_max (scoresR (Kp ++ Kt) q).

Lemma merged_max : merge_m (run_m Kp q) (Fin Mt) = Fin M'.
Proof.
  unfold merge_m, run_m, M', Mt. destruct Kp as [| k0 Kp'].
  - reflexivity.
  - rewrite xmax_Fin. f_equal. rewrite scoresR_app.
    symmetry. apply Rlist_max_app; [discriminate | now apply scoresR_nonempty].
Qed.

Lemma merged_max_run : Fin M' = run_m (Kp ++ Kt) q.
Proof.
  unfold run_m, M'. destruct Kp; [| reflexivity].
  destruct Kt; [contradiction | reflexivity].
Qed.

Lemma Mt_le_M' : Mt <= M'.
Proof.
  unfold M', Mt. destruct Kp as [| k0 Kp']; [simpl; lra |].
  rewrite scoresR_app, Rlist_max_app; [apply Rmax_r | discriminate |].
  now apply scoresR_nonempty.
Qed.

Lemma Mp_le_M' : Kp <> [] -> Rlist_max (scoresR Kp q) <= M'.
Proof.
  intro Hp. unfold M'.
  rewrite scoresR_app, Rlist_max_app; [apply Rmax_l | |];
    now apply scoresR_nonempty.
Qed.

Lemma rescale_old_exp : xexp (xsub (run_m Kp q) (Fin M')) = Fin (rescale_old Kp q M').
Proof. unfold run_m, rescale_old. destruct Kp; reflexivity. Qed.

Lemma weightsR_app :
  weightsR (Kp ++ Kt) q
  = map (fun w => w * rescale_old Kp q M') (weightsR Kp q)
    ++ map (fun w => w * exp (Mt - M')) (weightsR Kt q).
Proof.
  unfold weightsR. fold M'. fold Mt. rewrite scoresR_app, map_app, !map_map.
  f_equal.
  - unfold rescale_old. destruct Kp as [| k0 Kp']; [reflexivity |].
    apply map_ext. intro s. now rewrite exp_shift.
  - apply map_ext. intro s. now rewrite exp_shift.
Qed.

Lemma normR_app :
  normR (Kp ++ Kt) q
  = normR Kp q * rescale_old Kp q M' + normR Kt q * exp (Mt - M').
Proof.
  unfold normR. rewrite weightsR_app, Rsum_app.
  now rewrite !(Rsum_scal _ (fun w => w)), !map_id.
Qed.

Lemma normR_pos : 0 < normR Kt q.
Proof.
  unfold normR, weightsR. apply Rsum_pos.
  - now apply scoresR_nonempty.
  - intro. apply exp_pos.
Qed.

Lemma merged_norm :
  merge_l (run_m Kp q) (Fin (normR Kp q)) (Fin Mt) (Fin (normR Kt q))
  = Fin (normR (Kp ++ Kt) q).
Proof.
  unfold merge_l. rewrite merged_max, rescale_old_exp.
  cbn [xsub xopp xadd xexp xmul]. now rewrite normR_app.
Qed.
End Merge.

(** ** The block score kernel on real tiles *)

Section KernelReal.
Variables (Kt : list (list R)) (q : list R).
Hypothesis Kt_nonempty : Kt <> [].

Let ks := map (map Fin) Kt.
Let Mt := Rlist_max (scoresR Kt q).

Lemma kernel_s_real : kernel_s ks (map Fin q) = map Fin (scoresR Kt q).
Proof.
  unfold kernel_s, ks, scoresR. rewrite !map_map.
  apply map_ext. intro kr. apply xdot_Fin.
Qed.

Lemma kernel_m_real : kernel_m ks (map Fin q) = Fin Mt.
Proof.
  unfold kernel_m. rewrite kernel_s_real. apply row_max_Fin.
  now apply scoresR_nonempty.
Qed.

Lemma kernel_a_real :
  kernel_a ks (map Fin q) = map Fin (map (fun s => s - Mt) (scoresR Kt q)).
Proof.
  unfold kernel_a. rewrite kernel_m_real, kernel_s_real, !map_map. reflexivity.
Qed.

Lemma kernel_p_real : kernel_p ks (map Fin q) = map Fin (weightsR Kt q).
Proof.
  unfold kernel_p. rewrite kernel_a_real. unfold weightsR. fold Mt.
  rewrite !map_map. reflexivity.
Qed.

Lemma kernel_l_real : kernel_l ks (map Fin q) = Fin (normR Kt q).
Proof. unfold kernel_l. rewrite kernel_p_real. apply row_sum_Fin. Qed.
End KernelReal.

(** ** The output accumulator on real tiles *)

Lemma col_real_matrix (d : nat) (V : list (list R)) (j : nat) :
  Forall (fun r => length r = d) V -> (j < d)%nat ->
  col (real_matrix d V) j = map Fin (colR V j).
Proof.
  intros HV Hj. unfold col, colR, real_matrix. cbn [rows]. rewrite !map_map.
  apply map_ext_in. intros r Hr. rewrite Forall_forall in HV.
  rewrite (nth_indep (map Fin r) NaN (Fin 0)) by (rewrite length_map, (HV r Hr); exact Hj).
  apply (map_nth Fin).
Qed.

Lemma merged_out_entry (A B Lp e c L' : R) :
  (Lp = 0 /\ e = 0) \/ Lp <> 0 ->
  (c * B + Lp * e * (A / Lp)) / L' = (A * e + B * c) / L'.
Proof.
  intros [[-> ->] | H]; f_equal.
  - unfold Rdiv. ring.
  - field. exact H.
Qed.

Section OutputReal.
Variables (Kp Kt Vp Vt : list (list R)) (q : list R) (d : nat).
Hypothesis Kt_nonempty : Kt <> [].
Hypothesis Vt_rows : length Vt = length Kt.
Hypothesis Vp_rows : length Vp = length Kp.
Hypothesis Vt_cols : Forall (fun r => length r = d) Vt.

Let Mt := Rlist_max (scoresR Kt q).
Let M' := Rlist_max (scoresR (Kp ++ Kt) q).

Lemma merged_out :
  merge_o (real_matrix d Vt) (run_m Kp q) (Fin (normR Kp q))
          (map Fin (outR Kp Vp d q)) (Fin Mt) (Fin (normR Kt q))
          (map Fin (weightsR Kt q))
  = map Fin (outR (Kp ++ Kt) (Vp ++ Vt) d q).
Proof.
  unfold merge_o, Mt. rewrite merged_norm, merged_max by assumption.
  rewrite rescale_old_exp. fold M'. fold Mt.
  cbn [xsub xopp xadd xexp xmul ncols real_matrix].
  unfold outR. rewrite !map_map.
  rewrite (map_ext_in _
             (fun j => Fin (exp (Mt + - M') * Rdot (weightsR Kt q) (colR Vt j)))).
  2: { intros j Hj. apply in_seq in Hj.
       rewrite col_real_matrix by (try assumption; lia).
       rewrite <- (map_map (fun w => exp (Mt + - M') * w) Fin).
       rewrite xdot_Fin. f_equal. apply Rdot_scal_l'. }
  rewrite zip_with_map_same, map_map.
  apply map_ext. intro j.
  assert (HL : normR (Kp ++ Kt) q <> 0).
  { pose proof (normR_pos Kt q Kt_nonempty) as Ht.
    rewrite normR_app by assumption. fold Mt. fold M'.
    assert (0 <= normR Kp q * rescale_old Kp q M').
    { apply Rmult_le_pos.
      - unfold normR, weightsR. apply Rsum_nonneg. intro. left. apply exp_pos.
      - unfold rescale_old. destruct Kp; [lra | left; apply exp_pos]. }
    pose proof (exp_pos (Mt - M')). nra. }
  cbn [xadd]. rewrite xdiv_Fin by exact HL. f_equal.
  rewrite weightsR_app by assumption. fold Mt. fold M'.
  rewrite colR_app, Rdot_app
    by (rewrite length_map, weightsR_length, colR_length; now symmetry).
  rewrite !Rdot_scal_l.
  replace (Mt + - M') with (Mt - M') by lra.
  apply merged_out_entry.
  destruct Kp as [| k0 Kp'].
  - left. split; reflexivity.
  - right. apply Rgt_not_eq. apply Rlt_gt.
    unfold normR, weightsR. apply Rsum_pos; [discriminate | intro; apply exp_pos].
Qed.
End OutputReal.

(** ** A tile visit on real tiles *)

Section TileReal.
Variables (Kp Kt Vp Vt Qb : list (list R)) (d : nat).
Hypothesis Kt_nonempty : Kt <> [].
Hypothesis Kt_cols : Forall (fun r => length r = d) Kt.
Hypothesis Vt_rows : length Vt = length Kt.
Hypothesis Vp_rows : length Vp = length Kp.
Hypothesis Vt_cols : Forall (fun r => length r = d) Vt.

Lemma real_matrix_wf (M : list (list R)) :
  Forall (fun r => length r = d) M -> wf (real_matrix d M).
Proof.
  intro H. unfold wf, real_matrix. cbn [rows ncols].
  apply Forall_map. eapply Forall_impl; [| exact H].
  intros r Hr. now rewrite length_map.
Qed.

Lemma tile_step_real :
  tile_step (real_matrix d Qb) (real_matrix d Kt) (real_matrix d Vt)
            (m_state Kp Qb) (l_state Kp Qb) (o_state Kp Vp d Qb)
  = Ok {| m_i_new := m_state (Kp ++ Kt) Qb;
          l_i_new := l_state (Kp ++ Kt) Qb;
          o_i_new := o_state (Kp ++ Kt) (Vp ++ Vt) d Qb;
          exp_args := tile_log Kp Kt Qb |}.
Proof.
  unfold real_matrix at 1, m_state at 1, l_state at 1, o_state at 1.
  rewrite (tile_step_rowwise Qb (map Fin) (run_m Kp) (fun q => Fin (normR Kp q))
             (fun q => map Fin (outR Kp Vp d q))
             (real_matrix d Kt) (real_matrix d Vt) d).
  - assert (Hlen : shape0 (real_matrix d Kt) = length Kt)
      by (unfold shape0, real_matrix; cbn [rows]; apply length_map).
    rewrite Hlen. cbn [rows real_matrix].
    f_equal. unfold m_state, l_state, o_state, tile_log.
    f_equal.
    + f_equal. apply map_ext. intro q.
      rewrite kernel_m_real, merged_max by assumption.
      now rewrite merged_max_run.
    + f_equal. apply map_ext. intro q.
      rewrite kernel_m_real, kernel_l_real by assumption.
      now rewrite merged_norm.
    + f_equal. apply map_ext. intro q.
      rewrite kernel_m_real, kernel_l_real, kernel_p_real by assumption.
      now apply merged_out.
    + assert (Ha2 : forall q,
                 xsub (run_m Kp q) (merge_m (run_m Kp q)
                       (kernel_m (map (map Fin) Kt) (map Fin q)))
                 = xsub (run_m Kp q) (run_m (Kp ++ Kt) q)).
      { intro q. rewrite kernel_m_real, merged_max by assumption.
        now rewrite merged_max_run. }
      assert (Ha3 : forall q,
                 xsub (kernel_m (map (map Fin) Kt) (map Fin q))
                      (merge_m (run_m Kp q) (kernel_m (map (map Fin) Kt) (map Fin q)))
                 = Fin (Rlist_max (scoresR Kt q) - Rlist_max (scoresR (Kp ++ Kt) q))).
      { intro q. rewrite kernel_m_real, merged_max by assumption. reflexivity. }
      repeat match goal with
             | |- _ :: _ = _ :: _ => f_equal
             | |- mkarr _ _ = mkarr _ _ => f_equal
             | |- map _ ?l = map _ ?l =>
                 apply map_ext; intro q;
                 rewrite ?Ha2, ?Ha3, ?kernel_a_real by assumption; reflexivity
             end.
  - now apply real_matrix_wf.
  - reflexivity.
  - unfold shape0, real_matrix. cbn [rows]. rewrite length_map.
    destruct Kt; [contradiction | discriminate].
  - reflexivity.
  - unfold shape0, real_matrix. cbn [rows]. now rewrite !length_map.
  - apply Forall_forall. intros q _. unfold outR.
    now rewrite !length_map, length_seq.
Qed.
End TileReal.

(** ** Python lists of tiles indexed by tile number *)

Lemma foldM_app {A S : Type} (f : S -> A -> result S) (l1 l2 : list A) (s : S) :
  foldM f (l1 ++ l2) s = bind (foldM f l1 s) (foldM f l2).
Proof.
  revert s. induction l1 as [| a l1 IH]; intro s; cbn [app foldM bind].
  - reflexivity.
  - destruct (f s a); cbn [bind]; [apply IH | reflexivity].
Qed.

Lemma py_index_map_seq {A : Type} (F : nat -> A) (n i : nat) :
  (i < n)%nat -> py_index (map F (seq 0 n)) i = Ok (F i).
Proof.
  intro Hi. unfold py_index.
  rewrite nth_error_map, nth_error_nth' with (d := 0%nat) by (now rewrite length_seq).
  now rewrite seq_nth.
Qed.

Lemma py_setitem_map_seq {A : Type} (F : nat -> A) (s n i : nat) (y : A) :
  (i < n)%nat ->
  py_setitem (map F (seq s n)) i y
  = Ok (map (fun t => if (t =? s + i)%nat then y else F t) (seq s n)).
Proof.
  revert s i. induction n as [| n IH]; intros s i Hi; [lia |].
  cbn [seq map]. destruct i as [| i]; cbn [py_setitem].
  - rewrite Nat.add_0_r, Nat.eqb_refl. do 2 f_equal.
    apply map_ext_in. intros t Ht. apply in_seq in Ht.
    destruct (Nat.eqb_spec t s); [lia | reflexivity].
  - rewrite IH by lia. cbn [bind].
    destruct (Nat.eqb_spec s (s + S i)); [lia |]. do 2 f_equal.
    apply map_ext. intro t. now rewrite Nat.add_succ_r.
Qed.

Lemma tiles_state_ext (Q : list (list R)) (d b n : nat)
  (Kof Vof Kof' Vof' : nat -> list (list R)) (log : list ndarray) :
  (forall t, (t < n)%nat -> Kof t = Kof' t) ->
  (forall t, (t < n)%nat -> Vof t = Vof' t) ->
  tiles_state Q d b n Kof Vof log = tiles_state Q d b n Kof' Vof' log.
Proof.
  intros HK HV. unfold tiles_state.
  f_equal; apply map_ext_in; intros t Ht; apply in_seq in Ht;
    rewrite ?(HK t), ?(HV t) by lia; reflexivity.
Qed.

Lemma chunk_cols {A : Type} (P : A -> Prop) (b t : nat) (l : list A) :
  Forall P l -> Forall P (chunk b t l).
Proof.
  intro H. unfold chunk.
  rewrite <- (firstn_skipn (t * b) l) in H. apply Forall_app in H.
  destruct H as [_ H].
  rewrite <- (firstn_skipn b (skipn (t * b) l)) in H. apply Forall_app in H.
  tauto.
Qed.

Lemma firstn_chunk {A : Type} (b t : nat) (l : list A) :
  firstn (t * b) l ++ chunk b t l = firstn (S t * b) l.
Proof.
  unfold chunk. replace (S t * b)%nat with (t * b + b)%nat by lia.
  generalize (t * b)%nat as a. intro a. revert l.
  induction a as [| a IH]; intro l; [reflexivity |].
  destruct l as [| x l]; cbn [Nat.add firstn skipn app].
  - now rewrite firstn_nil.
  - now rewrite IH.
Qed.

(** ** The two loops on real matrices *)

Section Loops.
Variables (Q : list (list R)) (d b_r n_q : nat).

Let q_blocks := map (fun t => real_matrix d (chunk b_r t Q)) (seq 0 n_q).

Section Column.
Variables (Kt Vt : list (list R)).
Hypothesis Kt_nonempty : Kt <> [].
Hypothesis Kt_cols : Forall (fun r => length r = d) Kt.
Hypothesis Vt_rows : length Vt = length Kt.
Hypothesis Vt_cols : Forall (fun r => length r = d) Vt.

Lemma visit_tile_real (Kof Vof : nat -> list (list R)) (log : list ndarray) (i : nat) :
  (i < n_q)%nat -> length (Vof i) = length (Kof i) ->
  visit_tile q_blocks (real_matrix d Kt) (real_matrix d Vt)
             (tiles_state Q d b_r n_q Kof Vof log) i
  = Ok (tiles_state Q d b_r n_q
          (fun t => if (t =? i)%nat then Kof i ++ Kt else Kof t)
          (fun t => if (t =? i)%nat then Vof i ++ Vt else Vof t)
          (log ++ tile_log (Kof i) Kt (chunk b_r i Q))).
Proof.
  intros Hi Hlen. unfold visit_tile, q_blocks, tiles_state.
  cbn [o_blocks l_blocks m_blocks exp_log].
  rewrite !py_index_map_seq by exact Hi. cbn [bind].
  rewrite tile_step_real by assumption. cbn [bind o_i_new m_i_new l_i_new exp_args].
  rewrite !py_setitem_map_seq by exact Hi. cbn [bind Nat.add].
  f_equal. f_equal; apply map_ext; intro t;
    destruct (Nat.eqb_spec t i) as [-> | Hne]; reflexivity.
Qed.

Lemma inner_loop_real (Kp Vp : list (list R)) (log : list ndarray) (i : nat) :
  (i <= n_q)%nat -> length Vp = length Kp ->
  foldM (visit_tile q_blocks (real_matrix d Kt) (real_matrix d Vt)) (seq 0 i)
        (tiles_state Q d b_r n_q (fun _ => Kp) (fun _ => Vp) log)
  = Ok (tiles_state Q d b_r n_q
          (fun t => if (t <? i)%nat then Kp ++ Kt else Kp)
          (fun t => if (t <? i)%nat then Vp ++ Vt else Vp)
          (log ++ column_log Q Kp Kt b_r i)).
Proof.
  intros Hi Hlen. induction i as [| i IH].
  - cbn [seq foldM]. unfold column_log. cbn [seq map concat].
    now rewrite app_nil_r.
  - rewrite seq_S, foldM_app, IH by lia. cbn [bind Nat.add foldM].
    rewrite visit_tile_real; try lia.
    2: { rewrite Nat.ltb_irrefl. exact Hlen. }
    cbn [bind]. rewrite Nat.ltb_irrefl. f_equal.
    unfold column_log. rewrite seq_S, map_app, concat_app. cbn [map concat Nat.add].
    rewrite app_nil_r, app_assoc.
    apply tiles_state_ext; intros t Ht;
      destruct (Nat.eqb_spec t i) as [Heq | Hne];
      destruct (Nat.ltb_spec t (S i)); destruct (Nat.ltb_spec t i);
      try lia; reflexivity.
Qed.
End Column.

Variables (K V : list (list R)) (b_c n_k : nat).
Hypothesis b_c_pos : (0 < b_c)%nat.
Hypothesis K_rows : (n_k * b_c <= length K)%nat.
Hypothesis V_rows : (n_k * b_c <= length V)%nat.
Hypothesis K_cols : Forall (fun r => length r = d) K.
Hypothesis V_cols : Forall (fun r => length r = d) V.

Let k_blocks := map (fun t => real_matrix d (chunk b_c t K)) (seq 0 n_k).
Let v_blocks := map (fun t => real_matrix d (chunk b_c t V)) (seq 0 n_k).

Lemma chunk_length {A : Type} (l : list A) (t : nat) :
  (n_k * b_c <= length l)%nat -> (t < n_k)%nat -> length (chunk b_c t l) = b_c.
Proof.
  intros Hl Ht. unfold chunk. rewrite length_firstn, length_skipn. nia.
Qed.

Lemma visit_column_real (log : list ndarray) (j : nat) :
  (j < n_k)%nat ->
  visit_column q_blocks k_blocks v_blocks
               (tiles_state Q d b_r n_q (fun _ => firstn (j * b_c) K)
                            (fun _ => firstn (j * b_c) V) log) j
  = Ok (tiles_state Q d b_r n_q (fun _ => firstn (S j * b_c) K)
                    (fun _ => firstn (S j * b_c) V)
                    (log ++ column_log Q (firstn (j * b_c) K) (chunk b_c j K) b_r n_q)).
Proof.
  intro Hj. unfold visit_column, k_blocks, v_blocks.
  rewrite !py_index_map_seq by exact Hj. cbn [bind].
  replace (length q_blocks) with n_q
    by (unfold q_blocks; now rewrite length_map, length_seq).
  rewrite inner_loop_real.
  - f_equal. apply tiles_state_ext; intros t Ht;
      destruct (Nat.ltb_spec t n_q); try lia; apply firstn_chunk.
  - intro H. apply (f_equal (@length _)) in H.
    rewrite chunk_length in H by assumption. cbn [length] in H. lia.
  - now apply chunk_cols.
  - now rewrite !chunk_length.
  - now apply chunk_cols.
  - lia.
  - rewrite !length_firstn. nia.
Qed.

Lemma outer_loop_real (j : nat) :
  (j <= n_k)%nat ->
  foldM (visit_column q_blocks k_blocks v_blocks) (seq 0 j)
        (tiles_state Q d b_r n_q (fun _ => []) (fun _ => []) [])
  = Ok (tiles_state Q d b_r n_q (fun _ => firstn (j * b_c) K)
                    (fun _ => firstn (j * b_c) V) (run_log Q K b_r n_q b_c j)).
Proof.
  intro Hj. induction j as [| j IH].
  - reflexivity.
  - rewrite seq_S, foldM_app, IH by lia. cbn [bind Nat.add foldM].
    rewrite visit_column_real by lia. cbn [bind]. f_equal. f_equal.
    unfold run_log. rewrite seq_S, map_app, concat_app. cbn [map concat Nat.add].
    now rewrite app_nil_r.
Qed.
End Loops.

(** ** Splitting into tiles and putting tiles together *)

Lemma tile_count (N : nat) (b : Z) :
  (0 < b)%Z -> (Z.of_nat N mod b = 0)%Z ->
  exists n : nat, N = (n * Z.to_nat b)%nat /\ (0 < Z.to_nat b)%nat.
Proof.
  intros Hb Hmod. exists (N / Z.to_nat b)%nat. split; [| lia].
  assert (Hnat : (N mod Z.to_nat b = 0)%nat).
  { apply Nat2Z.inj. rewrite Nat2Z.inj_mod, Z2Nat.id by lia. exact Hmod. }
  rewrite Nat.mul_comm. apply Nat.Div0.div_exact. exact Hnat.
Qed.

Lemma py_range_tiles (n b : nat) :
  (0 < b)%nat ->
  py_range (n * b) (Z.of_nat b) = Ok (map (fun t => (t * b)%nat) (seq 0 n)).
Proof.
  intro Hb. unfold py_range.
  destruct (Z.eqb_spec (Z.of_nat b) 0); [lia |].
  destruct (Z.ltb_spec (Z.of_nat b) 0); [lia |].
  rewrite Nat2Z.id. do 3 f_equal.
  replace (n * b + b - 1)%nat with (n * b + (b - 1))%nat by lia.
  rewrite Nat.div_add_l, Nat.div_small by lia. lia.
Qed.

Lemma split_blocks_tiles (a : ndarray) (n b : nat) :
  (0 < b)%nat ->
  split_blocks a (n * b) (Z.of_nat b)
  = Ok (map (fun t => mkarr (ncols a) (chunk b t (rows a))) (seq 0 n)).
Proof.
  intro Hb. unfold split_blocks. rewrite py_range_tiles by exact Hb. cbn [bind].
  rewrite map_map, Nat2Z.id. f_equal. apply map_ext. intro t.
  unfold slice_rows, chunk. do 2 f_equal. lia.
Qed.

Lemma split_blocks_real (d : nat) (M : list (list R)) (n b : nat) :
  (0 < b)%nat ->
  split_blocks (real_matrix d M) (n * b) (Z.of_nat b)
  = Ok (map (fun t => real_matrix d (chunk b t M)) (seq 0 n)).
Proof.
  intro Hb. rewrite split_blocks_tiles by exact Hb. f_equal.
  apply map_ext. intro t. unfold real_matrix, chunk. cbn [ncols rows].
  now rewrite skipn_map, firstn_map.
Qed.

Lemma skipn_repeat {A : Type} (x : A) (a n : nat) :
  skipn a (repeat x n) = repeat x (n - a).
Proof.
  revert n. induction a as [| a IH]; intro n.
  - now rewrite Nat.sub_0_r.
  - destruct n as [| n]; [reflexivity | apply IH].
Qed.

Lemma firstn_repeat {A : Type} (x : A) (a n : nat) :
  (a <= n)%nat -> firstn a (repeat x n) = repeat x a.
Proof.
  revert n. induction a as [| a IH]; intros n Hn; [reflexivity |].
  destruct n as [| n]; [lia |]. cbn [repeat firstn]. f_equal. apply IH. lia.
Qed.

Lemma chunk_repeat {A : Type} (x : A) (b t n : nat) :
  (t < n)%nat -> chunk b t (repeat x (n * b)) = repeat x b.
Proof.
  intro Ht. unfold chunk. rewrite skipn_repeat. apply firstn_repeat. nia.
Qed.

Lemma chunk_length_tiles {A : Type} (l : list A) (b t n : nat) :
  length l = (n * b)%nat -> (t < n)%nat -> length (chunk b t l) = b.
Proof.
  intros Hl Ht. unfold chunk. rewrite length_firstn, length_skipn. nia.
Qed.

Lemma concat_chunks {A : Type} (b n : nat) (l : list A) :
  concat (map (fun t => chunk b t l) (seq 0 n)) = firstn (n * b) l.
Proof.
  induction n as [| n IH]; [reflexivity |].
  rewrite seq_S, map_app, concat_app, IH. cbn [map concat Nat.add].
  rewrite app_nil_r. apply firstn_chunk.
Qed.

Lemma outR_nil (d : nat) (q : list R) : map Fin (outR [] [] d q) = repeat (Fin 0) d.
Proof.
  unfold outR. rewrite map_map.
  rewrite (map_ext _ (fun _ => Fin 0)).
  - now rewrite map_const, length_seq.
  - intro j. f_equal. unfold Rdiv. apply Rmult_0_l.
Qed.

Section InitialState.
Variables (Q : list (list R)) (d b n : nat).
Hypothesis b_pos : (0 < b)%nat.
Hypothesis Q_rows : length Q = (n * b)%nat.

Let q := real_matrix d Q.

Lemma shape0_real (M : list (list R)) : shape0 (real_matrix d M) = length M.
Proof. unfold shape0, real_matrix. cbn [rows]. apply length_map. Qed.

Lemma initial_o_blocks :
  split_blocks (np_zeros_like q) (shape0 q) (Z.of_nat b)
  = Ok (map (fun t => o_state [] [] d (chunk b t Q)) (seq 0 n)).
Proof.
  unfold q. rewrite shape0_real, Q_rows, split_blocks_tiles by exact b_pos.
  f_equal. apply map_ext_in. intros t Ht. apply in_seq in Ht.
  unfold np_zeros_like, np_zeros, np_full, o_state, shape1.
  rewrite shape0_real, Q_rows. cbn [ncols rows real_matrix].
  rewrite chunk_repeat by lia. f_equal.
  rewrite (map_ext _ (fun _ => repeat (Fin 0) d)) by (intro; apply outR_nil).
  rewrite map_const. f_equal. symmetry. eapply chunk_length_tiles; eauto. lia.
Qed.

Lemma initial_l_blocks :
  split_blocks (np_zeros (shape0 q) 1) (shape0 q) (Z.of_nat b)
  = Ok (map (fun t => l_state [] (chunk b t Q)) (seq 0 n)).
Proof.
  unfold q. rewrite shape0_real, Q_rows, split_blocks_tiles by exact b_pos.
  f_equal. apply map_ext_in. intros t Ht. apply in_seq in Ht.
  unfold np_zeros, np_full, l_state. cbn [ncols rows].
  rewrite chunk_repeat by lia. f_equal.
  change (fun q0 : list R => [Fin (normR [] q0)]) with (fun _ : list R => [Fin 0]).
  rewrite map_const. f_equal. symmetry. eapply chunk_length_tiles; eauto. lia.
Qed.

Lemma initial_m_blocks :
  split_blocks (np_full (shape0 q) 1 NInf) (shape0 q) (Z.of_nat b)
  = Ok (map (fun t => m_state [] (chunk b t Q)) (seq 0 n)).
Proof.
  unfold q. rewrite shape0_real, Q_rows, split_blocks_tiles by exact b_pos.
  f_equal. apply map_ext_in. intros t Ht. apply in_seq in Ht.
  unfold np_full, m_state. cbn [ncols rows].
  rewrite chunk_repeat by lia. f_equal.
  change (fun q0 : list R => [run_m [] q0]) with (fun _ : list R => [NInf]).
  rewrite map_const. f_equal. symmetry. eapply chunk_length_tiles; eauto. lia.
Qed.
End InitialState.

Lemma np_concatenate_tiles (Q : list (list R)) (d b n : nat) (f : list R -> list xreal) :
  n <> 0%nat -> length Q = (n * b)%nat ->
  np_concatenate (map (fun t => mkarr d (map f (chunk b t Q))) (seq 0 n))
  = Ok (mkarr d (map f Q)).
Proof.
  intros Hn HQ. destruct n as [| n]; [contradiction |].
  unfold np_concatenate.
  remember (map (fun t => mkarr d (map f (chunk b t Q))) (seq 0 (S n))) as blocks eqn:Hb.
  cbn [seq map] in Hb.
  destruct blocks as [| b0 rest]; [discriminate |].
  assert (Hb0 : ncols b0 = d) by (injection Hb as -> _; reflexivity).
  rewrite Hb0.
  assert (Hall : forallb (fun b1 => (ncols b1 =? d)%nat) (b0 :: rest) = true).
  { rewrite Hb. apply forallb_forall. intros a Ha.
    change (mkarr d (map f (chunk b 0 Q))
            :: map (fun t => mkarr d (map f (chunk b t Q))) (seq 1 n))
      with (map (fun t => mkarr d (map f (chunk b t Q))) (seq 0 (S n))) in Ha.
    apply in_map_iff in Ha. destruct Ha as [t [<- _]].
    cbn [ncols]. apply Nat.eqb_refl. }
  rewrite Hall, Hb. f_equal. f_equal.
  change (mkarr d (map f (chunk b 0 Q))
          :: map (fun t => mkarr d (map f (chunk b t Q))) (seq 1 n))
    with (map (fun t => mkarr d (map f (chunk b t Q))) (seq 0 (S n))).
  rewrite map_map. cbn [rows].
  rewrite <- (map_map (fun t => chunk b t Q) (map f)), <- concat_map.
  rewrite concat_chunks, <- HQ, firstn_all. reflexivity.
Qed.

(** ** Full-matrix attention on real matrices *)

Lemma standard_attention_rowwise {T : Type} (X : list T) (fq : T -> list xreal)
  (K V : ndarray) :
  wf K -> shape0 K <> 0%nat -> shape0 V = shape0 K ->
  standard_attention (mkarr (ncols K) (map fq X)) K V
  = Ok (mkarr (ncols V)
          (map (fun x =>
                  map (fun j =>
                         xdot (map (fun e => xdiv e (kernel_l (rows K) (fq x)))
                                   (kernel_p (rows K) (fq x)))
                              (col V j))
                      (seq 0 (ncols V))) X)).
Proof.
  intros Hwf Hne HV. unfold standard_attention.
  rewrite np_matmul_T_rowwise by exact Hwf. cbn [bind].
  rewrite np_max_rowwise by exact Hne. cbn [bind].
  unfold np_sub, np_div.
  rewrite np_binop_col_r
    by (apply Forall_forall; intros; unfold kernel_s, shape0; apply length_map).
  cbn [bind].
  rewrite np_exp_rowwise, np_sum_rowwise.
  rewrite np_binop_col_r
    by (apply Forall_forall; intros; unfold kernel_s, shape0; now rewrite !length_map).
  cbn [bind].
  rewrite <- HV. rewrite np_matmul_rowwise. reflexivity.
Qed.

Lemma standard_attention_real (Q K V : list (list R)) (d : nat) :
  K <> [] -> length V = length K ->
  Forall (fun r => length r = d) K -> Forall (fun r => length r = d) V ->
  standard_attention (real_matrix d Q) (real_matrix d K) (real_matrix d V)
  = Ok (real_matrix d (attentionR Q K V d)).
Proof.
  intros Hne Hlen HK HV.
  change (real_matrix d Q) with (mkarr (ncols (real_matrix d K)) (map (map Fin) Q)).
  rewrite standard_attention_rowwise.
  - f_equal. unfold real_matrix, attentionR. cbn [ncols rows]. f_equal.
    rewrite map_map. apply map_ext. intro q.
    unfold outR. rewrite map_map. apply map_ext_in. intros j Hj. apply in_seq in Hj.
    rewrite kernel_l_real, kernel_p_real by exact Hne.
    change (mkarr d (map (map Fin) V)) with (real_matrix d V).
    rewrite col_real_matrix by (try assumption; lia).
    assert (HL : normR K q <> 0).
    { pose proof (normR_pos K q Hne). lra. }
    rewrite map_map.
    rewrite (map_ext _ (fun w => Fin (w * / normR K q)))
      by (intro w; now rewrite xdiv_Fin).
    rewrite <- (map_map (fun w => w * / normR K q) Fin), xdot_Fin.
    f_equal. apply Rdot_scal_l.
  - now apply real_matrix_wf.
  - rewrite shape0_real. destruct K; [contradiction | discriminate].
  - now rewrite !shape0_real.
Qed.

Lemma standard_attention_no_keys (Q V : list (list R)) (d : nat) :
  standard_attention (real_matrix d Q) (real_matrix d []) (real_matrix d V)
  = Err ValueError.
Proof.
  unfold standard_attention, np_matmul. rewrite shape0_T.
  cbn [ncols real_matrix]. rewrite Nat.eqb_refl. reflexivity.
Qed.

(** ** The tiled routine on real matrices *)

Lemma check_preconditions_ok (q k v : ndarray) (b_r b_c : Z) :
  (b_r <> 0)%Z -> (b_c <> 0)%Z ->
  (Z.of_nat (shape0 q) mod b_r = 0)%Z ->
  (Z.of_nat (shape0 k) mod b_c = 0)%Z ->
  (Z.of_nat (shape0 v) mod b_c = 0)%Z ->
  shape1 q = shape1 k -> shape1 k = shape1 v ->
  check_preconditions q k v b_r b_c = Ok tt.
Proof.
  intros Hr Hc Hq Hk Hv Hqk Hkv. unfold check_preconditions, py_mod.
  destruct (Z.eqb_spec b_r 0); [contradiction |].
  destruct (Z.eqb_spec b_c 0); [contradiction |].
  cbn [bind]. rewrite Hq, Hk, Hv. cbn [Z.eqb py_assert bind].
  rewrite Hqk, Hkv, !Nat.eqb_refl. reflexivity.
Qed.

Section FlashReal.
Variables (Q K V : list (list R)) (d : nat) (b_r b_c : Z).
Hypothesis b_r_pos : (0 < b_r)%Z.
Hypothesis b_c_pos : (0 < b_c)%Z.
Hypothesis Q_tiles : (Z.of_nat (length Q) mod b_r = 0)%Z.
Hypothesis Q_cols_tiles : (Z.of_nat (length Q) mod b_c = 0)%Z.
Hypothesis K_rows : (length Q <= length K)%nat.
Hypothesis V_rows : (length Q <= length V)%nat.
Hypothesis K_cols : Forall (fun r => length r = d) K.
Hypothesis V_cols : Forall (fun r => length r = d) V.

Lemma tile_work_real :
  tile_work (real_matrix d Q) (real_matrix d K) (real_matrix d V) b_r b_c
  = Ok (tiles_state Q d (Z.to_nat b_r) (length Q / Z.to_nat b_r)
          (fun _ => firstn (length Q) K) (fun _ => firstn (length Q) V)
          (run_log Q K (Z.to_nat b_r) (length Q / Z.to_nat b_r)
                   (Z.to_nat b_c) (length Q / Z.to_nat b_c))).
Proof.
  destruct (tile_count (length Q) b_r b_r_pos Q_tiles) as [nq [Hnq Hbr]].
  destruct (tile_count (length Q) b_c b_c_pos Q_cols_tiles) as [nk [Hnk Hbc]].
  remember (Z.to_nat b_r) as br eqn:Ebr.
  remember (Z.to_nat b_c) as bc eqn:Ebc.
  assert (Eq : (length Q / br = nq)%nat) by (rewrite Hnq; apply Nat.div_mul; lia).
  assert (Ek : (length Q / bc = nk)%nat) by (rewrite Hnk; apply Nat.div_mul; lia).
  rewrite Eq, Ek.
  unfold tile_work. cbv zeta.
  replace b_r with (Z.of_nat br) by lia.
  replace b_c with (Z.of_nat bc) by lia.
  rewrite (initial_o_blocks Q d br nq), (initial_l_blocks Q d br nq),
    (initial_m_blocks Q d br nq) by (assumption || exact Hnq).
  rewrite shape0_real.
  pose proof (split_blocks_real d Q nq br Hbr) as Sq. rewrite <- Hnq in Sq.
  pose proof (split_blocks_real d K nk bc Hbc) as Sk. rewrite <- Hnk in Sk.
  pose proof (split_blocks_real d V nk bc Hbc) as Sv. rewrite <- Hnk in Sv.
  rewrite Sq, Sk, Sv.
  cbn [bind]. rewrite length_map, length_seq.
  change (mkstate _ _ _ [])
    with (tiles_state Q d br nq (fun _ => []) (fun _ => []) []).
  rewrite (outer_loop_real Q d br nq K V bc nk); try assumption; try lia.
  now rewrite <- Hnk.
Qed.

Hypothesis K_tiles : (Z.of_nat (length K) mod b_c = 0)%Z.
Hypothesis V_tiles : (Z.of_nat (length V) mod b_c = 0)%Z.

Lemma flash_attention_run_real :
  flash_attention_run (real_matrix d Q) (real_matrix d K) (real_matrix d V) b_r b_c
  = Ok (tiles_state Q d (Z.to_nat b_r) (length Q / Z.to_nat b_r)
          (fun _ => firstn (length Q) K) (fun _ => firstn (length Q) V)
          (run_log Q K (Z.to_nat b_r) (length Q / Z.to_nat b_r)
                   (Z.to_nat b_c) (length Q / Z.to_nat b_c))).
Proof.
  unfold flash_attention_run.
  rewrite check_preconditions_ok; rewrite ?shape0_real; try assumption;
    try lia; try reflexivity.
  cbn [bind]. apply tile_work_real.
Qed.

Lemma flash_attention_real :
  Q <> [] ->
  flash_attention (real_matrix d Q) (real_matrix d K) (real_matrix d V) b_r b_c
  = Ok (real_matrix d (attentionR Q (firstn (length Q) K) (firstn (length Q) V) d)).
Proof.
  intro HQ. unfold flash_attention. rewrite flash_attention_run_real. cbn [bind].
  destruct (tile_count (length Q) b_r b_r_pos Q_tiles) as [nq [Hnq Hbr]].
  remember (Z.to_nat b_r) as br eqn:Ebr.
  assert (Eq : (length Q / br = nq)%nat) by (rewrite Hnq; apply Nat.div_mul; lia).
  rewrite Eq. unfold tiles_state. cbn [o_blocks]. unfold o_state.
  rewrite (np_concatenate_tiles Q d br nq
             (fun q => map Fin (outR (firstn (length Q) K) (firstn (length Q) V) d q))).
  - unfold real_matrix, attentionR. now rewrite map_map.
  - intros ->. destruct Q; [contradiction | discriminate].
  - exact Hnq.
Qed.

Lemma flash_attention_no_rows :
  Q = [] ->
  flash_attention (real_matrix d Q) (real_matrix d K) (real_matrix d V) b_r b_c
  = Err ValueError.
Proof.
  intro HQ. unfold flash_attention. rewrite flash_attention_run_real. cbn [bind].
  rewrite HQ. cbn [length]. rewrite Nat.Div0.div_0_l. reflexivity.
Qed.
End FlashReal.

(** ** Equivalence with full-matrix attention and tile-size invariance *)

Lemma attentionR_shape (N d : nat) (Q K V : list (list R)) :
  length Q = N -> has_shape N d (attentionR Q K V d).
Proof.
  intro HQ. unfold has_shape, attentionR. split.
  - now rewrite length_map.
  - apply Forall_map, Forall_forall. intros q _. unfold outR.
    now rewrite length_map, length_seq.
Qed.

(** Both routines on square-shaped inputs: the common result when there is
    at least one row, the common failure when there is none. *)
Lemma flash_and_standard (N d : nat) (Q K V : list (list R)) (b_r b_c : Z) :
  has_shape N d Q -> has_shape N d K -> has_shape N d V ->
  (0 < b_r)%Z -> (0 < b_c)%Z ->
  (Z.of_nat N mod b_r = 0)%Z -> (Z.of_nat N mod b_c = 0)%Z ->
  let expected :=
    if (N =? 0)%nat then Err ValueError else Ok (real_matrix d (attentionR Q K V d)) in
  flash_attention (real_matrix d Q) (real_matrix d K) (real_matrix d V) b_r b_c = expected
  /\ standard_attention (real_matrix d Q) (real_matrix d K) (real_matrix d V) = expected.
Proof.
  intros [HQ HQc] [HK HKc] [HV HVc] Hbr Hbc Hmr Hmc expected. subst expected.
  destruct (Nat.eqb_spec N 0) as [HN | HN].
  - assert (EQ : Q = []) by (apply length_zero_iff_nil; lia).
    assert (EK : K = []) by (apply length_zero_iff_nil; lia).
    split.
    + apply flash_attention_no_rows; rewrite ?HQ, ?HK, ?HV; try assumption; try lia.
    + rewrite EK. apply standard_attention_no_keys.
  - split.
    + rewrite flash_attention_real; rewrite ?HQ, ?HK, ?HV; try assumption; try lia.
      * rewrite <- HK at 1. rewrite <- HV at 1. now rewrite !firstn_all.
      * intros ->. cbn [length] in HQ. lia.
    + apply standard_attention_real; try assumption; try lia.
      intros ->. cbn [length] in HK. lia.
Qed.

(** C1: for real matrices Q, K, V of shape N x d and positive tile sizes
    that divide N, the tiled routine and the full-matrix reference give the
    same outcome; when N is positive that outcome is an N x d matrix, the
    softmax-weighted sum of the value rows (when N is zero both raise
    ValueError). *)
Theorem flash_attention_matches_standard
  (N d : nat) (Q K V : list (list R)) (b_r b_c : Z) :
  has_shape N d Q -> has_shape N d K -> has_shape N d V ->
  (0 < b_r)%Z -> (0 < b_c)%Z ->
  (Z.of_nat N mod b_r = 0)%Z -> (Z.of_nat N mod b_c = 0)%Z ->
  flash_attention (real_matrix d Q) (real_matrix d K) (real_matrix d V) b_r b_c
  = standard_attention (real_matrix d Q) (real_matrix d K) (real_matrix d V)
  /\ ((0 < N)%nat ->
      standard_attention (real_matrix d Q) (real_matrix d K) (real_matrix d V)
      = Ok (real_matrix d (attentionR Q K V d))
      /\ has_shape N d (attentionR Q K V d)).
Proof.
  intros HQ HK HV Hbr Hbc Hmr Hmc.
  destruct (flash_and_standard N d Q K V b_r b_c HQ HK HV Hbr Hbc Hmr Hmc) as [Hf Hs].
  split.
  - now rewrite Hf, Hs.
  - intro HN. rewrite Hs. destruct (Nat.eqb_spec N 0); [lia |].
    split; [reflexivity | apply attentionR_shape, HQ].
Qed.

Lemma flash_attention_matches_standard_witness :
  flash_attention (real_matrix 1 [[0]; [0]]) (real_matrix 1 [[0]; [0]])
                  (real_matrix 1 [[1]; [2]]) 1 2
  = standard_attention (real_matrix 1 [[0]; [0]]) (real_matrix 1 [[0]; [0]])
                       (real_matrix 1 [[1]; [2]])
  /\ ((0 < 2)%nat ->
      standard_attention (real_matrix 1 [[0]; [0]]) (real_matrix 1 [[0]; [0]])
                         (real_matrix 1 [[1]; [2]])
      = Ok (real_matrix 1 (attentionR [[0]; [0]] [[0]; [0]] [[1]; [2]] 1))
      /\ has_shape 2 1 (attentionR [[0]; [0]] [[0]; [0]] [[1]; [2]] 1)).
Proof.
  apply (flash_attention_matches_standard 2 1 [[0]; [0]] [[0]; [0]] [[1]; [2]] 1 2);
    try (split; [reflexivity | repeat constructor]); try lia; reflexivity.
Defined.

(** C7: for fixed real matrices Q, K, V of shape N x d, any two pairs of
    positive tile sizes that divide N give the same outcome of the tiled
    routine; in particular every such pair agrees with the single tile
    b_r = b_c = N. *)
Theorem flash_attention_tile_size_invariant
  (N d : nat) (Q K V : list (list R)) (b_r b_c b_r' b_c' : Z) :
  has_shape N d Q -> has_shape N d K -> has_shape N d V ->
  (0 < b_r)%Z -> (0 < b_c)%Z ->
  (Z.of_nat N mod b_r = 0)%Z -> (Z.of_nat N mod b_c = 0)%Z ->
  (0 < b_r')%Z -> (0 < b_c')%Z ->
  (Z.of_nat N mod b_r' = 0)%Z -> (Z.of_nat N mod b_c' = 0)%Z ->
  flash_attention (real_matrix d Q) (real_matrix d K) (real_matrix d V) b_r b_c
  = flash_attention (real_matrix d Q) (real_matrix d K) (real_matrix d V) b_r' b_c'
  /\ ((0 < N)%nat ->
      flash_attention (real_matrix d Q) (real_matrix d K) (real_matrix d V) b_r b_c
      = flash_attention (real_matrix d Q) (real_matrix d K) (real_matrix d V)
                        (Z.of_nat N) (Z.of_nat N)
      /\ exists O : list (list R),
           has_shape N d O
           /\ flash_attention (real_matrix d Q) (real_matrix d K) (real_matrix d V)
                              b_r b_c = Ok (real_matrix d O)).
Proof.
  intros HQ HK HV Hbr Hbc Hmr Hmc Hbr' Hbc' Hmr' Hmc'.
  destruct (flash_and_standard N d Q K V b_r b_c HQ HK HV Hbr Hbc Hmr Hmc) as [Hf _].
  destruct (flash_and_standard N d Q K V b_r' b_c' HQ HK HV Hbr' Hbc' Hmr' Hmc')
    as [Hf' _].
  split.
  - now rewrite Hf, Hf'.
  - intro HN.
    assert (HNN : (Z.of_nat N mod Z.of_nat N = 0)%Z) by (apply Z.mod_same; lia).
    destruct (flash_and_standard N d Q K V (Z.of_nat N) (Z.of_nat N) HQ HK HV)
      as [Hf1 _]; try lia.
    split.
    + now rewrite Hf, Hf1.
    + exists (attentionR Q K V d). split; [apply attentionR_shape, HQ |].
      rewrite Hf. destruct (Nat.eqb_spec N 0); [lia | reflexivity].
Qed.

Lemma flash_attention_tile_size_invariant_witness :
  flash_attention (real_matrix 1 [[0]; [0]]) (real_matrix 1 [[0]; [0]])
                  (real_matrix 1 [[1]; [2]]) 1 1
  = flash_attention (real_matrix 1 [[0]; [0]]) (real_matrix 1 [[0]; [0]])
                    (real_matrix 1 [[1]; [2]]) 2 1
  /\ ((0 < 2)%nat ->
      flash_attention (real_matrix 1 [[0]; [0]]) (real_matrix 1 [[0]; [0]])
                      (real_matrix 1 [[1]; [2]]) 1 1
      = flash_attention (real_matrix 1 [[0]; [0]]) (real_matrix 1 [[0]; [0]])
                        (real_matrix 1 [[1]; [2]]) (Z.of_nat 2) (Z.of_nat 2)
      /\ exists O : list (list R),
           has_shape 2 1 O
           /\ flash_attention (real_matrix 1 [[0]; [0]]) (real_matrix 1 [[0]; [0]])
                              (real_matrix 1 [[1]; [2]]) 1 1 = Ok (real_matrix 1 O)).
Proof.
  apply (flash_attention_tile_size_invariant 2 1 [[0]; [0]] [[0]; [0]] [[1]; [2]]
           1 1 2 1);
    try (split; [reflexivity | repeat constructor]); try lia; reflexivity.
Defined.

(** ** The assertions of the tiled routine *)

(** Which assertion stops the routine, in the order they are written. *)
Lemma check_preconditions_cases (q k v : ndarray) (b_r b_c : Z) :
  let nq := Z.of_nat (shape0 q) in
  let nk := Z.of_nat (shape0 k) in
  let nv := Z.of_nat (shape0 v) in
  match check_preconditions q k v b_r b_c with
  | Ok _ =>
      b_r <> 0%Z /\ b_c <> 0%Z
      /\ (nq mod b_r = 0)%Z /\ (nk mod b_c = 0)%Z /\ (nv mod b_c = 0)%Z
      /\ shape1 q = shape1 k /\ shape1 k = shape1 v
  | Err e =>
      (b_r = 0%Z /\ e = ZeroDivisionError)
      \/ (b_r <> 0%Z /\ (nq mod b_r <> 0)%Z /\ e = AssertionError msg_q)
      \/ (b_r <> 0%Z /\ (nq mod b_r = 0)%Z /\ b_c = 0%Z /\ e = ZeroDivisionError)
      \/ (b_r <> 0%Z /\ (nq mod b_r = 0)%Z /\ b_c <> 0%Z /\ (nk mod b_c <> 0)%Z
          /\ e = AssertionError msg_k)
      \/ (b_r <> 0%Z /\ (nq mod b_r = 0)%Z /\ b_c <> 0%Z /\ (nk mod b_c = 0)%Z
          /\ (nv mod b_c <> 0)%Z /\ e = AssertionError msg_v)
      \/ (b_r <> 0%Z /\ b_c <> 0%Z
          /\ (nq mod b_r = 0)%Z /\ (nk mod b_c = 0)%Z /\ (nv mod b_c = 0)%Z
          /\ ~ (shape1 q = shape1 k /\ shape1 k = shape1 v)
          /\ e = AssertionError msg_cols)
  end.
Proof.
  intros nq nk nv. unfold check_preconditions, py_mod. fold nq nk nv.
  destruct (Z.eqb_spec b_r 0) as [Hr | Hr]; cbn [bind]; [tauto |].
  destruct (Z.eqb_spec (nq mod b_r) 0) as [Hq | Hq]; cbn [py_assert bind]; [| tauto].
  destruct (Z.eqb_spec b_c 0) as [Hc | Hc]; cbn [bind]; [tauto |].
  destruct (Z.eqb_spec (nk mod b_c) 0) as [Hk | Hk]; cbn [py_assert bind]; [| tauto].
  destruct (Z.eqb_spec (nv mod b_c) 0) as [Hv | Hv]; cbn [py_assert bind];
    [| do 4 right; left; tauto].
  destruct (Nat.eqb_spec (shape1 q) (shape1 k)) as [Hqk | Hqk];
    destruct (Nat.eqb_spec (shape1 k) (shape1 v)) as [Hkv | Hkv];
    cbn [andb py_assert]; try tauto; do 5 right; tauto.
Qed.

Lemma flash_attention_stops_at_check (q k v : ndarray) (b_r b_c : Z) (e : exn) :
  check_preconditions q k v b_r b_c = Err e ->
  flash_attention_run q k v b_r b_c = Err e
  /\ flash_attention q k v b_r b_c = Err e.
Proof.
  intro H. unfold flash_attention, flash_attention_run. now rewrite H.
Qed.

(** C6: when the row count of Q is not a multiple of b_r, or the row count
    of K or of V is not a multiple of b_c, the routine stops in its
    assertions, before any tile is built, and returns no output: one of the
    three divisibility assertions fails, or, for a tile size of zero, the
    remainder it takes raises ZeroDivisionError. *)
Theorem indivisible_rows_fail (q k v : ndarray) (b_r b_c : Z) :
  ~ (b_r | Z.of_nat (shape0 q))%Z
  \/ ~ (b_c | Z.of_nat (shape0 k))%Z
  \/ ~ (b_c | Z.of_nat (shape0 v))%Z ->
  exists e : exn,
    check_preconditions q k v b_r b_c = Err e
    /\ flash_attention_run q k v b_r b_c = Err e
    /\ flash_attention q k v b_r b_c = Err e
    /\ (e = AssertionError msg_q \/ e = AssertionError msg_k
        \/ e = AssertionError msg_v
        \/ (e = ZeroDivisionError /\ (b_r = 0 \/ b_c = 0)%Z)).
Proof.
  intro Hdiv.
  pose proof (check_preconditions_cases q k v b_r b_c) as Hc. cbv zeta in Hc.
  destruct (check_preconditions q k v b_r b_c) as [u | e] eqn:Hcheck.
  - exfalso. destruct Hc as (Hr & Hcz & Hq & Hk & Hv & _).
    apply Z.mod_divide in Hq, Hk, Hv; try assumption. tauto.
  - exists e. destruct (flash_attention_stops_at_check q k v b_r b_c e Hcheck) as [H1 H2].
    repeat split; try assumption.
    destruct Hc as [H | [H | [H | [H | [H | H]]]]].
    + right; right; right. tauto.
    + tauto.
    + right; right; right. tauto.
    + tauto.
    + tauto.
    + exfalso. destruct H as (Hr & Hcz & Hq & Hk & Hv & _).
      apply Z.mod_divide in Hq, Hk, Hv; try assumption. tauto.
Qed.

Lemma indivisible_rows_fail_witness :
  exists e : exn,
    check_preconditions (real_matrix 1 [[1]; [2]; [3]; [4]; [5]])
                        (real_matrix 1 [[1]; [2]; [3]; [4]; [5]])
                        (real_matrix 1 [[1]; [2]; [3]; [4]; [5]]) 2 1 = Err e
    /\ flash_attention_run (real_matrix 1 [[1]; [2]; [3]; [4]; [5]])
                           (real_matrix 1 [[1]; [2]; [3]; [4]; [5]])
                           (real_matrix 1 [[1]; [2]; [3]; [4]; [5]]) 2 1 = Err e
    /\ flash_attention (real_matrix 1 [[1]; [2]; [3]; [4]; [5]])
                       (real_matrix 1 [[1]; [2]; [3]; [4]; [5]])
                       (real_matrix 1 [[1]; [2]; [3]; [4]; [5]]) 2 1 = Err e
    /\ (e = AssertionError msg_q \/ e = AssertionError msg_k
        \/ e = AssertionError msg_v
        \/ (e = ZeroDivisionError /\ (2 = 0 \/ 1 = 0)%Z)).
Proof.
  apply (indivisible_rows_fail (real_matrix 1 [[1]; [2]; [3]; [4]; [5]])
           (real_matrix 1 [[1]; [2]; [3]; [4]; [5]])
           (real_matrix 1 [[1]; [2]; [3]; [4]; [5]]) 2 1).
  left. intros [z Hz]. cbn in Hz. lia.
Defined.

(** C2, as the code has it: when the column counts of Q, K and V are not
    all equal the routine stops in its assertions, before any tile is
    built, and returns no output; the exception is the column-count
    assertion whenever the three divisibility assertions pass.  The row
    counts of K and V are never compared with each other. *)
Theorem column_mismatch_fails (q k v : ndarray) (b_r b_c : Z) :
  ~ (shape1 q = shape1 k /\ shape1 k = shape1 v) ->
  exists e : exn,
    check_preconditions q k v b_r b_c = Err e
    /\ flash_attention_run q k v b_r b_c = Err e
    /\ flash_attention q k v b_r b_c = Err e
    /\ (b_r <> 0%Z -> b_c <> 0%Z ->
        (Z.of_nat (shape0 q) mod b_r = 0)%Z ->
        (Z.of_nat (shape0 k) mod b_c = 0)%Z ->
        (Z.of_nat (shape0 v) mod b_c = 0)%Z ->
        e = AssertionError msg_cols).
Proof.
  intro Hcols.
  pose proof (check_preconditions_cases q k v b_r b_c) as Hc. cbv zeta in Hc.
  destruct (check_preconditions q k v b_r b_c) as [u | e] eqn:Hcheck.
  - exfalso. tauto.
  - exists e. destruct (flash_attention_stops_at_check q k v b_r b_c e Hcheck) as [H1 H2].
    repeat split; try assumption.
    intros Hr Hcz Hq Hk Hv.
    destruct Hc as [H | [H | [H | [H | [H | H]]]]]; tauto.
Qed.

Lemma column_mismatch_fails_witness :
  exists e : exn,
    check_preconditions (real_matrix 4 [[1; 2; 3; 4]]) (real_matrix 3 [[1; 2; 3]])
                        (real_matrix 4 [[1; 2; 3; 4]]) 1 1 = Err e
    /\ flash_attention_run (real_matrix 4 [[1; 2; 3; 4]]) (real_matrix 3 [[1; 2; 3]])
                           (real_matrix 4 [[1; 2; 3; 4]]) 1 1 = Err e
    /\ flash_attention (real_matrix 4 [[1; 2; 3; 4]]) (real_matrix 3 [[1; 2; 3]])
                       (real_matrix 4 [[1; 2; 3; 4]]) 1 1 = Err e
    /\ (1%Z <> 0%Z -> 1%Z <> 0%Z ->
        (Z.of_nat (shape0 (real_matrix 4 [[1; 2; 3; 4]%R])) mod 1 = 0)%Z ->
        (Z.of_nat (shape0 (real_matrix 3 [[1; 2; 3]%R])) mod 1 = 0)%Z ->
        (Z.of_nat (shape0 (real_matrix 4 [[1; 2; 3; 4]%R])) mod 1 = 0)%Z ->
        e = AssertionError msg_cols).
Proof.
  apply (column_mismatch_fails (real_matrix 4 [[1; 2; 3; 4]]) (real_matrix 3 [[1; 2; 3]])
           (real_matrix 4 [[1; 2; 3; 4]]) 1 1).
  cbn. intros [H _]. discriminate.
Defined.

(** C2, as the spec states it, fails: with two query rows, four key rows
    and two value rows every assertion passes and an output is returned. *)
Lemma kv_row_mismatch_counterexample :
  shape0 (real_matrix 1 [[0]; [0]; [5]; [7]]) <> shape0 (real_matrix 1 [[1]; [2]])
  /\ check_preconditions (real_matrix 1 [[0]; [0]]) (real_matrix 1 [[0]; [0]; [5]; [7]])
                         (real_matrix 1 [[1]; [2]]) 2 2 = Ok tt
  /\ flash_attention (real_matrix 1 [[0]; [0]]) (real_matrix 1 [[0]; [0]; [5]; [7]])
                     (real_matrix 1 [[1]; [2]]) 2 2
     = Ok (real_matrix 1 (attentionR [[0]; [0]] [[0]; [0]] [[1]; [2]] 1)).
Proof.
  split; [cbn; discriminate |]. split; [reflexivity |].
  apply (flash_attention_real [[0]; [0]] [[0]; [0]; [5]; [7]] [[1]; [2]] 1 2 2);
    try reflexivity; try (cbn [length]; lia); try (repeat constructor); discriminate.
Qed.

(** ** Key and value rows beyond the query rows *)

Lemma chunk_firstn {A : Type} (b t n : nat) (l : list A) :
  (t < n)%nat -> chunk b t (firstn (n * b) l) = chunk b t l.
Proof.
  intro Ht. unfold chunk. rewrite skipn_firstn_comm, firstn_firstn.
  f_equal. nia.
Qed.

Lemma slice_rows_real (d n : nat) (M : list (list R)) :
  slice_rows (real_matrix d M) 0 n = real_matrix d (firstn n M).
Proof.
  unfold slice_rows, real_matrix. cbn [ncols rows skipn].
  now rewrite Nat.sub_0_r, firstn_map.
Qed.

Lemma split_blocks_truncated (d N : nat) (M : list (list R)) (b : Z) :
  (0 < b)%Z -> (Z.of_nat N mod b = 0)%Z ->
  split_blocks (real_matrix d M) N b
  = split_blocks (slice_rows (real_matrix d M) 0 N) N b.
Proof.
  intros Hb Hmod. destruct (tile_count N b Hb Hmod) as [n [Hn Hpos]].
  rewrite slice_rows_real.
  replace b with (Z.of_nat (Z.to_nat b)) by lia.
  rewrite Hn, !split_blocks_real by exact Hpos.
  f_equal. apply map_ext_in. intros t Ht. apply in_seq in Ht.
  rewrite chunk_firstn by lia. reflexivity.
Qed.

(** C10, as the code has it: the tiles of K and V are cut from their first
    N rows, N being the row count of Q.  When Q has at least one row, K
    and V have at least N rows, all three have d columns, the tile sizes
    are positive, b_r divides N, and b_c divides N and also the row counts
    of K and of V (the assertions require it), the routine returns an
    N x d matrix, the same as on K and V cut down to their first N rows. *)
Theorem extra_key_value_rows_ignored
  (N d : nat) (Q K V : list (list R)) (b_r b_c : Z) :
  has_shape N d Q -> (0 < N)%nat ->
  (N <= length K)%nat -> (N <= length V)%nat ->
  Forall (fun r => length r = d) K -> Forall (fun r => length r = d) V ->
  (0 < b_r)%Z -> (0 < b_c)%Z ->
  (Z.of_nat N mod b_r = 0)%Z -> (Z.of_nat N mod b_c = 0)%Z ->
  (Z.of_nat (length K) mod b_c = 0)%Z -> (Z.of_nat (length V) mod b_c = 0)%Z ->
  split_blocks (real_matrix d K) N b_c
  = split_blocks (slice_rows (real_matrix d K) 0 N) N b_c
  /\ split_blocks (real_matrix d V) N b_c
     = split_blocks (slice_rows (real_matrix d V) 0 N) N b_c
  /\ flash_attention (real_matrix d Q) (real_matrix d K) (real_matrix d V) b_r b_c
     = flash_attention (real_matrix d Q) (slice_rows (real_matrix d K) 0 N)
                       (slice_rows (real_matrix d V) 0 N) b_r b_c
  /\ exists O : list (list R),
       has_shape N d O
       /\ flash_attention (real_matrix d Q) (real_matrix d K) (real_matrix d V) b_r b_c
          = Ok (real_matrix d O).
Proof.
  intros [HQ HQc] HN HK HV HKc HVc Hbr Hbc Hmr Hmc HmK HmV.
  assert (HQne : Q <> []) by (intros ->; cbn [length] in HQ; lia).
  assert (Hfull :
            flash_attention (real_matrix d Q) (real_matrix d K) (real_matrix d V) b_r b_c
            = Ok (real_matrix d (attentionR Q (firstn N K) (firstn N V) d))).
  { rewrite flash_attention_real; rewrite ?HQ; try assumption. reflexivity. }
  assert (Hcut :
            flash_attention (real_matrix d Q) (real_matrix d (firstn N K))
                            (real_matrix d (firstn N V)) b_r b_c
            = Ok (real_matrix d (attentionR Q (firstn N K) (firstn N V) d))).
  { assert (LK : length (firstn N K) = N) by (rewrite length_firstn; lia).
    assert (LV : length (firstn N V) = N) by (rewrite length_firstn; lia).
    rewrite flash_attention_real; rewrite ?HQ, ?LK, ?LV; try assumption; try lia.
    - now rewrite !firstn_firstn, Nat.min_id.
    - rewrite <- (firstn_skipn N K) in HKc. apply Forall_app in HKc. tauto.
    - rewrite <- (firstn_skipn N V) in HVc. apply Forall_app in HVc. tauto. }
  repeat split.
  - now apply split_blocks_truncated.
  - now apply split_blocks_truncated.
  - rewrite !slice_rows_real. now rewrite Hfull, Hcut.
  - exists (attentionR Q (firstn N K) (firstn N V) d).
    split; [now apply attentionR_shape | exact Hfull].
Qed.

Lemma extra_key_value_rows_ignored_witness :
  split_blocks (real_matrix 1 [[0]; [0]; [5]; [7]]) 2 2
  = split_blocks (slice_rows (real_matrix 1 [[0]; [0]; [5]; [7]]) 0 2) 2 2
  /\ split_blocks (real_matrix 1 [[1]; [2]; [3]; [4]]) 2 2
     = split_blocks (slice_rows (real_matrix 1 [[1]; [2]; [3]; [4]]) 0 2) 2 2
  /\ flash_attention (real_matrix 1 [[0]; [0]]) (real_matrix 1 [[0]; [0]; [5]; [7]])
                     (real_matrix 1 [[1]; [2]; [3]; [4]]) 1 2
     = flash_attention (real_matrix 1 [[0]; [0]])
                       (slice_rows (real_matrix 1 [[0]; [0]; [5]; [7]]) 0 2)
                       (slice_rows (real_matrix 1 [[1]; [2]; [3]; [4]]) 0 2) 1 2
  /\ exists O : list (list R),
       has_shape 2 1 O
       /\ flash_attention (real_matrix 1 [[0]; [0]]) (real_matrix 1 [[0]; [0]; [5]; [7]])
                          (real_matrix 1 [[1]; [2]; [3]; [4]]) 1 2
          = Ok (real_matrix 1 O).
Proof.
  apply (extra_key_value_rows_ignored 2 1 [[0]; [0]] [[0]; [0]; [5]; [7]]
           [[1]; [2]; [3]; [4]] 1 2);
    try (split; [reflexivity | repeat constructor]);
    try (cbn [length]; lia); try reflexivity; repeat constructor.
Defined.

(** C10, as stated, fails: N = 2 is a multiple of b_c = 2 and the column
    counts match, but K has three rows, which the second assertion
    rejects. *)
Lemma extra_rows_counterexample :
  (shape0 (real_matrix 1 [[0]; [0]]%R) < shape0 (real_matrix 1 [[0]; [0]; [5]]%R))%nat
  /\ (shape0 (real_matrix 1 [[0]; [0]]%R) < shape0 (real_matrix 1 [[1]; [2]; [3]]%R))%nat
  /\ (Z.of_nat (shape0 (real_matrix 1 [[0]; [0]]%R)) mod 2 = 0)%Z
  /\ flash_attention (real_matrix 1 [[0]; [0]]) (real_matrix 1 [[0]; [0]; [5]])
                     (real_matrix 1 [[1]; [2]; [3]]) 2 2
     = Err (AssertionError msg_k).
Proof.
  repeat split; try (cbn; lia).
Qed.

(** ** The arguments of the exponential *)

Lemma tile_log_nonpos (Kp Kt Qb : list (list R)) :
  Kt <> [] -> Forall nonpos_array (tile_log Kp Kt Qb).
Proof.
  intro Hne.
  assert (H1 : nonpos_array
                 (mkarr (length Kt)
                    (map (fun q => map Fin (map (fun s => s - Rlist_max (scoresR Kt q))
                                               (scoresR Kt q))) Qb))).
  { unfold nonpos_array. cbn [rows]. apply Forall_map, Forall_forall. intros q _.
    rewrite map_map. apply Forall_map, Forall_forall. intros s Hs. cbn [nonpos].
    apply Rlist_max_ge in Hs. lra. }
  assert (H2 : nonpos_array
                 (mkarr 1 (map (fun q => [xsub (run_m Kp q) (run_m (Kp ++ Kt) q)]) Qb))).
  { unfold nonpos_array. cbn [rows]. apply Forall_map, Forall_forall. intros q _.
    constructor; [| constructor].
    rewrite <- (merged_max_run Kp Kt q Hne). unfold run_m.
    destruct Kp as [| k0 Kp'] eqn:EK; [exact I |]. cbn [xsub xopp xadd nonpos].
    rewrite <- EK.
    assert (HK : Kp <> []) by (rewrite EK; discriminate).
    pose proof (Mp_le_M' Kp Kt q Hne HK). lra. }
  assert (H3 : nonpos_array
                 (mkarr 1 (map (fun q => [Fin (Rlist_max (scoresR Kt q)
                                               - Rlist_max (scoresR (Kp ++ Kt) q))]) Qb))).
  { unfold nonpos_array. cbn [rows]. apply Forall_map, Forall_forall. intros q _.
    constructor; [| constructor]. cbn [nonpos].
    pose proof (Mt_le_M' Kp Kt q Hne). lra. }
  unfold tile_log. repeat constructor; assumption.
Qed.

Lemma column_log_nonpos (Q Kp Kt : list (list R)) (b n : nat) :
  Kt <> [] -> Forall nonpos_array (column_log Q Kp Kt b n).
Proof.
  intro Hne. unfold column_log. apply Forall_concat, Forall_map, Forall_forall.
  intros t _. now apply tile_log_nonpos.
Qed.

Lemma column_log_length (Q Kp Kt : list (list R)) (b n : nat) :
  length (column_log Q Kp Kt b n) = (5 * n)%nat.
Proof.
  unfold column_log. induction n as [| n IH]; [reflexivity |].
  rewrite seq_S, map_app, concat_app, length_app, IH. cbn [map concat Nat.add].
  rewrite app_nil_r. unfold tile_log. cbn [length]. lia.
Qed.

Lemma run_log_length (Q K : list (list R)) (b_r n_q b_c j : nat) :
  length (run_log Q K b_r n_q b_c j) = (5 * n_q * j)%nat.
Proof.
  unfold run_log. induction j as [| j IH]; [cbn; lia |].
  rewrite seq_S, map_app, concat_app, length_app, IH. cbn [map concat Nat.add].
  rewrite app_nil_r, column_log_length. lia.
Qed.

Lemma run_log_nonpos (Q K : list (list R)) (b_r n_q b_c j : nat) :
  (0 < b_c)%nat -> (j * b_c <= length K)%nat ->
  Forall nonpos_array (run_log Q K b_r n_q b_c j).
Proof.
  intros Hb HK. unfold run_log. apply Forall_concat, Forall_map, Forall_forall.
  intros t Ht. apply in_seq in Ht. apply column_log_nonpos.
  intro H. apply (f_equal (@length _)) in H.
  unfold chunk in H. rewrite length_firstn, length_skipn in H. cbn [length] in H. nia.
Qed.

(** The state of a row tile that has merged nothing is the one the
    routine creates. *)
Lemma m_state_initial (Qb : list (list R)) :
  m_state [] Qb = np_full (length Qb) 1 NInf.
Proof.
  unfold m_state, np_full. f_equal.
  change (fun q : list R => [run_m [] q]) with (fun _ : list R => [NInf]).
  apply map_const.
Qed.

Lemma l_state_initial (Qb : list (list R)) :
  l_state [] Qb = np_zeros (length Qb) 1.
Proof.
  unfold l_state, np_zeros, np_full. f_equal.
  change (fun q : list R => [Fin (normR [] q)]) with (fun _ : list R => [Fin 0]).
  apply map_const.
Qed.

Lemma o_state_initial (d : nat) (Qb : list (list R)) :
  o_state [] [] d Qb = np_zeros (length Qb) d.
Proof.
  unfold o_state, np_zeros, np_full. f_equal.
  rewrite (map_ext _ (fun _ => repeat (Fin 0) d)) by (intro; apply outR_nil).
  apply map_const.
Qed.

Lemma first_merge_rescale (Kt Qb : list (list R)) :
  Kt <> [] ->
  np_sub (np_full (length Qb) 1 NInf) (m_state Kt Qb)
  = Ok (np_full (length Qb) 1 NInf)
  /\ np_exp (np_full (length Qb) 1 NInf) = np_zeros (length Qb) 1
  /\ np_mul (np_zeros (length Qb) 1) (np_exp (np_full (length Qb) 1 NInf))
     = Ok (np_zeros (length Qb) 1).
Proof.
  intro Hne.
  rewrite <- m_state_initial, <- l_state_initial.
  unfold m_state, l_state, np_sub, np_mul.
  rewrite np_exp_cols, !np_binop_cols.
  repeat split.
  - do 2 f_equal. apply map_ext. intro q. unfold run_m.
    destruct Kt; [contradiction | reflexivity].
  - do 2 f_equal. apply map_ext. intro q. cbn [run_m xexp normR weightsR scoresR map Rsum
                                                fold_right xmul].
    do 2 f_equal. apply Rmult_0_l.
Qed.

(** C5: in a run on real matrices every argument handed to the
    exponential is at most zero or minus infinity (five arrays are logged
    per tile visit); and the first merge of a row tile, from the state
    (m, l, o) = (-inf, 0, 0), scales the old normalizer by exp(-inf) = 0,
    a zero mass, and leaves finite real values in m, l and o. *)
Theorem exp_arguments_nonpositive
  (N d : nat) (Q K V : list (list R)) (b_r b_c : Z) :
  has_shape N d Q -> has_shape N d K -> has_shape N d V ->
  (0 < b_r)%Z -> (0 < b_c)%Z ->
  (Z.of_nat N mod b_r = 0)%Z -> (Z.of_nat N mod b_c = 0)%Z ->
  (exists st : blocks_state,
      flash_attention_run (real_matrix d Q) (real_matrix d K) (real_matrix d V) b_r b_c
      = Ok st
      /\ length (exp_log st)
         = (5 * (N / Z.to_nat b_r) * (N / Z.to_nat b_c))%nat
      /\ Forall nonpos_array (exp_log st))
  /\ (forall Qb Kt Vt : list (list R),
         Kt <> [] -> length Vt = length Kt ->
         Forall (fun r => length r = d) Kt -> Forall (fun r => length r = d) Vt ->
         let b := length Qb in
         exists t : tile_result,
           tile_step (real_matrix d Qb) (real_matrix d Kt) (real_matrix d Vt)
                     (np_full b 1 NInf) (np_zeros b 1) (np_zeros b d) = Ok t
           /\ np_sub (np_full b 1 NInf) (m_i_new t) = Ok (np_full b 1 NInf)
           /\ np_exp (np_full b 1 NInf) = np_zeros b 1
           /\ np_mul (np_zeros b 1) (np_exp (np_full b 1 NInf)) = Ok (np_zeros b 1)
           /\ m_i_new t = real_matrix 1 (map (fun q => [Rlist_max (scoresR Kt q)]) Qb)
           /\ l_i_new t = real_matrix 1 (map (fun q => [normR Kt q]) Qb)
           /\ o_i_new t = real_matrix d (attentionR Qb Kt Vt d)).
Proof.
  intros [HQ HQc] [HK HKc] [HV HVc] Hbr Hbc Hmr Hmc. split.
  - eexists. split; [| split].
    + apply flash_attention_run_real; rewrite ?HQ, ?HK, ?HV; try assumption; lia.
    + cbn [exp_log tiles_state]. rewrite HQ. apply run_log_length.
    + cbn [exp_log tiles_state]. rewrite HQ.
      destruct (tile_count N b_c Hbc Hmc) as [nk [Hnk Hpos]].
      apply run_log_nonpos; [exact Hpos |].
      rewrite HK, Hnk at 1. rewrite Nat.div_mul by lia. lia.
  - intros Qb Kt Vt Hne Hlen HKt HVt b. subst b.
    eexists. split; [| split; [| split; [| split; [| split; [| split]]]]].
    + rewrite <- m_state_initial, <- l_state_initial, <- (o_state_initial d).
      now apply tile_step_real.
    + cbn [m_i_new]. rewrite app_nil_l. now apply first_merge_rescale.
    + now apply (first_merge_rescale Kt Qb).
    + now apply (first_merge_rescale Kt Qb).
    + cbn [m_i_new]. rewrite app_nil_l. unfold m_state, real_matrix.
      f_equal. rewrite map_map. apply map_ext. intro q. unfold run_m.
      destruct Kt; [contradiction | reflexivity].
    + cbn [l_i_new]. rewrite app_nil_l. unfold l_state, real_matrix.
      f_equal. now rewrite map_map.
    + cbn [o_i_new]. rewrite !app_nil_l. unfold o_state, real_matrix, attentionR.
      f_equal. now rewrite map_map.
Qed.

Lemma exp_arguments_nonpositive_witness :
  (exists st : blocks_state,
      flash_attention_run (real_matrix 1 [[0]; [0]]) (real_matrix 1 [[0]; [0]])
                          (real_matrix 1 [[1]; [2]]) 1 2 = Ok st
      /\ length (exp_log st) = (5 * (2 / Z.to_nat 1) * (2 / Z.to_nat 2))%nat
      /\ Forall nonpos_array (exp_log st))
  /\ (forall Qb Kt Vt : list (list R),
         Kt <> [] -> length Vt = length Kt ->
         Forall (fun r => length r = 1%nat) Kt -> Forall (fun r => length r = 1%nat) Vt ->
         let b := length Qb in
         exists t : tile_result,
           tile_step (real_matrix 1 Qb) (real_matrix 1 Kt) (real_matrix 1 Vt)
                     (np_full b 1 NInf) (np_zeros b 1) (np_zeros b 1) = Ok t
           /\ np_sub (np_full b 1 NInf) (m_i_new t) = Ok (np_full b 1 NInf)
           /\ np_exp (np_full b 1 NInf) = np_zeros b 1
           /\ np_mul (np_zeros b 1) (np_exp (np_full b 1 NInf)) = Ok (np_zeros b 1)
           /\ m_i_new t = real_matrix 1 (map (fun q => [Rlist_max (scoresR Kt q)]) Qb)
           /\ l_i_new t = real_matrix 1 (map (fun q => [normR Kt q]) Qb)
           /\ o_i_new t = real_matrix 1 (attentionR Qb Kt Vt 1)).
Proof.
  apply (exp_arguments_nonpositive 2 1 [[0]; [0]] [[0]; [0]] [[1]; [2]] 1 2);
    try (split; [reflexivity | repeat constructor]); try lia; reflexivity.
Defined.

(** ** The tile visit against the components of the design *)

(** The merged max and normalizer of a tile visit are those of the
    online-softmax accumulator applied to the output of the block score
    kernel. *)
Lemma tile_step_merge (q_block k_block v_block m_block l_block o_block : ndarray)
  (t : tile_result) :
  tile_step q_block k_block v_block m_block l_block o_block = Ok t ->
  exists S m_local P l_local : ndarray,
    block_score_kernel q_block k_block = Ok (S, m_local, P, l_local)
    /\ online_softmax_accumulator m_block l_block m_local l_local
       = Ok (m_i_new t, l_i_new t).
Proof.
  unfold tile_step, block_score_kernel, online_softmax_accumulator. intro H.
  destruct (np_matmul q_block (np_T k_block)) as [S |] eqn:ES;
    cbn [bind] in H |- *; [| discriminate H].
  destruct (np_max_axis1 S) as [m_local |] eqn:Em;
    cbn [bind] in H |- *; [| discriminate H].
  destruct (np_sub S m_local) as [shifted |] eqn:Ea;
    cbn [bind] in H |- *; [| discriminate H].
  cbv zeta in H |- *.
  exists S, m_local, (np_exp shifted), (np_sum_axis1 (np_exp shifted)).
  split; [reflexivity |].
  repeat match type of H with
         | bind ?x _ = Ok _ =>
             destruct x eqn:?; cbn [bind] in H |- *; [| discriminate H]
         end.
  injection H as <-. reflexivity.
Qed.

Lemma zip_with_swap {A B C : Type} (f : A -> B -> C) (l1 : list A) (l2 : list B) :
  zip_with f l1 l2 = zip_with (fun b a => f a b) l2 l1.
Proof.
  revert l2. induction l1 as [| a l1 IH]; intros [| b l2]; simpl; auto.
  now rewrite IH.
Qed.

Lemma zip_with_ext_in {A B C : Type} (f g : A -> B -> C) (l1 : list A) (l2 : list B) :
  (forall a b, In a l1 -> In b l2 -> f a b = g a b) ->
  zip_with f l1 l2 = zip_with g l1 l2.
Proof.
  revert l2. induction l1 as [| a l1 IH]; intros [| b l2] H; simpl; auto.
  rewrite H by (now left). f_equal. apply IH. intros a' b' Ha Hb.
  apply H; now right.
Qed.

Section ComponentsRowwise.
Context {T : Type}.
Variable X : list T.

Lemma block_score_kernel_rowwise (fq : T -> list xreal) (k_block : ndarray) :
  wf k_block -> shape0 k_block <> 0%nat ->
  block_score_kernel (mkarr (ncols k_block) (map fq X)) k_block
  = Ok (mkarr (shape0 k_block) (map (fun x => kernel_s (rows k_block) (fq x)) X),
        mkarr 1 (map (fun x => [kernel_m (rows k_block) (fq x)]) X),
        mkarr (shape0 k_block) (map (fun x => kernel_p (rows k_block) (fq x)) X),
        mkarr 1 (map (fun x => [kernel_l (rows k_block) (fq x)]) X)).
Proof.
  intros Hwf Hne. unfold block_score_kernel.
  rewrite np_matmul_T_rowwise by exact Hwf. cbn [bind].
  rewrite np_max_rowwise by exact Hne. cbn [bind].
  unfold np_sub.
  rewrite np_binop_col_r
    by (apply Forall_forall; intros; unfold kernel_s, shape0; apply length_map).
  cbn [bind]. rewrite np_exp_rowwise, np_sum_rowwise. reflexivity.
Qed.

Lemma output_accumulator_rowwise (fo fP : T -> list xreal)
  (fm fl gm gl gloc : T -> xreal) (V_tile : ndarray) (d : nat) :
  Forall (fun x => length (fo x) = d) X -> ncols V_tile = d ->
  output_accumulator (mkarr d (map fo X))
                     (mkarr 1 (map (fun x => [fm x]) X))
                     (mkarr 1 (map (fun x => [fl x]) X))
                     (mkarr 1 (map (fun x => [gm x]) X))
                     (mkarr 1 (map (fun x => [gl x]) X))
                     (mkarr (shape0 V_tile) (map fP X))
                     (mkarr 1 (map (fun x => [gloc x]) X))
                     V_tile
  = Ok (mkarr d
          (map (fun x =>
                  map (fun e => xdiv e (gl x))
                      (zip_with xadd
                         (map (fun e => xmul e (xexp (xsub (fm x) (gm x))))
                              (map (fun e => xmul e (fl x)) (fo x)))
                         (map (fun e => xmul e (xexp (xsub (gloc x) (gm x))))
                              (map (fun j => xdot (fP x) (col V_tile j)) (seq 0 d)))))
               X)).
Proof.
  intros Ho HV. unfold output_accumulator, np_mul, np_sub, np_add, np_div.
  rewrite np_binop_col_r by exact Ho. cbn [bind].
  rewrite np_binop_cols. cbn [bind].
  rewrite np_exp_cols, np_binop_col_r.
  2: { apply Forall_forall. intros x Hx. rewrite length_map.
       rewrite Forall_forall in Ho. now apply Ho. }
  cbn [bind].
  rewrite np_matmul_rowwise. cbn [bind].
  rewrite np_binop_cols. cbn [bind]. rewrite HV.
  rewrite np_exp_cols, np_binop_col_r
    by (apply Forall_forall; intros; now rewrite length_map, length_seq).
  cbn [bind].
  rewrite np_binop_same.
  2: { apply Forall_forall. intros x Hx. rewrite !length_map.
       rewrite Forall_forall in Ho. now apply Ho. }
  2: { apply Forall_forall. intros x Hx. now rewrite !length_map, length_seq. }
  cbn [bind].
  rewrite np_binop_col_r.
  2: { apply Forall_forall. intros x Hx.
       rewrite zip_with_length, !length_map, length_seq.
       rewrite Forall_forall in Ho. rewrite (Ho x Hx). apply Nat.min_id. }
  reflexivity.
Qed.
End ComponentsRowwise.

Lemma merge_finite (m : xreal) (Mt : R) :
  m = NInf \/ (exists r : R, m = Fin r) ->
  exists M' e : R,
    merge_m m (Fin Mt) = Fin M' /\ xexp (xsub m (Fin M')) = Fin e.
Proof.
  intros [-> | [r ->]].
  - exists Mt, 0. split; reflexivity.
  - exists (Rmax r Mt), (exp (r - Rmax r Mt)). split; [apply xmax_Fin | reflexivity].
Qed.

(** On a finite row the output update of the code is the formula of the
    output accumulator. *)
Lemma output_row_agrees (d : nat) (Vt : list (list R)) (m l_loc : xreal)
  (lr Mt : R) (orow w : list R) :
  Forall (fun r => length r = d) Vt ->
  m = NInf \/ (exists r : R, m = Fin r) ->
  merge_o (real_matrix d Vt) m (Fin lr) (map Fin orow) (Fin Mt) l_loc (map Fin w)
  = map (fun e => xdiv e (merge_l m (Fin lr) (Fin Mt) l_loc))
        (zip_with xadd
           (map (fun e => xmul e (xexp (xsub m (merge_m m (Fin Mt)))))
                (map (fun e => xmul e (Fin lr)) (map Fin orow)))
           (map (fun e => xmul e (xexp (xsub (Fin Mt) (merge_m m (Fin Mt)))))
                (map (fun j => xdot (map Fin w) (col (real_matrix d Vt) j)) (seq 0 d)))).
Proof.
  intros HV Hm. unfold merge_o. f_equal.
  destruct (merge_finite m Mt Hm) as (M' & e & HM & He).
  rewrite HM, He. cbn [ncols real_matrix xsub xopp xadd xexp xmul].
  rewrite !map_map, !zip_with_map.
  rewrite (zip_with_swap _ orow (seq 0 d)).
  apply zip_with_ext_in. intros j o Hj _. apply in_seq in Hj.
  change (mkarr d (map (map Fin) Vt)) with (real_matrix d Vt).
  rewrite col_real_matrix by (try assumption; lia).
  rewrite <- (map_map (fun x => exp (Mt + - M') * x) Fin), !xdot_Fin.
  cbn [xmul xadd]. f_equal. rewrite Rdot_scal_l'. ring.
Qed.

Section TileOnFiniteState.
Variables (d : nat) (X : list tile_row) (Kt Vt : list (list R)).
Hypothesis Kt_nonempty : Kt <> [].
Hypothesis Vt_rows : length Vt = length Kt.
Hypothesis Kt_cols : Forall (fun r => length r = d) Kt.
Hypothesis Vt_cols : Forall (fun r => length r = d) Vt.
Hypothesis X_ok : Forall (tile_row_ok d) X.

Let ks := map (map Fin) Kt.
Let fq (x : tile_row) := map Fin (q_row x).
Let fl (x : tile_row) := Fin (l_row x).
Let fo (x : tile_row) := map Fin (o_row x).
Let mloc (x : tile_row) := kernel_m ks (fq x).
Let lloc (x : tile_row) := kernel_l ks (fq x).

Lemma q_tile_rows : q_tile d X = mkarr d (map fq X).
Proof. unfold q_tile, real_matrix, fq. now rewrite map_map. Qed.

Lemma l_tile_rows : l_tile X = mkarr 1 (map (fun x => [fl x]) X).
Proof. unfold l_tile, real_matrix, fl. now rewrite map_map. Qed.

Lemma o_tile_rows : o_tile d X = mkarr d (map fo X).
Proof. unfold o_tile, real_matrix, fo. now rewrite map_map. Qed.

Lemma fo_cols : Forall (fun x => length (fo x) = d) X.
Proof.
  eapply Forall_impl; [| exact X_ok]. intros x [Hx _]. unfold fo.
  now rewrite length_map.
Qed.

Lemma shape0_Kt : shape0 (real_matrix d Kt) <> 0%nat.
Proof. rewrite shape0_real. destruct Kt; [contradiction | discriminate]. Qed.

Lemma tile_step_finite :
  tile_step (q_tile d X) (real_matrix d Kt) (real_matrix d Vt)
            (m_tile X) (l_tile X) (o_tile d X)
  = Ok {| m_i_new := mkarr 1 (map (fun x => [merge_m (m_row x) (mloc x)]) X);
          l_i_new := mkarr 1 (map (fun x => [merge_l (m_row x) (fl x) (mloc x) (lloc x)]) X);
          o_i_new := mkarr d (map (fun x => merge_o (real_matrix d Vt) (m_row x) (fl x)
                                              (fo x) (mloc x) (lloc x)
                                              (kernel_p ks (fq x))) X);
          exp_args :=
            [ mkarr (length Kt) (map (fun x => kernel_a ks (fq x)) X);
              mkarr 1 (map (fun x => [xsub (m_row x) (merge_m (m_row x) (mloc x))]) X);
              mkarr 1 (map (fun x => [xsub (mloc x) (merge_m (m_row x) (mloc x))]) X);
              mkarr 1 (map (fun x => [xsub (mloc x) (merge_m (m_row x) (mloc x))]) X);
              mkarr 1 (map (fun x => [xsub (m_row x) (merge_m (m_row x) (mloc x))]) X) ] |}.
Proof.
  rewrite q_tile_rows, l_tile_rows, o_tile_rows. unfold m_tile.
  rewrite (tile_step_rowwise X fq m_row fl fo (real_matrix d Kt) (real_matrix d Vt) d).
  - now rewrite shape0_real.
  - now apply real_matrix_wf.
  - reflexivity.
  - exact shape0_Kt.
  - reflexivity.
  - now rewrite !shape0_real.
  - exact fo_cols.
Qed.

Lemma block_score_kernel_finite :
  block_score_kernel (q_tile d X) (real_matrix d Kt)
  = Ok (real_matrix (length Kt) (map (fun x => scoresR Kt (q_row x)) X),
        real_matrix 1 (map (fun x => [Rlist_max (scoresR Kt (q_row x))]) X),
        real_matrix (length Kt) (map (fun x => weightsR Kt (q_row x)) X),
        real_matrix 1 (map (fun x => [normR Kt (q_row x)]) X)).
Proof.
  rewrite q_tile_rows.
  change d with (ncols (real_matrix d Kt)) at 1.
  rewrite block_score_kernel_rowwise
    by (try apply real_matrix_wf; try assumption; exact shape0_Kt).
  rewrite shape0_real. unfold real_matrix. cbn [rows]. rewrite !map_map.
  repeat match goal with
         | |- Ok _ = Ok _ => f_equal
         | |- (_, _) = (_, _) => f_equal
         | |- mkarr _ _ = mkarr _ _ => f_equal
         | |- map _ ?l = map _ ?l =>
             apply map_ext; intro x; unfold fq; cbn [map];
             rewrite ?kernel_s_real, ?kernel_m_real, ?kernel_p_real, ?kernel_l_real
               by assumption;
             reflexivity
         end.
Qed.

Lemma output_accumulator_finite (t : tile_result) :
  tile_step (q_tile d X) (real_matrix d Kt) (real_matrix d Vt)
            (m_tile X) (l_tile X) (o_tile d X) = Ok t ->
  output_accumulator (o_tile d X) (m_tile X) (l_tile X) (m_i_new t) (l_i_new t)
                     (real_matrix (length Kt) (map (fun x => weightsR Kt (q_row x)) X))
                     (real_matrix 1 (map (fun x => [Rlist_max (scoresR Kt (q_row x))]) X))
                     (real_matrix d Vt)
  = Ok (o_i_new t).
Proof.
  rewrite tile_step_finite. intro H. injection H as <-. cbn [m_i_new l_i_new o_i_new].
  rewrite l_tile_rows, o_tile_rows. unfold m_tile.
  unfold real_matrix at 1 2. rewrite !map_map. cbn [map].
  rewrite <- Vt_rows, <- (shape0_real d Vt).
  rewrite (output_accumulator_rowwise X fo (fun x => map Fin (weightsR Kt (q_row x)))
             m_row fl (fun x => merge_m (m_row x) (mloc x))
             (fun x => merge_l (m_row x) (fl x) (mloc x) (lloc x))
             (fun x => Fin (Rlist_max (scoresR Kt (q_row x))))
             (real_matrix d Vt) d) by (try exact fo_cols; reflexivity).
  do 2 f_equal. apply map_ext_in. intros x Hx.
  rewrite Forall_forall in X_ok. destruct (X_ok x Hx) as [_ Hm].
  unfold mloc, lloc, fq, fo, fl, ks.
  rewrite kernel_m_real, kernel_p_real by exact Kt_nonempty.
  symmetry. now apply output_row_agrees.
Qed.
End TileOnFiniteState.

(** C4: on a row tile whose running state is finite (the running max may
    still be minus infinity) the visit of a key/value tile returns, and its
    output tile is
    [O_old . l_old . exp(m_old - m_merged)
     + (P . V_tile) . exp(m_local - m_merged)] / l_merged,
    where S = Q_tile . K_tile^T, m_local is the row max of S,
    P = exp(S - m_local), and (m_merged, l_merged) is the state the
    online-softmax accumulator produces for this visit. *)
Theorem output_tile_update (d : nat) (X : list tile_row) (Kt Vt : list (list R)) :
  Kt <> [] -> length Vt = length Kt ->
  Forall (fun r => length r = d) Kt -> Forall (fun r => length r = d) Vt ->
  Forall (tile_row_ok d) X ->
  exists (S m_local P l_local : ndarray) (t : tile_result),
    tile_step (q_tile d X) (real_matrix d Kt) (real_matrix d Vt)
              (m_tile X) (l_tile X) (o_tile d X) = Ok t
    /\ block_score_kernel (q_tile d X) (real_matrix d Kt) = Ok (S, m_local, P, l_local)
    /\ S = real_matrix (length Kt) (map (fun x => scoresR Kt (q_row x)) X)
    /\ m_local = real_matrix 1 (map (fun x => [Rlist_max (scoresR Kt (q_row x))]) X)
    /\ P = real_matrix (length Kt)
             (map (fun x => map (fun s => exp (s - Rlist_max (scoresR Kt (q_row x))))
                                (scoresR Kt (q_row x))) X)
    /\ online_softmax_accumulator (m_tile X) (l_tile X) m_local l_local
       = Ok (m_i_new t, l_i_new t)
    /\ output_accumulator (o_tile d X) (m_tile X) (l_tile X) (m_i_new t) (l_i_new t)
                          P m_local (real_matrix d Vt)
       = Ok (o_i_new t).
Proof.
  intros Hne Hlen HK HV HX.
  pose proof (tile_step_finite d X Kt Vt Hne Hlen HK HX) as Hstep.
  pose proof (block_score_kernel_finite d X Kt Vt Hne Hlen HK) as Hker.
  destruct (tile_step_merge _ _ _ _ _ _ _ Hstep) as (S & m & P & l & Hk & Hacc).
  rewrite Hker in Hk. injection Hk as <- <- <- <-.
  do 5 eexists. split; [exact Hstep |]. split; [exact Hker |].
  repeat split; try reflexivity.
  - exact Hacc.
  - now apply output_accumulator_finite.
Qed.

Lemma output_tile_update_witness :
  exists (S m_local P l_local : ndarray) (t : tile_result),
    tile_step (q_tile 1 [mkrow [1] NInf 0 [0]; mkrow [2] (Fin 3) 1 [4]])
              (real_matrix 1 [[1]; [2]]) (real_matrix 1 [[5]; [6]])
              (m_tile [mkrow [1] NInf 0 [0]; mkrow [2] (Fin 3) 1 [4]])
              (l_tile [mkrow [1] NInf 0 [0]; mkrow [2] (Fin 3) 1 [4]])
              (o_tile 1 [mkrow [1] NInf 0 [0]; mkrow [2] (Fin 3) 1 [4]]) = Ok t
    /\ block_score_kernel (q_tile 1 [mkrow [1] NInf 0 [0]; mkrow [2] (Fin 3) 1 [4]])
                          (real_matrix 1 [[1]; [2]]) = Ok (S, m_local, P, l_local)
    /\ S = real_matrix (length [[1]; [2]])
             (map (fun x => scoresR [[1]; [2]] (q_row x))
                  [mkrow [1] NInf 0 [0]; mkrow [2] (Fin 3) 1 [4]])
    /\ m_local = real_matrix 1
                   (map (fun x => [Rlist_max (scoresR [[1]; [2]] (q_row x))])
                        [mkrow [1] NInf 0 [0]; mkrow [2] (Fin 3) 1 [4]])
    /\ P = real_matrix (length [[1]; [2]])
             (map (fun x => map (fun s => exp (s - Rlist_max (scoresR [[1]; [2]] (q_row x))))
                                (scoresR [[1]; [2]] (q_row x)))
                  [mkrow [1] NInf 0 [0]; mkrow [2] (Fin 3) 1 [4]])
    /\ online_softmax_accumulator
         (m_tile [mkrow [1] NInf 0 [0]; mkrow [2] (Fin 3) 1 [4]])
         (l_tile [mkrow [1] NInf 0 [0]; mkrow [2] (Fin 3) 1 [4]]) m_local l_local
       = Ok (m_i_new t, l_i_new t)
    /\ output_accumulator
         (o_tile 1 [mkrow [1] NInf 0 [0]; mkrow [2] (Fin 3) 1 [4]])
         (m_tile [mkrow [1] NInf 0 [0]; mkrow [2] (Fin 3) 1 [4]])
         (l_tile [mkrow [1] NInf 0 [0]; mkrow [2] (Fin 3) 1 [4]])
         (m_i_new t) (l_i_new t) P m_local (real_matrix 1 [[5]; [6]])
       = Ok (o_i_new t).
Proof.
  apply (output_tile_update 1 [mkrow [1] NInf 0 [0]; mkrow [2] (Fin 3) 1 [4]]
           [[1]; [2]] [[5]; [6]]).
  - discriminate.
  - reflexivity.
  - repeat constructor.
  - repeat constructor.
  - constructor; [split; [reflexivity | left; reflexivity] |].
    constructor; [split; [reflexivity | right; now exists 3] | constructor].
Defined.

(** ** The running state at the end of a run *)

Lemma terminal_state (N d : nat) (Q K V : list (list R)) (b_r b_c : Z) :
  has_shape N d Q -> has_shape N d K -> has_shape N d V -> (0 < N)%nat ->
  (0 < b_r)%Z -> (0 < b_c)%Z ->
  (Z.of_nat N mod b_r = 0)%Z -> (Z.of_nat N mod b_c = 0)%Z ->
  exists st : blocks_state,
    flash_attention_run (real_matrix d Q) (real_matrix d K) (real_matrix d V) b_r b_c
    = Ok st
    /\ np_concatenate (m_blocks st)
       = Ok (real_matrix 1 (map (fun q => [Rlist_max (scoresR K q)]) Q))
    /\ np_concatenate (l_blocks st)
       = Ok (real_matrix 1 (map (fun q => [normR K q]) Q)).
Proof.
  intros [HQ HQc] [HK HKc] [HV HVc] HN Hbr Hbc Hmr Hmc.
  eexists. split.
  - apply flash_attention_run_real; rewrite ?HQ, ?HK, ?HV; try assumption; lia.
  - destruct (tile_count N b_r Hbr Hmr) as [nq [Hnq Hpos]].
    assert (Eq : (N / Z.to_nat b_r = nq)%nat) by (rewrite Hnq at 1; apply Nat.div_mul; lia).
    assert (Hnz : nq <> 0%nat) by (intros ->; lia).
    assert (EK : firstn N K = K) by (rewrite <- HK; apply firstn_all).
    assert (HKne : K <> []) by (intros ->; cbn [length] in HK; lia).
    cbn [m_blocks l_blocks tiles_state]. rewrite HQ, Eq, EK.
    unfold m_state, l_state. rewrite <- HQ in Hnq.
    rewrite (np_concatenate_tiles Q 1 (Z.to_nat b_r) nq (fun q => [run_m K q]))
      by assumption.
    rewrite (np_concatenate_tiles Q 1 (Z.to_nat b_r) nq (fun q => [Fin (normR K q)]))
      by assumption.
    unfold real_matrix. rewrite !map_map. split; [| reflexivity].
    do 2 f_equal. apply map_ext. intro q. unfold run_m.
    destruct K; [contradiction | reflexivity].
Qed.

(** C3: every tile visit merges the running state with the local max and
    sum of the block score kernel by
    m_merged = max(m_old, m_new_local),
    l_merged = l_old . exp(m_old - m_merged)
               + l_new_local . exp(m_new_local - m_merged);
    and at the end of a run on real N x d matrices (N positive, positive
    tile sizes dividing N) the running max of every row is the largest of
    its scores against all keys and its normalizer is the sum of
    exp(score - that max) over all keys.  The single loop of
    [online_softmax] ends in the same pair for its input vector. *)
Theorem online_softmax_state_update
  (N d : nat) (Q K V : list (list R)) (b_r b_c : Z) :
  has_shape N d Q -> has_shape N d K -> has_shape N d V -> (0 < N)%nat ->
  (0 < b_r)%Z -> (0 < b_c)%Z ->
  (Z.of_nat N mod b_r = 0)%Z -> (Z.of_nat N mod b_c = 0)%Z ->
  (forall (q_block k_block v_block m_block l_block o_block : ndarray) (t : tile_result),
      tile_step q_block k_block v_block m_block l_block o_block = Ok t ->
      exists S m_local P l_local : ndarray,
        block_score_kernel q_block k_block = Ok (S, m_local, P, l_local)
        /\ online_softmax_accumulator m_block l_block m_local l_local
           = Ok (m_i_new t, l_i_new t))
  /\ (exists st : blocks_state,
         flash_attention_run (real_matrix d Q) (real_matrix d K) (real_matrix d V)
                             b_r b_c = Ok st
         /\ np_concatenate (m_blocks st)
            = Ok (real_matrix 1 (map (fun q => [Rlist_max (scoresR K q)]) Q))
         /\ np_concatenate (l_blocks st)
            = Ok (real_matrix 1
                    (map (fun q =>
                            [Rsum (map (fun s => exp (s - Rlist_max (scoresR K q)))
                                       (scoresR K q))]) Q)))
  /\ (forall (v : R) (xs : list R),
         fold_left online_step (map Fin (v :: xs)) (Fin 0, NInf)
         = (Fin (Rsum (map (fun x => exp (x - Rmaxl v xs)) (v :: xs))),
            Fin (Rmaxl v xs))).
Proof.
  intros HQ HK HV HN Hbr Hbc Hmr Hmc. split; [| split].
  - intros q_block k_block v_block m_block l_block o_block t.
    apply tile_step_merge.
  - exact (terminal_state N d Q K V b_r b_c HQ HK HV HN Hbr Hbc Hmr Hmc).
  - exact online_loop_from_start.
Qed.

Lemma online_softmax_state_update_witness :
  (forall (q_block k_block v_block m_block l_block o_block : ndarray) (t : tile_result),
      tile_step q_block k_block v_block m_block l_block o_block = Ok t ->
      exists S m_local P l_local : ndarray,
        block_score_kernel q_block k_block = Ok (S, m_local, P, l_local)
        /\ online_softmax_accumulator m_block l_block m_local l_local
           = Ok (m_i_new t, l_i_new t))
  /\ (exists st : blocks_state,
         flash_attention_run (real_matrix 1 [[0]; [0]]) (real_matrix 1 [[0]; [0]])
                             (real_matrix 1 [[1]; [2]]) 1 1 = Ok st
         /\ np_concatenate (m_blocks st)
            = Ok (real_matrix 1
                    (map (fun q => [Rlist_max (scoresR [[0]; [0]] q)]) [[0]; [0]]))
         /\ np_concatenate (l_blocks st)
            = Ok (real_matrix 1
                    (map (fun q =>
                            [Rsum (map (fun s => exp (s - Rlist_max (scoresR [[0]; [0]] q)))
                                       (scoresR [[0]; [0]] q))]) [[0]; [0]])))
  /\ (forall (v : R) (xs : list R),
         fold_left online_step (map Fin (v :: xs)) (Fin 0, NInf)
         = (Fin (Rsum (map (fun x => exp (x - Rmaxl v xs)) (v :: xs))),
            Fin (Rmaxl v xs))).
Proof.
  apply (online_softmax_state_update 2 1 [[0]; [0]] [[0]; [0]] [[1]; [2]] 1 1);
    try (split; [reflexivity | repeat constructor]); try lia; reflexivity.
Defined.

(** ** The scenarios of the specification *)

(** Two equal scores give a uniform attention: the mean of the values. *)
Example uniform_attention_rows :
  attentionR [[0]; [0]] [[0]; [0]] [[1]; [2]] 1 = [[3 / 2]; [3 / 2]].
Proof.
  unfold attentionR, outR, normR, weightsR, scoresR, Rdot, colR, Rlist_max, Rmaxl, Rsum.
  cbn [map zip_with fold_right fold_left seq nth].
  replace (0 * 0 + 0) with 0 by lra.
  rewrite Rmax_left by lra.
  replace (0 - 0) with 0 by lra. rewrite exp_0.
  repeat f_equal; field.
Qed.

Example uniform_attention_tiled (b_r b_c : Z) :
  (b_r = 1 \/ b_r = 2)%Z -> (b_c = 1 \/ b_c = 2)%Z ->
  flash_attention (real_matrix 1 [[0]; [0]]) (real_matrix 1 [[0]; [0]])
                  (real_matrix 1 [[1]; [2]]) b_r b_c
  = Ok (real_matrix 1 [[3 / 2]; [3 / 2]]).
Proof.
  intros Hr Hc. rewrite <- uniform_attention_rows.
  destruct Hr as [-> | ->], Hc as [-> | ->];
    (rewrite flash_attention_real;
     [reflexivity | try lia; try reflexivity; try (cbn [length]; lia);
                    try (repeat constructor); try discriminate ..]).
Qed.

(** Five rows cut into row tiles of two: the first assertion fails. *)
Example five_rows_by_two :
  flash_attention (real_matrix 1 [[1]; [2]; [3]; [4]; [5]])
                  (real_matrix 1 [[1]; [2]; [3]; [4]; [5]])
                  (real_matrix 1 [[1]; [2]; [3]; [4]; [5]]) 2 1
  = Err (AssertionError msg_q).
Proof. reflexivity. Qed.

(** Queries with four columns against keys with three: the last assertion
    fails. *)
Example four_columns_against_three :
  flash_attention (real_matrix 4 [[1; 2; 3; 4]]) (real_matrix 3 [[1; 2; 3]])
                  (real_matrix 4 [[1; 2; 3; 4]]) 1 1
  = Err (AssertionError msg_cols).
Proof. reflexivity. Qed.

(** A tile size of zero makes the first remainder raise. *)
Example zero_tile_size :
  flash_attention (real_matrix 1 [[1]; [2]]) (real_matrix 1 [[1]; [2]])
                  (real_matrix 1 [[1]; [2]]) 0 1
  = Err ZeroDivisionError.
Proof. reflexivity. Qed.

(** A negative column tile size passes the assertions ([2 % -1 == 0]) but
    its range is empty: no tile is visited and the zero-initialised output
    is returned.  The properties above take tile sizes to be positive. *)
Example negative_column_tile_size :
  flash_attention (real_matrix 1 [[0]; [0]]) (real_matrix 1 [[0]; [0]])
                  (real_matrix 1 [[1]; [2]]) 1 (-1)
  = Ok (np_zeros 2 1).
Proof. reflexivity. Qed.

(** * Further properties of the softmax routines *)

Lemma softmaxR_shift (x : list R) (c : R) :
  softmaxR (map (fun v => v + c) x) = softmaxR x.
Proof.
  destruct x as [| v0 x0] eqn:E; [reflexivity |]. rewrite <- E.
  assert (Hne : x <> []) by (rewrite E; discriminate).
  unfold softmaxR. rewrite !map_map. apply map_ext. intro v.
  rewrite <- (shifted_ratio x (- c) v Hne).
  f_equal; [f_equal; lra |].
  apply Rsum_map_ext. intros u _. f_equal. lra.
Qed.

(** X1: adding one constant to every entry of a real vector changes the
    result of neither the safe nor the online softmax. *)
Theorem softmax_shift_invariant (x : list R) (c : R) :
  safe_softmax (map Fin (map (fun v => v + c) x)) = safe_softmax (map Fin x)
  /\ online_softmax (map Fin (map (fun v => v + c) x)) = online_softmax (map Fin x).
Proof.
  rewrite !safe_softmax_real, !online_softmax_real.
  rewrite softmaxR_shift. split; reflexivity.
Qed.

Lemma exp_le_iff (a b : R) : exp a <= exp b <-> a <= b.
Proof.
  split; intro H.
  - destruct (Rle_or_lt a b) as [Hle | Hlt]; [exact Hle |].
    apply exp_increasing in Hlt. lra.
  - destruct H as [H | ->]; [left; now apply exp_increasing | right; reflexivity].
Qed.

Lemma softmaxR_nth (x : list R) (i : nat) :
  (i < length x)%nat ->
  nth i (softmaxR x) 0 = exp (nth i x 0) / Rsum (map exp x).
Proof.
  intro Hi. unfold softmaxR.
  set (f := fun v => exp v / Rsum (map exp x)).
  rewrite (nth_indep (map f x) 0 (f 0)) by (now rewrite length_map).
  apply (map_nth f).
Qed.

(** X2: the safe and the online softmax keep the order of the entries:
    on a real vector, an input that is at most another gets a weight that
    is at most the weight of the other (so a largest input gets a largest
    weight). *)
Theorem softmax_order_preserving (x : list R) :
  exists y : list R,
    safe_softmax (map Fin x) = Ok (map Fin y)
    /\ online_softmax (map Fin x) = Ok (map Fin y)
    /\ forall i j : nat,
         (i < length x)%nat -> (j < length x)%nat ->
         nth i x 0 <= nth j x 0 -> nth i y 0 <= nth j y 0.
Proof.
  exists (softmaxR x).
  rewrite safe_softmax_real, online_softmax_real.
  do 2 (split; [reflexivity |]).
  intros i j Hi Hj H. rewrite !softmaxR_nth by assumption.
  assert (Hne : x <> []) by (intros ->; cbn [length] in *; lia).
  assert (HS : 0 < Rsum (map exp x)) by (apply Rsum_pos; [assumption | apply exp_pos]).
  assert (Hinv : 0 < / Rsum (map exp x)) by (now apply Rinv_0_lt_compat).
  unfold Rdiv. apply Rmult_le_compat_r; [left; assumption | now apply exp_le_iff].
Qed.

(** ** The softmax routines on arbitrary floats *)

Lemma nonzero_nonneg (t : xreal) : nonzero_float t -> nonneg_float t.
Proof. destruct t; cbn; try tauto. lra. Qed.

Lemma xexp_nonneg (a : xreal) : nonneg_float (xexp a).
Proof. destruct a as [r | | |]; cbn; try tauto; [left; apply exp_pos | lra]. Qed.

Lemma xexp_self (m : xreal) : nonzero_float (xexp (xsub m m)).
Proof. destruct m as [r | | |]; cbn; try tauto. apply exp_pos. Qed.

Lemma xexp_above_neg_inf (v : xreal) : nonzero_float (xexp (xsub v NInf)).
Proof. destruct v as [r | | |]; cbn; tauto. Qed.

Lemma xadd_nonneg (a b : xreal) :
  nonneg_float a -> nonneg_float b -> nonneg_float (xadd a b).
Proof. destruct a, b; cbn; try tauto. lra. Qed.

Lemma xadd_nonzero_l (a b : xreal) :
  nonzero_float a -> nonneg_float b -> nonzero_float (xadd a b).
Proof. destruct a, b; cbn; try tauto. lra. Qed.

Lemma xadd_nonzero_r (a b : xreal) :
  nonneg_float a -> nonzero_float b -> nonzero_float (xadd a b).
Proof. destruct a, b; cbn; try tauto. lra. Qed.

Lemma xmul_nonneg (a b : xreal) :
  nonneg_float a -> nonneg_float b -> nonneg_float (xmul a b).
Proof.
  destruct a as [x | | |], b as [y | | |]; cbn; try tauto.
  - intros Hx Hy. apply Rmult_le_pos; assumption.
  - intros Hx _. unfold inf_times.
    destruct (Rlt_dec 0 x); [exact I |]. destruct (Rlt_dec x 0); [lra | exact I].
  - intros _ Hy. unfold inf_times.
    destruct (Rlt_dec 0 y); [exact I |]. destruct (Rlt_dec y 0); [lra | exact I].
Qed.

Lemma xmul_exp_nonzero (t : xreal) (a : R) :
  nonzero_float t -> nonzero_float (xmul t (Fin (exp a))).
Proof.
  pose proof (exp_pos a) as He.
  destruct t as [x | | |]; cbn; try tauto.
  - intro Hx. apply Rmult_lt_0_compat; assumption.
  - intros _. unfold inf_times. destruct (Rlt_dec 0 (exp a)); [exact I | lra].
Qed.

Lemma mapM_py_div_nonzero (g : xreal -> xreal) (t : xreal) (x : list xreal) :
  nonzero_float t ->
  mapM (fun v => py_div (g v) t) x = Ok (map (fun v => xdiv (g v) t) x).
Proof.
  intro Ht. induction x as [| a x IH]; cbn [mapM map]; [reflexivity |].
  rewrite IH. unfold py_div.
  destruct t as [r | | |]; cbn [bind]; try reflexivity.
  destruct (Req_dec_T r 0) as [E | _]; [cbn in Ht; lra | reflexivity].
Qed.

Lemma fold_pick_origin (x : list xreal) (m0 : xreal) :
  fold_left (fun m v => if xgt v m then v else m) x m0 = m0
  \/ In (fold_left (fun m v => if xgt v m then v else m) x m0) x.
Proof.
  revert m0. induction x as [| a x IH]; intro m0; cbn [fold_left]; [now left |].
  destruct (IH (if xgt a m0 then a else m0)) as [E | HIn].
  - rewrite E. destruct (xgt a m0); [right; now left | now left].
  - right. now right.
Qed.

Lemma fold_total_nonneg (g : xreal -> xreal) (x : list xreal) (t0 : xreal) :
  (forall v, nonneg_float (g v)) -> nonneg_float t0 ->
  nonneg_float (fold_left (fun t v => xadd t (g v)) x t0).
Proof.
  intro Hg. revert t0. induction x as [| a x IH]; intros t0 H0; cbn [fold_left];
    [exact H0 |].
  apply IH. apply xadd_nonneg; [exact H0 | apply Hg].
Qed.

Lemma fold_total_keeps_nonzero (g : xreal -> xreal) (x : list xreal) (t0 : xreal) :
  (forall v, nonneg_float (g v)) -> nonzero_float t0 ->
  nonzero_float (fold_left (fun t v => xadd t (g v)) x t0).
Proof.
  intro Hg. revert t0. induction x as [| a x IH]; intros t0 H0; cbn [fold_left];
    [exact H0 |].
  apply IH. apply xadd_nonzero_l; [exact H0 | apply Hg].
Qed.

Lemma fold_total_nonzero (g : xreal -> xreal) (x : list xreal) (t0 v : xreal) :
  (forall v, nonneg_float (g v)) -> nonneg_float t0 ->
  In v x -> nonzero_float (g v) ->
  nonzero_float (fold_left (fun t v => xadd t (g v)) x t0).
Proof.
  intros Hg H0 HIn Hv. revert t0 H0.
  induction x as [| a x IH]; intros t0 H0; [destruct HIn |].
  cbn [fold_left]. destruct HIn as [-> | HIn].
  - apply fold_total_keeps_nonzero; [exact Hg |].
    apply xadd_nonzero_r; assumption.
  - apply IH; [exact HIn |]. apply xadd_nonneg; [exact H0 | apply Hg].
Qed.

Lemma online_step_nonzero (t m v : xreal) :
  nonzero_float t \/ (t = Fin 0 /\ m = NInf) ->
  nonzero_float (fst (online_step (t, m) v)).
Proof.
  intro Inv. unfold online_step. cbv zeta.
  assert (Ht : nonneg_float t).
  { destruct Inv as [H | [-> _]]; [now apply nonzero_nonneg | cbn; lra]. }
  destruct (xgt v m); cbn [fst].
  - apply xadd_nonzero_r; [| apply xexp_self].
    apply xmul_nonneg; [exact Ht | apply xexp_nonneg].
  - destruct m as [a | | |].
    + destruct Inv as [H | [_ E]]; [| discriminate E].
      apply xadd_nonzero_l; [| apply xexp_nonneg].
      cbn [xsub xopp xadd xexp]. now apply xmul_exp_nonzero.
    + cbn [xsub xopp xadd xexp]. now destruct t.
    + cbn [xsub xopp xadd xexp]. now destruct t.
    + cbn [xsub xopp xadd xexp]. now destruct t.
Qed.

Lemma online_loop_nonzero (x : list xreal) (t m : xreal) :
  nonzero_float t -> nonzero_float (fst (fold_left online_step x (t, m))).
Proof.
  revert t m. induction x as [| v x IH]; intros t m Ht; cbn [fold_left]; [exact Ht |].
  pose proof (online_step_nonzero t m v (or_introl Ht)) as H.
  destruct (online_step (t, m) v) as [t1 m1]. now apply IH.
Qed.

(** X3: [safe_softmax] and [online_softmax] never raise.  Whatever floats
    they are given (infinities and NaN included), the total they divide by
    is no zero, and they return a list as long as the input. *)
Theorem stable_softmax_never_raises (x : list xreal) :
  (exists y : list xreal, safe_softmax x = Ok y /\ length y = length x)
  /\ (exists y : list xreal, online_softmax x = Ok y /\ length y = length x).
Proof.
  destruct x as [| v x].
  { split; exists []; split; reflexivity. }
  split.
  - unfold safe_softmax. cbv zeta.
    set (mx := fold_left (fun m v => if xgt v m then v else m) (v :: x) NInf).
    assert (Ht : nonzero_float
                   (fold_left (fun t v => xadd t (xexp (xsub v mx))) (v :: x) (Fin 0))).
    { destruct (fold_pick_origin (v :: x) NInf) as [E | HIn]; fold mx in E || fold mx in HIn.
      - apply (fold_total_nonzero (fun v => xexp (xsub v mx)) _ _ v).
        + intro; apply xexp_nonneg.
        + cbn; lra.
        + now left.
        + rewrite E. apply xexp_above_neg_inf.
      - apply (fold_total_nonzero (fun v => xexp (xsub v mx)) _ _ mx).
        + intro; apply xexp_nonneg.
        + cbn; lra.
        + exact HIn.
        + apply xexp_self. }
    rewrite (mapM_py_div_nonzero (fun v => xexp (xsub v mx)) _ _ Ht).
    eexists; split; [reflexivity | apply length_map].
  - unfold online_softmax. cbn [fold_left].
    pose proof (online_step_nonzero (Fin 0) NInf v (or_intror (conj eq_refl eq_refl)))
      as H1.
    destruct (online_step (Fin 0, NInf) v) as [t1 m1]. cbn [fst] in H1.
    pose proof (online_loop_nonzero x t1 m1 H1) as H2.
    destruct (fold_left online_step x (t1, m1)) as [total mx]. cbn [fst] in H2.
    rewrite (mapM_py_div_nonzero (fun v => xexp (xsub v mx)) _ _ H2).
    eexists; split; [reflexivity | apply length_map].
Qed.

Lemma mapM_py_div_NaN (g : xreal -> xreal) (x : list xreal) :
  mapM (fun v => py_div (g v) NaN) x = Ok (repeat NaN (length x)).
Proof.
  induction x as [| a x IH]; cbn [mapM length repeat]; [reflexivity |].
  rewrite IH. cbn [py_div bind]. do 2 f_equal. now destruct (g a).
Qed.

Lemma online_step_NaN (m v : xreal) :
  exists m' : xreal, online_step (NaN, m) v = (NaN, m').
Proof. unfold online_step. eexists. reflexivity. Qed.

Lemma online_loop_NaN (x : list xreal) (m : xreal) :
  exists m' : xreal, fold_left online_step x (NaN, m) = (NaN, m').
Proof.
  revert m. induction x as [| v x IH]; intro m; cbn [fold_left].
  - now exists m.
  - destruct (online_step_NaN m v) as [m1 ->]. apply IH.
Qed.

Lemma online_softmax_poisoned (x : list xreal) :
  online_softmax (NInf :: x) = Ok (repeat NaN (S (length x))).
Proof.
  unfold online_softmax. cbn [fold_left].
  change (online_step (Fin 0, NInf) NInf) with (NaN, NInf).
  destruct (online_loop_NaN x NInf) as [m' ->].
  apply (mapM_py_div_NaN (fun v => xexp (xsub v m')) (NInf :: x)).
Qed.

(** X4: when the first entry is minus infinity the single loop of
    [online_softmax] computes [-inf - (-inf)], and every entry of its result
    is NaN, whatever floats follow. *)
Theorem online_softmax_leading_neg_inf (x : list xreal) :
  online_softmax (NInf :: x) = Ok (repeat NaN (S (length x))).
Proof. exact (online_softmax_poisoned x). Qed.

Lemma fold_pick_all_neg_inf (n : nat) :
  fold_left (fun max_value v => if xgt v max_value then v else max_value)
            (repeat NInf n) NInf = NInf.
Proof. induction n as [| n IH]; cbn [repeat fold_left]; [reflexivity | exact IH]. Qed.

Lemma fold_add_NaN (g : xreal -> xreal) (x : list xreal) :
  fold_left (fun total v => xadd total (g v)) x NaN = NaN.
Proof. induction x as [| a x IH]; cbn [fold_left]; [reflexivity | exact IH]. Qed.

(** X5: on a non-empty vector whose entries are all minus infinity the
    naive routine divides by a zero total and raises ZeroDivisionError,
    while the safe and the online routine return NaN in every position. *)
Theorem softmax_all_neg_inf (n : nat) :
  standard_softmax (repeat NInf (S n)) = Err ZeroDivisionError
  /\ safe_softmax (repeat NInf (S n)) = Ok (repeat NaN (S n))
  /\ online_softmax (repeat NInf (S n)) = Ok (repeat NaN (S n)).
Proof.
  split; [| split].
  - apply standard_softmax_zero_total; [discriminate |].
    apply Forall_forall. intros v Hv. apply repeat_spec in Hv. now subst v.
  - unfold safe_softmax. rewrite fold_pick_all_neg_inf.
    cbn [repeat fold_left]. change (xadd (Fin 0) (xexp (xsub NInf NInf))) with NaN.
    rewrite fold_add_NaN.
    rewrite (mapM_py_div_NaN (fun v => xexp (xsub v NInf)) (NInf :: repeat NInf n)).
    cbn [length]. now rewrite repeat_length.
  - change (repeat NInf (S n)) with (NInf :: repeat NInf n).
    rewrite online_softmax_poisoned. now rewrite repeat_length.
Qed.

(** ** The softmax routines on vectors with masked entries *)

Lemma fold_total_masked (l : list (option R)) (f : R -> R) (g : xreal -> xreal) (t : R) :
  (forall r, g (Fin r) = Fin (f r)) -> g NInf = Fin 0 ->
  fold_left (fun total v => xadd total (g v)) (masked l) (Fin t)
  = Fin (t + Rsum (map f (unmasked l))).
Proof.
  intros Hg Hn. unfold masked. revert t.
  induction l as [| [r |] l IH]; intro t.
  - simpl. f_equal. lra.
  - change (unmasked (Some r :: l)) with (r :: unmasked l).
    cbn [map fold_left]. rewrite Hg. cbn [xadd]. rewrite IH.
    cbn [Rsum fold_right]. f_equal. unfold Rsum. lra.
  - change (unmasked (None :: l)) with (unmasked l).
    cbn [map fold_left]. rewrite Hn. cbn [xadd]. rewrite IH. f_equal. lra.
Qed.

Lemma mapM_py_div_masked (l : list (option R)) (f : R -> R) (g : xreal -> xreal) (t : R) :
  (forall r, g (Fin r) = Fin (f r)) -> g NInf = Fin 0 -> t <> 0 ->
  mapM (fun v => py_div (g v) (Fin t)) (masked l)
  = Ok (map Fin (map (fun o => match o with Some r => f r / t | None => 0 end) l)).
Proof.
  intros Hg Hn Ht. unfold masked.
  induction l as [| [r |] l IH]; cbn [map mapM]; [reflexivity | |].
  - rewrite Hg, py_div_Fin by assumption. cbn [bind]. now rewrite IH.
  - rewrite Hn, py_div_Fin by assumption. cbn [bind]. rewrite IH. cbn [bind].
    do 3 f_equal. unfold Rdiv. apply Rmult_0_l.
Qed.

Lemma fold_pick_masked_Fin (l : list (option R)) (m : R) :
  fold_left (fun max_value v => if xgt v max_value then v else max_value)
            (masked l) (Fin m) = Fin (Rmaxl m (unmasked l)).
Proof.
  unfold masked. revert m.
  induction l as [| [r |] l IH]; intro m.
  - reflexivity.
  - change (unmasked (Some r :: l)) with (r :: unmasked l).
    cbn [map fold_left]. rewrite pick_max_Fin. apply IH.
  - change (unmasked (None :: l)) with (unmasked l).
    cbn [map fold_left xgt]. apply IH.
Qed.

Lemma fold_pick_masked (l : list (option R)) :
  unmasked l <> [] ->
  fold_left (fun max_value v => if xgt v max_value then v else max_value)
            (masked l) NInf = Fin (Rlist_max (unmasked l)).
Proof.
  induction l as [| [r |] l IH]; intro Hne.
  - contradiction.
  - change (masked (Some r :: l)) with (Fin r :: masked l). cbn [fold_left xgt].
    apply fold_pick_masked_Fin.
  - change (masked (None :: l)) with (NInf :: masked l). cbn [fold_left xgt].
    now apply IH.
Qed.

Lemma online_loop_masked (l : list (option R)) (t m : R) :
  fold_left online_step (masked l) (Fin t, Fin m)
  = (Fin (t * exp (m - Rmaxl m (unmasked l))
          + Rsum (map (fun u => exp (u - Rmaxl m (unmasked l))) (unmasked l))),
     Fin (Rmaxl m (unmasked l))).
Proof.
  revert t m. induction l as [| [r |] l IH]; intros t m.
  - cbn. unfold Rmaxl. cbn. do 2 f_equal.
    replace (m - m) with 0 by lra. rewrite exp_0. lra.
  - change (masked (Some r :: l)) with (Fin r :: masked l).
    change (unmasked (Some r :: l)) with (r :: unmasked l).
    cbn [fold_left]. rewrite online_step_Fin, IH.
    change (Rmaxl m (r :: unmasked l)) with (Rmaxl (Rmax m r) (unmasked l)).
    set (M := Rmaxl (Rmax m r) (unmasked l)).
    cbn [map Rsum fold_right].
    do 2 f_equal.
    rewrite Rmult_plus_distr_r, Rmult_assoc, <- exp_plus, exp_shift.
    replace (m - Rmax m r + (Rmax m r - M)) with (m - M) by lra.
    unfold Rsum. lra.
  - change (masked (None :: l)) with (NInf :: masked l).
    change (unmasked (None :: l)) with (unmasked l).
    cbn [fold_left].
    change (online_step (Fin t, Fin m) NInf)
      with (Fin (t * exp (m + - m) + 0), Fin m).
    rewrite IH. do 2 f_equal.
    replace (m + - m) with 0 by lra. rewrite exp_0. lra.
Qed.

Lemma masked_ratio (l : list (option R)) (M : R) :
  unmasked l <> [] ->
  map (fun o => match o with
                | Some r => exp (r - M) / Rsum (map (fun u => exp (u - M)) (unmasked l))
                | None => 0
                end) l
  = masked_softmax l.
Proof.
  intro Hne. unfold masked_softmax. apply map_ext. intros [r |]; [| reflexivity].
  now apply shifted_ratio.
Qed.

Lemma naive_total_masked (l : list (option R)) (t : R) :
  0 <= t -> t + Rsum (map exp (unmasked l)) < float_top ->
  Forall (fun v => float_tiny < exp v) (unmasked l) ->
  foldM (fun total v => e <- math_exp v ;; Ok (float_add total e)) (masked l) (Fin t)
  = Ok (Fin (t + Rsum (map exp (unmasked l)))).
Proof.
  pose proof float_top_gt_64 as Htop. unfold masked. revert t.
  induction l as [| [r |] l IH]; intros t Ht Hsum Hall.
  - simpl. do 2 f_equal. lra.
  - change (unmasked (Some r :: l)) with (r :: unmasked l) in *.
    inversion Hall as [| ? ? Hr Hl]; subst.
    cbn [map Rsum fold_right] in Hsum |- *. cbn [foldM].
    pose proof (exp_pos r) as Her.
    pose proof (Rsum_nonneg exp (unmasked l) (fun v => Rlt_le _ _ (exp_pos v))) as Hrest.
    unfold Rsum in Hsum, Hrest.
    rewrite math_exp_within by (assumption || lra). cbn [bind].
    rewrite float_add_within by lra.
    rewrite IH by (assumption || unfold Rsum; lra).
    do 2 f_equal. unfold Rsum. lra.
  - change (unmasked (None :: l)) with (unmasked l) in *.
    cbn [map foldM math_exp bind].
    pose proof (Rsum_nonneg exp (unmasked l) (fun v => Rlt_le _ _ (exp_pos v))) as Hrest.
    rewrite float_add_within by lra.
    rewrite IH by (assumption || lra).
    do 2 f_equal. lra.
Qed.

Lemma naive_quotients_masked (l : list (option R)) (T : R) :
  T <> 0 ->
  Forall (fun v => exp v < float_top /\ float_tiny < exp v) (unmasked l) ->
  mapM (fun v => e <- math_exp v ;; py_div e (Fin T)) (masked l)
  = Ok (map Fin (map (fun o => match o with Some r => exp r / T | None => 0 end) l)).
Proof.
  intros HT. unfold masked.
  induction l as [| [r |] l IH]; intro Hall; cbn [map mapM]; [reflexivity | |].
  - change (unmasked (Some r :: l)) with (r :: unmasked l) in Hall.
    inversion Hall as [| ? ? [Hu Hl] Hrest]; subst.
    rewrite math_exp_within by assumption. cbn [bind].
    rewrite py_div_Fin by assumption. cbn [bind]. now rewrite IH.
  - change (unmasked (None :: l)) with (unmasked l) in Hall.
    cbn [math_exp bind]. rewrite py_div_Fin by assumption. cbn [bind].
    rewrite IH by assumption. cbn [bind].
    do 3 f_equal. unfold Rdiv. apply Rmult_0_l.
Qed.

(** X6: on a vector whose entries are real numbers or minus infinity, at
    least one of them real, the safe softmax returns the softmax of the
    real entries with weight zero at the others; the online softmax returns
    the same vector when the first entry is real, and so does the naive
    softmax when the real entries keep it within the range of a float. *)
Theorem softmax_routines_masked (l : list (option R)) :
  unmasked l <> [] ->
  safe_softmax (masked l) = Ok (map Fin (masked_softmax l))
  /\ (forall (r : R) (l' : list (option R)),
         l = Some r :: l' ->
         online_softmax (masked l) = Ok (map Fin (masked_softmax l)))
  /\ (within_float_range (unmasked l) ->
      standard_softmax (masked l) = Ok (map Fin (masked_softmax l))).
Proof.
  intro Hne.
  assert (HS : 0 < Rsum (map exp (unmasked l)))
    by (apply Rsum_pos; [assumption | apply exp_pos]).
  assert (HM : forall M, 0 < Rsum (map (fun u => exp (u - M)) (unmasked l)))
    by (intro M; apply Rsum_pos; [assumption | intro; apply exp_pos]).
  split; [| split].
  - unfold safe_softmax. rewrite fold_pick_masked by exact Hne.
    set (M := Rlist_max (unmasked l)).
    rewrite (fold_total_masked l (fun u => exp (u - M)) (fun v => xexp (xsub v (Fin M))))
      by reflexivity.
    rewrite Rplus_0_l.
    rewrite (mapM_py_div_masked l (fun u => exp (u - M))
               (fun v => xexp (xsub v (Fin M))))
      by (try reflexivity; specialize (HM M); lra).
    now rewrite masked_ratio.
  - intros r l' El. unfold online_softmax.
    rewrite El at 1. change (masked (Some r :: l')) with (Fin r :: masked l').
    cbn [fold_left]. rewrite online_first_step, online_loop_masked.
    set (M := Rmaxl r (unmasked l')).
    assert (ET : (0 * 0 + exp (r - r)) * exp (r - M)
                 + Rsum (map (fun u => exp (u - M)) (unmasked l'))
                 = Rsum (map (fun u => exp (u - M)) (unmasked l))).
    { rewrite El. change (unmasked (Some r :: l')) with (r :: unmasked l').
      cbn [map Rsum fold_right].
      replace (r - r) with 0 by lra. rewrite exp_0. unfold Rsum. lra. }
    rewrite ET.
    rewrite (mapM_py_div_masked l (fun u => exp (u - M))
               (fun v => xexp (xsub v (Fin M))))
      by (try reflexivity; specialize (HM M); lra).
    now rewrite masked_ratio.
  - intros [Hsum Hall]. apply within_float_range_tiny in Hall.
    unfold standard_softmax.
    rewrite (naive_total_masked l 0) by (assumption || lra). cbn [bind].
    rewrite Rplus_0_l.
    rewrite naive_quotients_masked; [reflexivity | lra |].
    apply Forall_forall. intros u Hu. split.
    + apply Rle_lt_trans with (Rsum (map exp (unmasked l))); [| assumption].
      apply Rsum_ge_term; [intro; left; apply exp_pos | assumption].
    + revert u Hu. now apply Forall_forall.
Qed.

Lemma softmax_routines_masked_witness :
  safe_softmax (masked [Some 1; None; Some 2; Some 3])
  = Ok (map Fin (masked_softmax [Some 1; None; Some 2; Some 3]))
  /\ online_softmax (masked [Some 1; None; Some 2; Some 3])
     = Ok (map Fin (masked_softmax [Some 1; None; Some 2; Some 3]))
  /\ standard_softmax (masked [Some 1; None; Some 2; Some 3])
     = Ok (map Fin (masked_softmax [Some 1; None; Some 2; Some 3])).
Proof.
  destruct (softmax_routines_masked [Some 1; None; Some 2; Some 3]) as (Hs & Ho & Hn);
    [discriminate |].
  split; [exact Hs |]. split; [exact (Ho 1 _ eq_refl) |].
  exact (Hn one_two_three_within_range).
Defined.

(** * Further properties of the attention routines *)

(** ** Full-matrix attention on queries, keys and values of any shape *)

Lemma standard_attention_cross (dk dv : nat) (Q K V : list (list R)) :
  K <> [] -> length V = length K ->
  Forall (fun r => length r = dk) K -> Forall (fun r => length r = dv) V ->
  standard_attention (real_matrix dk Q) (real_matrix dk K) (real_matrix dv V)
  = Ok (real_matrix dv (attentionR Q K V dv)).
Proof.
  intros Hne Hlen HK HV.
  change (real_matrix dk Q) with (mkarr (ncols (real_matrix dk K)) (map (map Fin) Q)).
  rewrite standard_attention_rowwise.
  - f_equal. unfold real_matrix, attentionR. cbn [ncols rows]. f_equal.
    rewrite map_map. apply map_ext. intro q.
    unfold outR. rewrite map_map. apply map_ext_in. intros j Hj. apply in_seq in Hj.
    rewrite kernel_l_real, kernel_p_real by exact Hne.
    change (mkarr dv (map (map Fin) V)) with (real_matrix dv V).
    rewrite col_real_matrix by (try assumption; lia).
    assert (HL : normR K q <> 0).
    { pose proof (normR_pos K q Hne). lra. }
    rewrite map_map.
    rewrite (map_ext _ (fun w => Fin (w * / normR K q)))
      by (intro w; now rewrite xdiv_Fin).
    rewrite <- (map_map (fun w => w * / normR K q) Fin), xdot_Fin.
    f_equal. apply Rdot_scal_l.
  - now apply real_matrix_wf.
  - rewrite shape0_real. destruct K; [contradiction | discriminate].
  - now rewrite !shape0_real.
Qed.

Lemma standard_attention_rows_mismatch {T : Type} (X : list T) (fq : T -> list xreal)
  (K V : ndarray) :
  wf K -> shape0 K <> 0%nat -> shape0 K <> shape0 V ->
  standard_attention (mkarr (ncols K) (map fq X)) K V = Err ValueError.
Proof.
  intros Hwf Hne HV. unfold standard_attention.
  rewrite np_matmul_T_rowwise by exact Hwf. cbn [bind].
  rewrite np_max_rowwise by exact Hne. cbn [bind].
  unfold np_sub, np_div.
  rewrite np_binop_col_r
    by (apply Forall_forall; intros; unfold kernel_s, shape0; apply length_map).
  cbn [bind].
  rewrite np_exp_rowwise, np_sum_rowwise.
  rewrite np_binop_col_r
    by (apply Forall_forall; intros; unfold kernel_s, shape0; now rewrite !length_map).
  cbn [bind]. unfold np_matmul. cbn [ncols].
  destruct (Nat.eqb_spec (shape0 K) (shape0 V)); [contradiction | reflexivity].
Qed.

(** X7: the reference routine accepts a key/value sequence of any length,
    not only the length of the query.  On real matrices it returns exactly
    when Q and K have the same number of columns, K has at least one row
    and V has as many rows as K; the result then has one row per query row
    and the columns of V.  Otherwise it raises ValueError. *)
Theorem standard_attention_outcome (dq dk dv : nat) (Q K V : list (list R)) :
  Forall (fun r => length r = dk) K -> Forall (fun r => length r = dv) V ->
  standard_attention (real_matrix dq Q) (real_matrix dk K) (real_matrix dv V)
  = (if (dq =? dk)%nat && negb (length K =? 0)%nat && (length K =? length V)%nat
     then Ok (real_matrix dv (attentionR Q K V dv))
     else Err ValueError)
  /\ has_shape (length Q) dv (attentionR Q K V dv).
Proof.
  intros HK HV. split; [| now apply attentionR_shape].
  destruct (Nat.eqb_spec dq dk) as [-> | Hd]; cbn [andb].
  - destruct (Nat.eqb_spec (length K) 0) as [HK0 | HK0]; cbn [andb negb].
    + apply length_zero_iff_nil in HK0. subst K.
      unfold standard_attention, np_matmul. rewrite shape0_T.
      cbn [ncols real_matrix]. rewrite Nat.eqb_refl. reflexivity.
    + assert (Hne : K <> []) by (intros ->; now apply HK0).
      destruct (Nat.eqb_spec (length K) (length V)) as [HV0 | HV0].
      * now apply standard_attention_cross.
      * change (real_matrix dk Q)
          with (mkarr (ncols (real_matrix dk K)) (map (map Fin) Q)).
        apply standard_attention_rows_mismatch.
        -- now apply real_matrix_wf.
        -- now rewrite shape0_real.
        -- now rewrite !shape0_real.
  - unfold standard_attention, np_matmul. rewrite shape0_T.
    cbn [ncols real_matrix].
    destruct (Nat.eqb_spec dq dk); [contradiction | reflexivity].
Qed.

Lemma standard_attention_outcome_witness :
  standard_attention (real_matrix 1 [[0]]) (real_matrix 1 [[0]; [0]])
                     (real_matrix 2 [[1; 2]; [3; 4]])
  = (if (1 =? 1)%nat && negb (length [[0]; [0]] =? 0)%nat
        && (length [[0]; [0]] =? length [[1; 2]; [3; 4]])%nat
     then Ok (real_matrix 2 (attentionR [[0]] [[0]; [0]] [[1; 2]; [3; 4]] 2))
     else Err ValueError)
  /\ has_shape (length [[0]]) 2 (attentionR [[0]] [[0]; [0]] [[1; 2]; [3; 4]] 2).
Proof.
  apply (standard_attention_outcome 1 1 2 [[0]] [[0]; [0]] [[1; 2]; [3; 4]]);
    repeat constructor.
Defined.

(** X8: when K and V have more rows than Q (their row counts multiples of
    b_c), the tiled routine returns what the reference routine returns on
    the first N rows of K and V, N being the row count of Q; the reference
    routine on the whole of K and V attends to every row. *)
Theorem flash_attention_is_standard_on_first_rows
  (N d : nat) (Q K V : list (list R)) (b_r b_c : Z) :
  has_shape N d Q -> (0 < N)%nat ->
  (N <= length K)%nat -> (N <= length V)%nat ->
  Forall (fun r => length r = d) K -> Forall (fun r => length r = d) V ->
  (0 < b_r)%Z -> (0 < b_c)%Z ->
  (Z.of_nat N mod b_r = 0)%Z -> (Z.of_nat N mod b_c = 0)%Z ->
  (Z.of_nat (length K) mod b_c = 0)%Z -> (Z.of_nat (length V) mod b_c = 0)%Z ->
  flash_attention (real_matrix d Q) (real_matrix d K) (real_matrix d V) b_r b_c
  = standard_attention (real_matrix d Q) (slice_rows (real_matrix d K) 0 N)
                       (slice_rows (real_matrix d V) 0 N)
  /\ flash_attention (real_matrix d Q) (real_matrix d K) (real_matrix d V) b_r b_c
     = Ok (real_matrix d (attentionR Q (firstn N K) (firstn N V) d))
  /\ (length V = length K ->
      standard_attention (real_matrix d Q) (real_matrix d K) (real_matrix d V)
      = Ok (real_matrix d (attentionR Q K V d))).
Proof.
  intros [HQ HQc] HN HK HV HKc HVc Hbr Hbc Hmr Hmc HmK HmV.
  assert (HQne : Q <> []) by (intros ->; cbn [length] in HQ; lia).
  assert (Hfull :
            flash_attention (real_matrix d Q) (real_matrix d K) (real_matrix d V) b_r b_c
            = Ok (real_matrix d (attentionR Q (firstn N K) (firstn N V) d))).
  { rewrite flash_attention_real; rewrite ?HQ; try assumption. reflexivity. }
  split; [| split].
  - rewrite Hfull, !slice_rows_real. symmetry.
    apply standard_attention_cross.
    + intro H. apply (f_equal (@length _)) in H.
      rewrite length_firstn in H. cbn [length] in H. lia.
    + rewrite !length_firstn. lia.
    + rewrite <- (firstn_skipn N K) in HKc. apply Forall_app in HKc. tauto.
    + rewrite <- (firstn_skipn N V) in HVc. apply Forall_app in HVc. tauto.
  - exact Hfull.
  - intro Hlen. apply standard_attention_cross; try assumption.
    intros ->. cbn [length] in HK. lia.
Qed.

Lemma flash_attention_is_standard_on_first_rows_witness :
  flash_attention (real_matrix 1 [[0]]) (real_matrix 1 [[0]; [0]])
                  (real_matrix 1 [[1]; [3]]) 1 1
  = standard_attention (real_matrix 1 [[0]]) (slice_rows (real_matrix 1 [[0]; [0]]) 0 1)
                       (slice_rows (real_matrix 1 [[1]; [3]]) 0 1)
  /\ flash_attention (real_matrix 1 [[0]]) (real_matrix 1 [[0]; [0]])
                     (real_matrix 1 [[1]; [3]]) 1 1
     = Ok (real_matrix 1 (attentionR [[0]] (firstn 1 [[0]; [0]]) (firstn 1 [[1]; [3]]) 1))
  /\ (length [[1]; [3]] = length [[0]; [0]] ->
      standard_attention (real_matrix 1 [[0]]) (real_matrix 1 [[0]; [0]])
                         (real_matrix 1 [[1]; [3]])
      = Ok (real_matrix 1 (attentionR [[0]] [[0]; [0]] [[1]; [3]] 1))).
Proof.
  apply (flash_attention_is_standard_on_first_rows 1 1 [[0]] [[0]; [0]] [[1]; [3]] 1 1);
    try (split; [reflexivity | repeat constructor]);
    try (cbn [length]; lia); try reflexivity; repeat constructor.
Defined.

(** With one query row and two key/value rows the two routines return
    different matrices: the tiled one the first value row, the reference
    one the mean of both. *)
Example extra_rows_change_the_result :
  flash_attention (real_matrix 1 [[0]]) (real_matrix 1 [[0]; [0]])
                  (real_matrix 1 [[1]; [3]]) 1 1
  = Ok (real_matrix 1 [[1]])
  /\ standard_attention (real_matrix 1 [[0]]) (real_matrix 1 [[0]; [0]])
                        (real_matrix 1 [[1]; [3]])
     = Ok (real_matrix 1 [[2]]).
Proof.
  assert (Hf : flash_attention (real_matrix 1 [[0]]) (real_matrix 1 [[0]; [0]])
                               (real_matrix 1 [[1]; [3]]) 1 1
               = Ok (real_matrix 1 (attentionR [[0]] [[0]] [[1]] 1))).
  { apply (flash_attention_real [[0]] [[0]; [0]] [[1]; [3]] 1 1 1);
      try reflexivity; try (cbn [length]; lia); try (repeat constructor);
      discriminate. }
  assert (Hs : standard_attention (real_matrix 1 [[0]]) (real_matrix 1 [[0]; [0]])
                                  (real_matrix 1 [[1]; [3]])
               = Ok (real_matrix 1 (attentionR [[0]] [[0]; [0]] [[1]; [3]] 1))).
  { apply standard_attention_cross; try reflexivity; try (repeat constructor);
      discriminate. }
  rewrite Hf, Hs. split; do 2 f_equal.
  - unfold attentionR, outR, normR, weightsR, scoresR, Rdot, colR, Rlist_max, Rmaxl, Rsum.
    cbn [map zip_with fold_right fold_left seq nth firstn].
    replace (0 * 0 + 0 - (0 * 0 + 0)) with 0 by lra. rewrite exp_0.
    repeat f_equal. field.
  - unfold attentionR, outR, normR, weightsR, scoresR, Rdot, colR, Rlist_max, Rmaxl, Rsum.
    cbn [map zip_with fold_right fold_left seq nth].
    replace (0 * 0 + 0) with 0 by lra. rewrite Rmax_left by lra.
    replace (0 - 0) with 0 by lra. rewrite exp_0.
    repeat f_equal. field.
Qed.

(** ** Tile sizes that are not positive *)

Lemma np_concatenate_chunks (d b n : nat) (l : list (list xreal)) :
  n <> 0%nat -> length l = (n * b)%nat ->
  np_concatenate (map (fun t => mkarr d (chunk b t l)) (seq 0 n)) = Ok (mkarr d l).
Proof.
  intros Hn Hl. destruct n as [| n]; [contradiction |].
  unfold np_concatenate.
  remember (map (fun t => mkarr d (chunk b t l)) (seq 0 (S n))) as blocks eqn:Hb.
  assert (Hall : forallb (fun b1 => (ncols b1 =? d)%nat) blocks = true).
  { rewrite Hb. apply forallb_forall. intros a Ha.
    apply in_map_iff in Ha. destruct Ha as [t [<- _]]. apply Nat.eqb_refl. }
  assert (Hrows : concat (map rows blocks) = l).
  { rewrite Hb, map_map. cbn [rows].
    rewrite concat_chunks, <- Hl. apply firstn_all. }
  destruct blocks as [| b0 rest]; [discriminate Hb |].
  assert (Hb0 : ncols b0 = d) by (cbn [seq map] in Hb; injection Hb as -> _; reflexivity).
  rewrite Hb0, Hall, Hrows. reflexivity.
Qed.

Lemma py_range_negative (N : nat) (b : Z) : (b < 0)%Z -> py_range N b = Ok [].
Proof.
  intro Hb. unfold py_range.
  destruct (Z.eqb_spec b 0); [lia |]. destruct (Z.ltb_spec b 0); [reflexivity | lia].
Qed.

Lemma split_blocks_negative (a : ndarray) (N : nat) (b : Z) :
  (b < 0)%Z -> split_blocks a N b = Ok [].
Proof. intro Hb. unfold split_blocks. now rewrite py_range_negative. Qed.

Lemma check_preconditions_inv (q k v : ndarray) (b_r b_c : Z) :
  check_preconditions q k v b_r b_c = Ok tt ->
  b_r <> 0%Z /\ b_c <> 0%Z
  /\ (Z.of_nat (shape0 q) mod b_r = 0)%Z
  /\ (Z.of_nat (shape0 k) mod b_c = 0)%Z
  /\ (Z.of_nat (shape0 v) mod b_c = 0)%Z
  /\ shape1 q = shape1 k /\ shape1 k = shape1 v.
Proof.
  intro H. pose proof (check_preconditions_cases q k v b_r b_c) as Hc.
  cbv zeta in Hc. now rewrite H in Hc.
Qed.

(** X9: a negative column tile size passes the assertions whenever it
    divides the row counts of K and V, but the range of column tiles is
    then empty: no tile is visited and the routine returns the
    zero-initialised output, a matrix of zeros of the shape of Q, whatever
    K and V hold. *)
Theorem negative_column_tile_gives_zeros (q k v : ndarray) (b_r b_c : Z) :
  (0 < b_r)%Z -> (b_c < 0)%Z -> (0 < shape0 q)%nat ->
  check_preconditions q k v b_r b_c = Ok tt ->
  flash_attention q k v b_r b_c = Ok (np_zeros_like q).
Proof.
  intros Hbr Hbc HN Hcheck.
  destruct (check_preconditions_inv q k v b_r b_c Hcheck) as (_ & _ & Hmr & _).
  destruct (tile_count (shape0 q) b_r Hbr Hmr) as [nq [Hnq Hpos]].
  unfold flash_attention, flash_attention_run. rewrite Hcheck. cbn [bind].
  unfold tile_work. cbv zeta.
  rewrite (split_blocks_negative k), (split_blocks_negative v) by exact Hbc.
  assert (Hsplit : forall a,
             split_blocks a (shape0 q) b_r
             = Ok (map (fun t => mkarr (ncols a) (chunk (Z.to_nat b_r) t (rows a)))
                       (seq 0 nq))).
  { intro a. pose proof (split_blocks_tiles a nq (Z.to_nat b_r) Hpos) as S.
    rewrite <- Hnq, Z2Nat.id in S by lia. exact S. }
  rewrite !Hsplit.
  cbn [bind length seq foldM o_blocks].
  unfold np_zeros_like, np_zeros, np_full. cbn [ncols rows].
  apply np_concatenate_chunks.
  - intros ->. lia.
  - rewrite repeat_length. exact Hnq.
Qed.

Lemma negative_column_tile_gives_zeros_witness :
  flash_attention (real_matrix 1 [[0]; [0]]) (real_matrix 1 [[0]; [0]])
                  (real_matrix 1 [[1]; [2]]) 1 (-1)
  = Ok (np_zeros_like (real_matrix 1 [[0]; [0]])).
Proof.
  apply (negative_column_tile_gives_zeros (real_matrix 1 [[0]; [0]])
           (real_matrix 1 [[0]; [0]]) (real_matrix 1 [[1]; [2]]) 1 (-1));
    try lia; try reflexivity. cbn. lia.
Defined.

Lemma py_index_lt {A : Type} (l : list A) (j : nat) :
  (j < length l)%nat -> exists x : A, py_index l j = Ok x.
Proof.
  intro Hj. unfold py_index. destruct (nth_error l j) as [x |] eqn:E.
  - now exists x.
  - apply nth_error_None in E. lia.
Qed.

Lemma visit_column_no_row_tiles (k_blocks v_blocks : list ndarray) (st : blocks_state)
  (js : list nat) :
  length v_blocks = length k_blocks ->
  Forall (fun j => (j < length k_blocks)%nat) js ->
  foldM (visit_column [] k_blocks v_blocks) js st = Ok st.
Proof.
  intros Hlen Hjs. induction Hjs as [| j js Hj _ IH]; [reflexivity |].
  cbn [foldM]. unfold visit_column at 1.
  destruct (py_index_lt k_blocks j Hj) as [kb ->].
  destruct (py_index_lt v_blocks j) as [vb ->]; [lia |].
  cbn [bind length seq foldM]. exact IH.
Qed.

Lemma split_blocks_same_length (k v : ndarray) (N : nat) (b : Z) :
  b <> 0%Z ->
  exists k_blocks v_blocks : list ndarray,
    split_blocks k N b = Ok k_blocks /\ split_blocks v N b = Ok v_blocks
    /\ length v_blocks = length k_blocks.
Proof.
  intro Hb. unfold split_blocks, py_range.
  destruct (Z.eqb_spec b 0); [contradiction |].
  destruct (Z.ltb_spec b 0); cbn [bind]; do 2 eexists;
    (split; [reflexivity | split; [reflexivity | now rewrite !length_map]]).
Qed.

(** X10: a negative row tile size that passes the assertions leaves the
    lists of row tiles empty; the loops then visit no tile and the final
    concatenation of no block raises ValueError. *)
Theorem negative_row_tile_fails (q k v : ndarray) (b_r b_c : Z) :
  (b_r < 0)%Z ->
  check_preconditions q k v b_r b_c = Ok tt ->
  flash_attention q k v b_r b_c = Err ValueError.
Proof.
  intros Hbr Hcheck.
  destruct (check_preconditions_inv q k v b_r b_c Hcheck) as (_ & Hbc & _).
  unfold flash_attention, flash_attention_run. rewrite Hcheck. cbn [bind].
  unfold tile_work. cbv zeta.
  rewrite !(split_blocks_negative _ _ b_r) by exact Hbr.
  destruct (split_blocks_same_length k v (shape0 q) b_c Hbc)
    as (k_blocks & v_blocks & -> & -> & Hlen).
  cbn [bind]. rewrite visit_column_no_row_tiles.
  - reflexivity.
  - exact Hlen.
  - apply Forall_forall. intros j Hj. apply in_seq in Hj. lia.
Qed.

Lemma negative_row_tile_fails_witness :
  flash_attention (real_matrix 1 [[0]; [0]]) (real_matrix 1 [[0]; [0]])
                  (real_matrix 1 [[1]; [2]]) (-2) 1
  = Err ValueError.
Proof.
  apply (negative_row_tile_fails (real_matrix 1 [[0]; [0]])
           (real_matrix 1 [[0]; [0]]) (real_matrix 1 [[1]; [2]]) (-2) 1);
    [lia | reflexivity].
Defined.

(** ** Fewer key rows than query rows *)

Lemma py_range_ceil (N b : nat) :
  (0 < b)%nat ->
  py_range N (Z.of_nat b) = Ok (map (fun t => (t * b)%nat) (seq 0 ((N + b - 1) / b))).
Proof.
  intro Hb. unfold py_range.
  destruct (Z.eqb_spec (Z.of_nat b) 0); [lia |].
  destruct (Z.ltb_spec (Z.of_nat b) 0); [lia |].
  now rewrite Nat2Z.id.
Qed.

Lemma split_blocks_ceil (d : nat) (M : list (list R)) (N b : nat) :
  (0 < b)%nat ->
  split_blocks (real_matrix d M) N (Z.of_nat b)
  = Ok (map (fun t => real_matrix d (chunk b t M)) (seq 0 ((N + b - 1) / b))).
Proof.
  intro Hb. unfold split_blocks. rewrite py_range_ceil by exact Hb. cbn [bind].
  rewrite map_map, Nat2Z.id. f_equal. apply map_ext. intro t.
  unfold slice_rows, chunk, real_matrix. cbn [ncols rows].
  rewrite skipn_map, firstn_map. do 3 f_equal. lia.
Qed.

Lemma foldM_ext_in {A S : Type} (f g : S -> A -> result S) (l : list A) (s : S) :
  (forall s' a, In a l -> f s' a = g s' a) -> foldM f l s = foldM g l s.
Proof.
  revert s. induction l as [| a l IH]; intros s H; cbn [foldM]; [reflexivity |].
  rewrite (H s a) by (now left).
  destruct (g s a); cbn [bind]; [| reflexivity].
  apply IH. intros s' b Hb. apply H. now right.
Qed.

Lemma visit_column_shorter_lists (q_blocks : list ndarray) (F G : nat -> ndarray)
  (n m j : nat) (st : blocks_state) :
  (j < m)%nat -> (m <= n)%nat ->
  visit_column q_blocks (map F (seq 0 n)) (map G (seq 0 n)) st j
  = visit_column q_blocks (map F (seq 0 m)) (map G (seq 0 m)) st j.
Proof.
  intros Hj Hm. unfold visit_column. now rewrite !py_index_map_seq by lia.
Qed.

Lemma tile_step_no_keys (d : nat) (q v m l o : ndarray) :
  ncols q = d ->
  tile_step q (real_matrix d []) v m l o = Err ValueError.
Proof.
  intro Hq. unfold tile_step, np_matmul. rewrite shape0_T.
  cbn [ncols real_matrix]. rewrite Hq, Nat.eqb_refl. reflexivity.
Qed.

Lemma foldM_seq_from_fails {S : Type} (f : S -> nat -> result S) (a r : nat) (s : S)
  (e : exn) :
  f s a = Err e -> foldM f (seq a (Datatypes.S r)) s = Err e.
Proof. intro H. cbn [seq foldM]. now rewrite H. Qed.

Lemma foldM_seq_first_fails {S : Type} (f : S -> nat -> result S) (n : nat) (s : S)
  (e : exn) :
  (0 < n)%nat -> f s 0%nat = Err e -> foldM f (seq 0 n) s = Err e.
Proof.
  intros Hn H. destruct n as [| n]; [lia |]. now apply foldM_seq_from_fails.
Qed.

Lemma chunk_beyond {A : Type} (b t : nat) (l : list A) :
  (length l <= t * b)%nat -> chunk b t l = [].
Proof.
  intro H. unfold chunk. rewrite skipn_all2 by exact H. apply firstn_nil.
Qed.

(** X11: when K has fewer rows than Q (and V at least as many as K), every
    assertion may pass, but the column tile that starts after the last row
    of K is empty, its row-wise max does not exist, and the routine raises
    ValueError part-way through the loops: no output is returned, although
    the reference routine accepts such keys. *)
Theorem flash_attention_short_keys
  (N d : nat) (Q K V : list (list R)) (b_r b_c : Z) :
  has_shape N d Q ->
  (length K < N)%nat -> (length K <= length V)%nat ->
  Forall (fun r => length r = d) K -> Forall (fun r => length r = d) V ->
  (0 < b_r)%Z -> (0 < b_c)%Z ->
  (Z.of_nat N mod b_r = 0)%Z ->
  (Z.of_nat (length K) mod b_c = 0)%Z -> (Z.of_nat (length V) mod b_c = 0)%Z ->
  check_preconditions (real_matrix d Q) (real_matrix d K) (real_matrix d V) b_r b_c
  = Ok tt
  /\ flash_attention (real_matrix d Q) (real_matrix d K) (real_matrix d V) b_r b_c
     = Err ValueError
  /\ (K <> [] -> length V = length K ->
      standard_attention (real_matrix d Q) (real_matrix d K) (real_matrix d V)
      = Ok (real_matrix d (attentionR Q K V d))).
Proof.
  intros [HQ HQc] HKN HKV HKc HVc Hbr Hbc Hmr HmK HmV.
  assert (Hcheck : check_preconditions (real_matrix d Q) (real_matrix d K)
                     (real_matrix d V) b_r b_c = Ok tt).
  { apply check_preconditions_ok; rewrite ?shape0_real, ?HQ; try assumption;
      try lia; reflexivity. }
  split; [exact Hcheck |]. split.
  2: { intros Hne Hlen. now apply standard_attention_cross. }
  destruct (tile_count N b_r Hbr Hmr) as [nq [Hnq Hbrp]].
  destruct (tile_count (length K) b_c Hbc HmK) as [m [Hm Hbcp]].
  remember (Z.to_nat b_r) as br eqn:Ebr.
  remember (Z.to_nat b_c) as bc eqn:Ebc.
  set (n := ((N + bc - 1) / bc)%nat).
  assert (Hmn : (m < n)%nat).
  { unfold n. apply (Nat.lt_le_trans _ (S m)); [lia |].
    apply Nat.div_le_lower_bound; [lia | nia]. }
  assert (Hnq1 : (0 < nq)%nat) by (destruct nq; [cbn in Hnq; lia | lia]).
  unfold flash_attention, flash_attention_run. rewrite Hcheck. cbn [bind].
  unfold tile_work. cbv zeta.
  replace b_r with (Z.of_nat br) by lia.
  replace b_c with (Z.of_nat bc) by lia.
  rewrite <- HQ in Hnq.
  rewrite (initial_o_blocks Q d br nq), (initial_l_blocks Q d br nq),
    (initial_m_blocks Q d br nq) by assumption.
  rewrite shape0_real, HQ.
  pose proof (split_blocks_real d Q nq br Hbrp) as Sq. rewrite <- Hnq, HQ in Sq.
  rewrite Sq, !split_blocks_ceil by exact Hbcp. fold n.
  cbn [bind]. rewrite length_map, length_seq.
  change (mkstate _ _ _ [])
    with (tiles_state Q d br nq (fun _ => []) (fun _ => []) []).
  assert (Hseq : seq 0 n = seq 0 m ++ seq m (n - m)).
  { rewrite <- seq_app. f_equal. lia. }
  set (kb := map (fun t => real_matrix d (chunk bc t K)) (seq 0 n)).
  set (vb := map (fun t => real_matrix d (chunk bc t V)) (seq 0 n)).
  rewrite Hseq, foldM_app. subst kb vb.
  rewrite (foldM_ext_in _
             (visit_column
                (map (fun t => real_matrix d (chunk br t Q)) (seq 0 nq))
                (map (fun t => real_matrix d (chunk bc t K)) (seq 0 m))
                (map (fun t => real_matrix d (chunk bc t V)) (seq 0 m)))).
  2: { intros s' j Hj. apply in_seq in Hj.
       apply visit_column_shorter_lists; lia. }
  rewrite (outer_loop_real Q d br nq K V bc m); try assumption; try lia.
  cbn [bind].
  replace (n - m)%nat with (S (n - m - 1)) by lia.
  rewrite (foldM_seq_from_fails _ _ _ _ ValueError); [reflexivity |].
  unfold visit_column.
  rewrite !py_index_map_seq by lia. cbn [bind].
  rewrite (chunk_beyond bc m K) by lia.
  rewrite length_map, length_seq.
  apply foldM_seq_first_fails; [exact Hnq1 |]. unfold visit_tile.
  rewrite py_index_map_seq by lia. unfold tiles_state.
  cbn [m_blocks l_blocks o_blocks]. rewrite !py_index_map_seq by lia.
  cbn [bind]. rewrite tile_step_no_keys by reflexivity. reflexivity.
Qed.

Lemma flash_attention_short_keys_witness :
  check_preconditions (real_matrix 1 [[0]; [0]]) (real_matrix 1 [[0]])
                      (real_matrix 1 [[1]]) 1 1 = Ok tt
  /\ flash_attention (real_matrix 1 [[0]; [0]]) (real_matrix 1 [[0]])
                     (real_matrix 1 [[1]]) 1 1 = Err ValueError
  /\ ([[0]] <> [] -> length [[1]] = length [[0]] ->
      standard_attention (real_matrix 1 [[0]; [0]]) (real_matrix 1 [[0]])
                         (real_matrix 1 [[1]])
      = Ok (real_matrix 1 (attentionR [[0]; [0]] [[0]] [[1]] 1))).
Proof.
  apply (flash_attention_short_keys 2 1 [[0]; [0]] [[0]] [[1]] 1 1);
    try (split; [reflexivity | repeat constructor]);
    try (cbn [length]; lia); try reflexivity; repeat constructor.
Defined.

(** ** Bounds on the running normalizer and on the output *)

Lemma Rmaxl_In (l : list R) (x : R) : In (Rmaxl x l) (x :: l).
Proof.
  unfold Rmaxl. revert x. induction l as [| a l IH]; intro x; cbn [fold_left].
  - now left.
  - destruct (IH (Rmax x a)) as [H | H].
    + rewrite <- H. unfold Rmax. destruct (Rle_dec x a); [right; now left | now left].
    + right. now right.
Qed.

Lemma Rlist_max_In (l : list R) : l <> [] -> In (Rlist_max l) l.
Proof.
  destruct l as [| x l]; [contradiction | intros _]. apply Rmaxl_In.
Qed.

Lemma Rsum_le_length {A : Type} (f : A -> R) (l : list A) :
  (forall x, In x l -> f x <= 1) -> Rsum (map f l) <= INR (length l).
Proof.
  intro H. induction l as [| a l IH]; [cbn; lra |].
  cbn [map Rsum fold_right length]. rewrite S_INR.
  assert (f a <= 1) by (apply H; now left).
  assert (Rsum (map f l) <= INR (length l)) by (apply IH; intros; apply H; now right).
  unfold Rsum in *. lra.
Qed.

Lemma normR_bounds (K : list (list R)) (q : list R) :
  K <> [] -> 1 <= normR K q <= INR (length K).
Proof.
  intro Hne. unfold normR, weightsR.
  set (M := Rlist_max (scoresR K q)).
  assert (HM : In M (scoresR K q)) by (apply Rlist_max_In; now apply scoresR_nonempty).
  split.
  - pose proof (Rsum_ge_term (fun s => exp (s - M)) (scoresR K q) M) as H.
    cbv beta in H. replace (M - M) with 0 in H by lra. rewrite exp_0 in H.
    apply H; [intro; left; apply exp_pos | exact HM].
  - replace (length K) with (length (scoresR K q))
      by (unfold scoresR; apply length_map).
    apply Rsum_le_length. intros s Hs.
    apply Rlist_max_ge in Hs. fold M in Hs.
    rewrite <- exp_0. apply (proj2 (exp_le_iff (s - M) 0)). lra.
Qed.

(** X12: at the end of a run on real N x d matrices the running
    normalizer of every row lies between 1 and N: the row's largest score
    contributes exp(0) = 1 and no key contributes more, so the final
    division by the normalizer never divides by zero. *)
Theorem final_normalizer_bounds
  (N d : nat) (Q K V : list (list R)) (b_r b_c : Z) :
  has_shape N d Q -> has_shape N d K -> has_shape N d V -> (0 < N)%nat ->
  (0 < b_r)%Z -> (0 < b_c)%Z ->
  (Z.of_nat N mod b_r = 0)%Z -> (Z.of_nat N mod b_c = 0)%Z ->
  exists (st : blocks_state) (L : list R),
    flash_attention_run (real_matrix d Q) (real_matrix d K) (real_matrix d V) b_r b_c
    = Ok st
    /\ np_concatenate (l_blocks st) = Ok (real_matrix 1 (map (fun l => [l]) L))
    /\ length L = N
    /\ Forall (fun l => 1 <= l <= INR N) L.
Proof.
  intros HQ HK HV HN Hbr Hbc Hmr Hmc.
  destruct (terminal_state N d Q K V b_r b_c HQ HK HV HN Hbr Hbc Hmr Hmc)
    as (st & Hrun & _ & Hl).
  exists st, (map (normR K) Q). split; [exact Hrun |]. split; [| split].
  - rewrite Hl. now rewrite map_map.
  - rewrite length_map. apply HQ.
  - apply Forall_map, Forall_forall. intros q _.
    destruct HK as [HK _]. rewrite <- HK. apply normR_bounds.
    intros ->. cbn [length] in HK. lia.
Qed.

Lemma final_normalizer_bounds_witness :
  exists (st : blocks_state) (L : list R),
    flash_attention_run (real_matrix 1 [[0]; [0]]) (real_matrix 1 [[0]; [0]])
                        (real_matrix 1 [[1]; [2]]) 1 2 = Ok st
    /\ np_concatenate (l_blocks st) = Ok (real_matrix 1 (map (fun l => [l]) L))
    /\ length L = 2%nat
    /\ Forall (fun l => 1 <= l <= INR 2) L.
Proof.
  apply (final_normalizer_bounds 2 1 [[0]; [0]] [[0]; [0]] [[1]; [2]] 1 2);
    try (split; [reflexivity | repeat constructor]); try lia; reflexivity.
Defined.

Lemma weighted_sum_bounds (lo hi : R) (w c : list R) :
  length w = length c ->
  Forall (fun x => 0 <= x) w -> Forall (fun v => lo <= v <= hi) c ->
  lo * Rsum w <= Rdot w c <= hi * Rsum w.
Proof.
  unfold Rdot. revert c. induction w as [| a w IH]; intros [| b c] Hlen Hw Hc;
    cbn [length] in Hlen; try discriminate; cbn [zip_with Rsum fold_right].
  - lra.
  - inversion Hw as [| ? ? Ha Hw']; subst. inversion Hc as [| ? ? Hb Hc']; subst.
    assert (Hrec : lo * Rsum w <= Rsum (zip_with Rmult w c) <= hi * Rsum w)
      by (apply IH; [lia | assumption | assumption]).
    unfold Rsum in *. nra.
Qed.

Lemma colR_in_range (lo hi : R) (d j : nat) (V : list (list R)) :
  (j < d)%nat -> Forall (fun r => length r = d) V ->
  Forall (Forall (fun v => lo <= v <= hi)) V ->
  Forall (fun v => lo <= v <= hi) (colR V j).
Proof.
  intros Hj Hd HV. unfold colR. apply Forall_map, Forall_forall. intros r Hr.
  rewrite Forall_forall in Hd, HV. specialize (Hd r Hr). specialize (HV r Hr).
  rewrite Forall_forall in HV. apply HV. apply nth_In. lia.
Qed.

Lemma attentionR_in_range (lo hi : R) (d : nat) (Q K V : list (list R)) :
  K <> [] -> length V = length K ->
  Forall (fun r => length r = d) V ->
  Forall (Forall (fun v => lo <= v <= hi)) V ->
  Forall (Forall (fun o => lo <= o <= hi)) (attentionR Q K V d).
Proof.
  intros Hne Hlen Hd HV. unfold attentionR. apply Forall_map, Forall_forall.
  intros q _. unfold outR. apply Forall_map, Forall_forall. intros j Hj.
  apply in_seq in Hj.
  pose proof (normR_pos K q Hne) as HL.
  assert (Hb : lo * normR K q <= Rdot (weightsR K q) (colR V j) <= hi * normR K q).
  { apply weighted_sum_bounds.
    - now rewrite weightsR_length, colR_length.
    - unfold weightsR. apply Forall_map, Forall_forall. intros s _. left. apply exp_pos.
    - apply (colR_in_range lo hi d); [lia | assumption | assumption]. }
  split.
  - apply (Rmult_le_reg_r (normR K q)); [exact HL |].
    unfold Rdiv. rewrite Rmult_assoc, Rinv_l by lra. lra.
  - apply (Rmult_le_reg_r (normR K q)); [exact HL |].
    unfold Rdiv. rewrite Rmult_assoc, Rinv_l by lra. lra.
Qed.

(** X13: every entry of the attention output lies within the range of the
    entries of V: if all values are between lo and hi, so are all outputs,
    of the tiled routine and of the reference routine alike (each output
    row is a weighted mean of the value rows). *)
Theorem attention_within_value_range
  (N d : nat) (Q K V : list (list R)) (b_r b_c : Z) (lo hi : R) :
  has_shape N d Q -> has_shape N d K -> has_shape N d V -> (0 < N)%nat ->
  (0 < b_r)%Z -> (0 < b_c)%Z ->
  (Z.of_nat N mod b_r = 0)%Z -> (Z.of_nat N mod b_c = 0)%Z ->
  Forall (Forall (fun v => lo <= v <= hi)) V ->
  exists O : list (list R),
    flash_attention (real_matrix d Q) (real_matrix d K) (real_matrix d V) b_r b_c
    = Ok (real_matrix d O)
    /\ standard_attention (real_matrix d Q) (real_matrix d K) (real_matrix d V)
       = Ok (real_matrix d O)
    /\ has_shape N d O
    /\ Forall (Forall (fun o => lo <= o <= hi)) O.
Proof.
  intros HQ HK HV HN Hbr Hbc Hmr Hmc Hrange.
  destruct (flash_and_standard N d Q K V b_r b_c HQ HK HV Hbr Hbc Hmr Hmc) as [Hf Hs].
  cbv zeta in Hf, Hs. destruct (Nat.eqb_spec N 0); [lia |].
  exists (attentionR Q K V d).
  split; [exact Hf |]. split; [exact Hs |]. split; [apply attentionR_shape, HQ |].
  - destruct HK as [HK _], HV as [HV HVc].
    apply attentionR_in_range; try assumption; [| lia].
    intros ->. cbn [length] in HK. lia.
Qed.

Lemma attention_within_value_range_witness :
  exists O : list (list R),
    flash_attention (real_matrix 1 [[0]; [0]]) (real_matrix 1 [[0]; [0]])
                    (real_matrix 1 [[1]; [2]]) 1 2 = Ok (real_matrix 1 O)
    /\ standard_attention (real_matrix 1 [[0]; [0]]) (real_matrix 1 [[0]; [0]])
                          (real_matrix 1 [[1]; [2]]) = Ok (real_matrix 1 O)
    /\ has_shape 2 1 O
    /\ Forall (Forall (fun o => 1 <= o <= 2)) O.
Proof.
  apply (attention_within_value_range 2 1 [[0]; [0]] [[0]; [0]] [[1]; [2]] 1 2 1 2);
    try (split; [reflexivity | repeat constructor]); try lia; try reflexivity.
  repeat constructor; lra.
Defined.

(** ** How the routines compose *)

(** X14: the reference routine treats every query row on its own: its
    result on two stacked blocks of queries is the concatenation of its
    results on each block. *)
Theorem standard_attention_query_batches
  (dk dv : nat) (Q1 Q2 K V : list (list R)) :
  K <> [] -> length V = length K ->
  Forall (fun r => length r = dk) K -> Forall (fun r => length r = dv) V ->
  exists o1 o2 o : ndarray,
    standard_attention (real_matrix dk Q1) (real_matrix dk K) (real_matrix dv V) = Ok o1
    /\ standard_attention (real_matrix dk Q2) (real_matrix dk K) (real_matrix dv V)
       = Ok o2
    /\ standard_attention (real_matrix dk (Q1 ++ Q2)) (real_matrix dk K)
                          (real_matrix dv V) = Ok o
    /\ np_concatenate [o1; o2] = Ok o.
Proof.
  intros Hne Hlen HK HV.
  do 3 eexists. rewrite !standard_attention_cross by assumption.
  do 3 (split; [reflexivity |]).
  unfold np_concatenate, real_matrix, attentionR. cbn [forallb ncols map rows concat].
  rewrite Nat.eqb_refl. cbn [andb]. now rewrite app_nil_r, !map_app.
Qed.

Lemma standard_attention_query_batches_witness :
  exists o1 o2 o : ndarray,
    standard_attention (real_matrix 1 [[0]]) (real_matrix 1 [[0]; [1]])
                       (real_matrix 1 [[1]; [2]]) = Ok o1
    /\ standard_attention (real_matrix 1 [[3]]) (real_matrix 1 [[0]; [1]])
                          (real_matrix 1 [[1]; [2]]) = Ok o2
    /\ standard_attention (real_matrix 1 ([[0]] ++ [[3]])) (real_matrix 1 [[0]; [1]])
                          (real_matrix 1 [[1]; [2]]) = Ok o
    /\ np_concatenate [o1; o2] = Ok o.
Proof.
  apply (standard_attention_query_batches 1 1 [[0]] [[3]] [[0]; [1]] [[1]; [2]]);
    try discriminate; try reflexivity; repeat constructor.
Defined.

(** X15: visiting two key/value tiles one after the other, starting from
    the initial state (m, l, o) = (-inf, 0, 0), leaves a row tile in the
    same state as one visit of the two tiles put together: the merge of
    the running max, normalizer and output does not depend on where the
    keys are cut. *)
Theorem tile_visits_compose (d : nat) (Qb Kt1 Vt1 Kt2 Vt2 : list (list R)) :
  Kt1 <> [] -> Kt2 <> [] ->
  length Vt1 = length Kt1 -> length Vt2 = length Kt2 ->
  Forall (fun r => length r = d) Kt1 -> Forall (fun r => length r = d) Vt1 ->
  Forall (fun r => length r = d) Kt2 -> Forall (fun r => length r = d) Vt2 ->
  exists t1 t2 t12 : tile_result,
    tile_step (real_matrix d Qb) (real_matrix d Kt1) (real_matrix d Vt1)
              (np_full (length Qb) 1 NInf) (np_zeros (length Qb) 1)
              (np_zeros (length Qb) d) = Ok t1
    /\ tile_step (real_matrix d Qb) (real_matrix d Kt2) (real_matrix d Vt2)
                 (m_i_new t1) (l_i_new t1) (o_i_new t1) = Ok t2
    /\ tile_step (real_matrix d Qb) (real_matrix d (Kt1 ++ Kt2))
                 (real_matrix d (Vt1 ++ Vt2))
                 (np_full (length Qb) 1 NInf) (np_zeros (length Qb) 1)
                 (np_zeros (length Qb) d) = Ok t12
    /\ m_i_new t2 = m_i_new t12
    /\ l_i_new t2 = l_i_new t12
    /\ o_i_new t2 = o_i_new t12.
Proof.
  intros Hn1 Hn2 Hl1 Hl2 HK1 HV1 HK2 HV2.
  rewrite <- m_state_initial, <- l_state_initial, <- (o_state_initial d).
  do 3 eexists.
  split; [now apply tile_step_real |].
  cbn [m_i_new l_i_new o_i_new app].
  split; [now apply tile_step_real |].
  split.
  - apply tile_step_real.
    + intro H. apply app_eq_nil in H. tauto.
    + now apply Forall_app.
    + rewrite !length_app. lia.
    + reflexivity.
    + now apply Forall_app.
  - cbn [m_i_new l_i_new o_i_new app]. repeat split.
Qed.

Lemma tile_visits_compose_witness :
  exists t1 t2 t12 : tile_result,
    tile_step (real_matrix 1 [[1]; [2]]) (real_matrix 1 [[0]]) (real_matrix 1 [[5]])
              (np_full (length [[1]; [2]]) 1 NInf) (np_zeros (length [[1]; [2]]) 1)
              (np_zeros (length [[1]; [2]]) 1) = Ok t1
    /\ tile_step (real_matrix 1 [[1]; [2]]) (real_matrix 1 [[3]]) (real_matrix 1 [[7]])
                 (m_i_new t1) (l_i_new t1) (o_i_new t1) = Ok t2
    /\ tile_step (real_matrix 1 [[1]; [2]]) (real_matrix 1 ([[0]] ++ [[3]]))
                 (real_matrix 1 ([[5]] ++ [[7]]))
                 (np_full (length [[1]; [2]]) 1 NInf) (np_zeros (length [[1]; [2]]) 1)
                 (np_zeros (length [[1]; [2]]) 1) = Ok t12
    /\ m_i_new t2 = m_i_new t12
    /\ l_i_new t2 = l_i_new t12
    /\ o_i_new t2 = o_i_new t12.
Proof.
  apply (tile_visits_compose 1 [[1]; [2]] [[0]] [[5]] [[3]] [[7]]);
    try discriminate; try reflexivity; repeat constructor.
Defined.

(** ** Reordering the key/value pairs *)

Lemma Rsum_perm (l l' : list R) : Permutation l l' -> Rsum l = Rsum l'.
Proof.
  intro H. induction H as [| x l l' _ IH | x y l | l l' l'' _ IH1 _ IH2];
    cbn [Rsum fold_right] in *; unfold Rsum in *; lra.
Qed.

Lemma Rlist_max_perm (l l' : list R) :
  Permutation l l' -> Rlist_max l = Rlist_max l'.
Proof.
  intro H. destruct l as [| x l0] eqn:El.
  - apply Permutation_nil in H. now subst l'.
  - rewrite <- El in *.
    assert (Hne : l <> []) by (rewrite El; discriminate).
    assert (Hne' : l' <> []).
    { intros ->. apply Permutation_sym, Permutation_nil in H. contradiction. }
    apply Rle_antisym.
    + apply Rlist_max_ge. apply (Permutation_in _ H). now apply Rlist_max_In.
    + apply Rlist_max_ge. apply (Permutation_in _ (Permutation_sym H)).
      now apply Rlist_max_In.
Qed.

Lemma Rdot_pairs (g : list R -> R) (h : list R -> R) (KV : list (list R * list R)) :
  Rdot (map g (map fst KV)) (map h (map snd KV))
  = Rsum (map (fun kv => g (fst kv) * h (snd kv)) KV).
Proof.
  unfold Rdot. f_equal.
  induction KV as [| kv KV IH]; cbn [map zip_with]; [reflexivity | now rewrite IH].
Qed.

Lemma attentionR_perm (Q : list (list R)) (KV KV' : list (list R * list R)) (d : nat) :
  Permutation KV KV' ->
  attentionR Q (map fst KV) (map snd KV) d = attentionR Q (map fst KV') (map snd KV') d.
Proof.
  intro H. unfold attentionR. apply map_ext. intro q.
  assert (Hs : Permutation (scoresR (map fst KV) q) (scoresR (map fst KV') q)).
  { unfold scoresR. now do 2 apply Permutation_map. }
  assert (HM : Rlist_max (scoresR (map fst KV) q) = Rlist_max (scoresR (map fst KV') q))
    by (now apply Rlist_max_perm).
  assert (HL : normR (map fst KV) q = normR (map fst KV') q).
  { unfold normR, weightsR. rewrite HM. apply Rsum_perm. now apply Permutation_map. }
  unfold outR. apply map_ext. intro j. rewrite HL. f_equal.
  unfold weightsR. rewrite HM.
  set (M := Rlist_max (scoresR (map fst KV') q)).
  unfold scoresR, colR. rewrite !(map_map (Rdot q)).
  rewrite !(Rdot_pairs (fun k => exp (Rdot q k - M)) (fun r => nth j r 0)).
  apply Rsum_perm. now apply Permutation_map.
Qed.

(** X16: attention does not depend on the order of the key/value pairs:
    reordering the rows of K and the rows of V in the same way changes the
    result of neither routine. *)
Theorem attention_key_value_order
  (N d : nat) (Q : list (list R)) (KV KV' : list (list R * list R)) (b_r b_c : Z) :
  Permutation KV KV' ->
  has_shape N d Q -> has_shape N d (map fst KV) -> has_shape N d (map snd KV) ->
  (0 < b_r)%Z -> (0 < b_c)%Z ->
  (Z.of_nat N mod b_r = 0)%Z -> (Z.of_nat N mod b_c = 0)%Z ->
  standard_attention (real_matrix d Q) (real_matrix d (map fst KV))
                     (real_matrix d (map snd KV))
  = standard_attention (real_matrix d Q) (real_matrix d (map fst KV'))
                       (real_matrix d (map snd KV'))
  /\ flash_attention (real_matrix d Q) (real_matrix d (map fst KV))
                     (real_matrix d (map snd KV)) b_r b_c
     = flash_attention (real_matrix d Q) (real_matrix d (map fst KV'))
                       (real_matrix d (map snd KV')) b_r b_c.
Proof.
  intros HP HQ HK HV Hbr Hbc Hmr Hmc.
  assert (Hshape : forall f : list R * list R -> list R,
             has_shape N d (map f KV) -> has_shape N d (map f KV')).
  { intros f [Hl Hc]. split.
    - rewrite length_map in *. rewrite <- Hl. symmetry. now apply Permutation_length.
    - apply Forall_forall. intros r Hr. rewrite Forall_forall in Hc. apply Hc.
      apply (Permutation_in _ (Permutation_sym (Permutation_map f HP))). exact Hr. }
  destruct (flash_and_standard N d Q _ _ b_r b_c HQ HK HV Hbr Hbc Hmr Hmc) as [Hf Hs].
  destruct (flash_and_standard N d Q _ _ b_r b_c HQ (Hshape fst HK) (Hshape snd HV)
              Hbr Hbc Hmr Hmc) as [Hf' Hs'].
  cbv zeta in *. rewrite Hf, Hs, Hf', Hs'.
  now rewrite (attentionR_perm Q KV KV' d HP).
Qed.

Lemma attention_key_value_order_witness :
  standard_attention (real_matrix 1 [[0]; [1]])
                     (real_matrix 1 (map fst [([1], [5]); ([2], [7])]))
                     (real_matrix 1 (map snd [([1], [5]); ([2], [7])]))
  = standard_attention (real_matrix 1 [[0]; [1]])
                       (real_matrix 1 (map fst [([2], [7]); ([1], [5])]))
                       (real_matrix 1 (map snd [([2], [7]); ([1], [5])]))
  /\ flash_attention (real_matrix 1 [[0]; [1]])
                     (real_matrix 1 (map fst [([1], [5]); ([2], [7])]))
                     (real_matrix 1 (map snd [([1], [5]); ([2], [7])])) 1 2
     = flash_attention (real_matrix 1 [[0]; [1]])
                       (real_matrix 1 (map fst [([2], [7]); ([1], [5])]))
                       (real_matrix 1 (map snd [([2], [7]); ([1], [5])])) 1 2.
Proof.
  apply (attention_key_value_order 2 1 [[0]; [1]] [([1], [5]); ([2], [7])]
           [([2], [7]); ([1], [5])] 1 2);
    try (split; [reflexivity | repeat constructor]); try lia; try reflexivity.
  apply perm_swap.
Defined.

(** ** A tile size of zero *)

(** X17: a tile size of zero is never reported by an assertion.  With
    b_r = 0 the first remainder raises ZeroDivisionError; with b_c = 0 the
    second remainder raises it, but only after the first assertion has
    passed: if b_r does not divide the row count of Q, that assertion
    fails first. *)
Theorem zero_tile_size_raises (q k v : ndarray) (b_r b_c : Z) :
  (b_r = 0%Z -> flash_attention q k v b_r b_c = Err ZeroDivisionError)
  /\ (b_r <> 0%Z -> b_c = 0%Z ->
      ((Z.of_nat (shape0 q) mod b_r = 0)%Z ->
       flash_attention q k v b_r b_c = Err ZeroDivisionError)
      /\ ((Z.of_nat (shape0 q) mod b_r <> 0)%Z ->
          flash_attention q k v b_r b_c = Err (AssertionError msg_q))).
Proof.
  pose proof (check_preconditions_cases q k v b_r b_c) as Hc. cbv zeta in Hc.
  destruct (check_preconditions q k v b_r b_c) as [u | e] eqn:Hcheck.
  - destruct Hc as (Hr & Hcz & _). split; [intro; contradiction |].
    intros _ Hz. contradiction.
  - destruct (flash_attention_stops_at_check q k v b_r b_c e Hcheck) as [_ ->].
    split; [intro Hr0 | intros Hr Hz; split; intro Hq];
      destruct Hc as [Hc | [Hc | [Hc | [Hc | [Hc | Hc]]]]];
      try (exfalso; tauto); f_equal; tauto.
Qed.
